(** * The context resolver of agent-browse

    A shallow embedding of the two [ContextResolver] classes of the
    repository (the single-tenant one, whose store is the [instructions]
    directory itself, and the multi-tenant one, which first selects an
    instruction set by the hostname of the URL), and the properties of
    them that the specification states.

    Conventions.
    - A JavaScript string is a [string]; each [ascii] stands for the code
      unit of the same number, so the development covers texts over the
      code units 0..255.
    - A path is the list of its components.  [path.join] is the POSIX
      one: concatenation followed by the lexical normalisation of [.] and
      [..].
    - The file system is a tree ([node]) of files, which can be read or
      not, and directories, which can be listed or not; the resolver
      only reads it.
    - A call runs in a monad that threads the fields of the resolver
      object, records every file-system access in a log, and either
      returns or throws.
    - [new URL] and [JSON.parse] belong to the platform; they are
      parameters ([URL_parse], [JSON_parse]) of everything that calls
      them.  Module [Lite] gives executable parsers for plain inputs, with
      which the concrete stores of this file are run. *)

From stdpp Require Import gmap strings list.
From Stdlib Require Import Ascii String Bool Arith Lia.

Open Scope string_scope.
Open Scope list_scope.

#[local] Set Warnings "-register-all".

(** ** Strings *)

Module Js.

(** [s.startsWith(p)] *)
Definition startsWith (s p : string) : bool := String.prefix p s.

(** [s.slice(k)] for [0 <= k] *)
Definition slice (k : nat) (s : string) : string :=
  substring k (String.length s - k) s.

(** [s.endsWith(p)]: the search starts at [length s - length p], and
    fails when that is negative. *)
Definition endsWith (s p : string) : bool :=
  let n := String.length s in
  let m := String.length p in
  if Nat.leb m n then String.eqb (substring (n - m) m s) p else false.

(** White space and line terminators with a code below 256: TAB, LF, VT,
    FF, CR, SP and NBSP. *)
Definition is_space (c : ascii) : bool :=
  let n := nat_of_ascii c in
  (Nat.leb 9 n && Nat.leb n 13) || Nat.eqb n 32 || Nat.eqb n 160.

Fixpoint trimStart (s : string) : string :=
  match s with
  | EmptyString => EmptyString
  | String c s' => if is_space c then trimStart s' else s
  end.

(** [trimEnd] keeps a character when it is not a space or when something
    is left after it. *)
Fixpoint trimEnd (s : string) : string :=
  match s with
  | EmptyString => EmptyString
  | String c s' =>
      match trimEnd s' with
      | EmptyString => if is_space c then EmptyString else String c EmptyString
      | t => String c t
      end
  end.

(** [s.trim()] *)
Definition trim (s : string) : string := trimEnd (trimStart s).

(** [s.split(c)] for a one-character separator: never empty. *)
Fixpoint split (c : ascii) (s : string) : list string :=
  match s with
  | EmptyString => [EmptyString]
  | String a s' =>
      match split c s' with
      | [] => [EmptyString]
      | w :: ws => if Ascii.eqb a c then EmptyString :: w :: ws
                   else String a w :: ws
      end
  end.

(** [xs.join(sep)] *)
Fixpoint join (sep : string) (xs : list string) : string :=
  match xs with
  | [] => EmptyString
  | [x] => x
  | x :: rest => x +:+ sep +:+ join sep rest
  end.

(** [xs.includes(x)] *)
Definition includes (xs : list string) (x : string) : bool :=
  existsb (String.eqb x) xs.

(** Truthiness of a string: every string but the empty one. *)
Definition truthy (s : string) : bool := negb (String.eqb s "").

(** Truthiness of a [string | null]. *)
Definition truthy_opt (o : option string) : bool :=
  match o with
  | Some s => truthy s
  | None => false
  end.

(** [/^[cls]{lo,}$/.test(s)] and [/^[cls]{n}$/.test(s)]: the whole string
    is made of characters of the class and has an admissible length. *)
Definition all_chars (cls : ascii -> bool) (s : string) : bool :=
  forallb cls (list_ascii_of_string s).

Definition test_at_least (cls : ascii -> bool) (lo : nat) (s : string) : bool :=
  Nat.leb lo (String.length s) && all_chars cls s.

Definition test_exactly (cls : ascii -> bool) (n : nat) (s : string) : bool :=
  Nat.eqb (String.length s) n && all_chars cls s.

(** The character classes of the source: [\d], and [[a-f0-9]] and
    [[a-f0-9-]] under the [i] flag (which adds [A-F] and nothing else). *)
Definition in_range (lo hi : nat) (c : ascii) : bool :=
  Nat.leb lo (nat_of_ascii c) && Nat.leb (nat_of_ascii c) hi.

Definition cls_digit (c : ascii) : bool := in_range 48 57 c.

Definition cls_hex_i (c : ascii) : bool :=
  in_range 97 102 c || in_range 48 57 c || in_range 65 70 c.

Definition cls_hex_hyphen_i (c : ascii) : bool :=
  cls_hex_i c || Ascii.eqb c "-".

End Js.

(** ** The dynamic-segment classifier

    [isDynamicSegment] is the same text in both classes. *)

Definition isDynamicSegment (segment : string) : bool :=
  if Js.test_at_least Js.cls_digit 1 segment then true          (* /^\d+$/ *)
  else if Js.test_exactly Js.cls_hex_hyphen_i 36 segment then true  (* /^[a-f0-9-]{36}$/i *)
  else if Js.test_at_least Js.cls_hex_i 8 segment then true     (* /^[a-f0-9]{8,}$/i *)
  else if Js.test_exactly Js.cls_hex_i 24 segment then true     (* /^[a-f0-9]{24}$/i *)
  else false.

(** ** Values, results and the file system *)

(** A value produced by [JSON.parse].  Of a number the code can observe
    only whether it is zero, so that is kept next to its literal.  The
    members of an object are in the order of the text; a later duplicate
    of a key hides an earlier one. *)
Inductive json : Type :=
| JNull
| JBool (b : bool)
| JNum (zero : bool) (literal : string)
| JStr (s : string)
| JArr (items : list json)
| JObj (members : list (string * json)).

Inductive exn : Type := TypeError | SyntaxError | FsError.

Inductive outcome (A : Type) : Type :=
| Returned (a : A)
| Thrown (e : exn).
Arguments Returned {A} a.
Arguments Thrown {A} e.

Module Json.

Fixpoint assoc_last {V : Type} (k : string) (ms : list (string * V)) : option V :=
  match ms with
  | [] => None
  | (k', v) :: ms' =>
      match assoc_last k ms' with
      | Some w => Some w
      | None => if String.eqb k' k then Some v else None
      end
  end.

(** [j.name]: throws on [null], is [undefined] ([None]) on a value that
    has no such property. *)
Definition member (name : string) (j : json) : outcome (option json) :=
  match j with
  | JNull => Thrown TypeError
  | JObj ms => Returned (assoc_last name ms)
  | _ => Returned None
  end.

Definition truthy (v : option json) : bool :=
  match v with
  | None => false
  | Some JNull => false
  | Some (JBool b) => b
  | Some (JNum zero _) => negb zero
  | Some (JStr s) => Js.truthy s
  | Some (JArr _) => true
  | Some (JObj _) => true
  end.

(** [Array.isArray(v)] *)
Definition isArray (v : option json) : bool :=
  match v with
  | Some (JArr _) => true
  | _ => false
  end.

Definition items (v : option json) : list json :=
  match v with
  | Some (JArr l) => l
  | _ => []
  end.

End Json.

(** A path is the list of its components; the empty list is the
    directory a relative path starts from, or the root. *)
Definition path : Type := list string.

Module Path.

(** The lexical normalisation of [path.join]: empty and [.] components
    vanish, [..] removes the component before it; at the start of a
    relative path [..] stays, at the root of an absolute one it
    vanishes.  [acc] is the normalised prefix, reversed. *)
Fixpoint normalize_from (absolute : bool) (acc : list string) (p : path) : path :=
  match p with
  | [] => List.rev acc
  | c :: p' =>
      if String.eqb c "" || String.eqb c "." then normalize_from absolute acc p'
      else if String.eqb c ".." then
        match acc with
        | [] => if absolute then normalize_from absolute [] p'
                else normalize_from absolute [".."] p'
        | top :: acc' =>
            if String.eqb top ".." then normalize_from absolute (".." :: acc) p'
            else normalize_from absolute acc' p'
        end
      else normalize_from absolute (c :: acc) p'
  end.

(** [join(p1, ..., pn)] for relative arguments. *)
Definition join (parts : list path) : path :=
  normalize_from false [] (List.concat parts).

(** [join(dir, p1, ..., pn)] for an absolute [dir]. *)
Definition join_abs (dir : path) (parts : list path) : path :=
  normalize_from true [] (dir ++ List.concat parts).

End Path.

(** The file system: a file with its text ([None] when it cannot be
    read), a directory with its entries in the order [readdirSync]
    lists them, or a directory that cannot be listed ([readdirSync]
    throws on it, for want of the permission to read it, say) while the
    paths through it can still be followed. *)
Inductive node : Type :=
| File (content : option string)
| Dir (entries : list (string * node))
| Locked (entries : list (string * node)).

Module Fs.

Fixpoint assoc {V : Type} (k : string) (es : list (string * V)) : option V :=
  match es with
  | [] => None
  | (k', v) :: es' => if String.eqb k' k then Some v else assoc k es'
  end.

(** The node at an absolute, normalised path. *)
Fixpoint lookup (n : node) (p : path) : option node :=
  match p with
  | [] => Some n
  | c :: p' =>
      match n with
      | Dir es | Locked es =>
          match assoc c es with
          | Some n' => lookup n' p'
          | None => None
          end
      | File _ => None
      end
  end.

Definition is_dir (n : node) : bool :=
  match n with
  | Dir _ | Locked _ => true
  | File _ => false
  end.

(** A [Dirent]: its name and the answer of [isDirectory()]. *)
Record Dirent : Type := { name : string; isDirectory : bool }.

Definition dirent (e : string * node) : Dirent :=
  {| name := fst e; isDirectory := is_dir (snd e) |}.

End Fs.

(** ** File-system access

    A computation that reads the file system is its result together with
    the accesses it made, in order. *)

Inductive fs_op : Type :=
| ExistsSync (p : path)
| ReadFileSync (p : path)
| ReaddirSync (p : path).

Definition IO (A : Type) : Type := outcome A * list fs_op.

Definition io_ret {A : Type} (a : A) : IO A := (Returned a, []).

Definition io_bind {A B : Type} (m : IO A) (f : A -> IO B) : IO B :=
  match m with
  | (Returned a, l1) => let (o, l2) := f a in (o, l1 ++ l2)
  | (Thrown e, l1) => (Thrown e, l1)
  end.

(** [try { m } catch { h }] *)
Definition io_catch {A : Type} (m : IO A) (h : IO A) : IO A :=
  match m with
  | (Returned a, l1) => (Returned a, l1)
  | (Thrown _, l1) => let (o, l2) := h in (o, l1 ++ l2)
  end.

Notation "'io' x <- m ; f" := (io_bind m (fun x => f))
  (at level 10, x name, m at level 100, f at level 200,
   format "'[v' 'io'  x  <-  m ; '/' f ']'").

Definition io_value {A : Type} (m : IO A) : outcome A := fst m.
Definition io_log {A : Type} (m : IO A) : list fs_op := snd m.

(** A parsed URL, as far as the resolver reads it. *)
Record URL : Type := { hostname : string; pathname : string }.

(** The text that joins the documents of one resolution. *)
Definition separator : string :=
  String "010" (String "010" ("---" +:+ String "010" (String "010" ""))).

(** [if (doc) instructions.push(doc)] *)
Definition push_if (doc : option string) (instructions : list string) : list string :=
  match doc with
  | Some d => if Js.truthy d then instructions ++ [d] else instructions
  | None => instructions
  end.

(** [pathname.replace(/\/$/, '') || '/'] *)
Definition stripTrailingSlash (pathname : string) : string :=
  if Js.endsWith pathname "/"
  then substring 0 (String.length pathname - 1) pathname
  else pathname.

Definition normalizePath (pathname : string) : string :=
  let stripped := stripTrailingSlash pathname in
  if Js.truthy stripped then stripped else "/".

(** [normalizedPath.split('/').filter(Boolean)] *)
Definition segmentsOf (pathname : string) : list string :=
  List.filter Js.truthy (Js.split "/" (normalizePath pathname)).

(** [instructions.length > 0 ? instructions.join(sep) : null] *)
Definition merge (instructions : list string) : option string :=
  if Nat.ltb 0 (List.length instructions)
  then Some (Js.join separator instructions)
  else None.

Section Store.

(** The file system of one call, and [this.instructionsDir]. *)
Variable fs : node.
Variable instructionsDir : path.

Definition existsSync (p : path) : IO bool :=
  (Returned (bool_decide (is_Some (Fs.lookup fs p))), [ExistsSync p]).

(** Reading fails on a directory, on a missing file and on a file that
    cannot be read. *)
Definition readFileSync (p : path) : IO string :=
  (match Fs.lookup fs p with
   | Some (File (Some text)) => Returned text
   | _ => Thrown FsError
   end, [ReadFileSync p]).

(** [readdirSync(p, { withFileTypes: true })]: it throws on a path
    that is missing or not a directory, and on a directory that cannot
    be listed. *)
Definition readdirSync (p : path) : IO (list Fs.Dirent) :=
  (match Fs.lookup fs p with
   | Some (Dir es) => Returned (List.map Fs.dirent es)
   | _ => Thrown FsError
   end, [ReaddirSync p]).

(** [loadFile], the same text in both classes. *)
Definition loadFile (relativePath : path) : IO (option string) :=
  let fullPath := Path.join_abs instructionsDir [relativePath] in
  io found <- existsSync fullPath ;
  if found
  then io_catch (io text <- readFileSync fullPath ; io_ret (Some (Js.trim text)))
                (io_ret None)
  else io_ret None.

(** The inner loop over [foldersToTry]: the first candidate that exists
    under the current directory. *)
Fixpoint tryFolders (currentPath : path) (foldersToTry : list string)
  : IO (option string) :=
  match foldersToTry with
  | [] => io_ret None
  | folder :: others =>
      let testPath := Path.join_abs instructionsDir [currentPath; [folder]] in
      io found <- existsSync testPath ;
      if found then io_ret (Some folder)
      else tryFolders currentPath others
  end.

(** The loop over the segments, the same text in both classes (lines
    47-90 and 135-178).  The recursion is on the segments still to
    visit; the segment at hand is the last one when none is left after
    it; [break] is the branch that does not recurse. *)
Fixpoint walk (segments : list string) (currentPath : path)
  (instructions : list string) : IO (list string) :=
  match segments with
  | [] => io_ret instructions
  | segment :: rest =>
      let isLastSegment := match rest with [] => true | _ => false end in
      let isDynamicId := isDynamicSegment segment in
      let foldersToTry := if isDynamicId then ["_dynamic"; "*"] else [segment] in
      io matchedFolder <- tryFolders currentPath foldersToTry ;
      if Js.truthy_opt matchedFolder then
        let currentPath := Path.join [currentPath; [default "" matchedFolder]] in
        io sectionBase <- loadFile (Path.join [currentPath; ["_base.md"]]) ;
        let instructions := push_if sectionBase instructions in
        io instructions <-
          (if isLastSegment && Js.truthy_opt matchedFolder then
             io indexFile <- loadFile (Path.join [currentPath; ["index.md"]]) ;
             io_ret (push_if indexFile instructions)
           else io_ret instructions) ;
        walk rest currentPath instructions
      else
        if isLastSegment then
          io pageFile <- loadFile (Path.join [currentPath; [segment +:+ ".md"]]) ;
          io_ret (push_if pageFile instructions)
        else io_ret instructions
  end.

(** Step 3, after [parentPath] is known: the exact sibling file, unless
    its text is already in the list. *)
Definition exactMatch (parentPath : path) (lastSegment : string)
  (instructions : list string) : IO (list string) :=
  io exactFile <- loadFile (Path.join [parentPath; [lastSegment +:+ ".md"]]) ;
  match exactFile with
  | Some doc =>
      if Js.truthy doc && negb (Js.includes instructions doc)
      then io_ret (instructions ++ [doc])
      else io_ret instructions
  | None => io_ret instructions
  end.

End Store.

(** ** Calls on a resolver object

    A method call takes the fields of the object and yields its outcome,
    the fields after the call (also when it throws) and the file-system
    accesses it made. *)

Definition M (S A : Type) : Type := S -> outcome A * S * list fs_op.

Definition m_ret {S A : Type} (a : A) : M S A := fun s => (Returned a, s, []).

Definition m_bind {S A B : Type} (m : M S A) (f : A -> M S B) : M S B :=
  fun s =>
    match m s with
    | (Returned a, s1, l1) =>
        match f a s1 with
        | (o, s2, l2) => (o, s2, l1 ++ l2)
        end
    | (Thrown e, s1, l1) => (Thrown e, s1, l1)
    end.

(** [try { m } catch { h }]: what [m] did to the fields before it threw
    stays done. *)
Definition m_catch {S A : Type} (m : M S A) (h : M S A) : M S A :=
  fun s =>
    match m s with
    | (Returned a, s1, l1) => (Returned a, s1, l1)
    | (Thrown _, s1, l1) =>
        match h s1 with
        | (o, s2, l2) => (o, s2, l1 ++ l2)
        end
    end.

Definition m_get {S : Type} : M S S := fun s => (Returned s, s, []).
Definition m_put {S : Type} (s' : S) : M S unit := fun _ => (Returned tt, s', []).

(** A computation that only reads the file system leaves the fields alone. *)
Definition lift {S A : Type} (m : IO A) : M S A := fun s => (fst m, s, snd m).

(** A value that may be an exception, inside a call. *)
Definition check {S A : Type} (o : outcome A) : M S A := fun s => (o, s, []).

Notation "'let*' x <- m ; f" := (m_bind m (fun x => f))
  (at level 10, x name, m at level 100, f at level 200,
   format "'[v' 'let*'  x  <-  m ; '/' f ']'").

Definition result_of {S A : Type} (r : outcome A * S * list fs_op) : outcome A := fst (fst r).
Definition state_of {S A : Type} (r : outcome A * S * list fs_op) : S := snd (fst r).
Definition log_of {S A : Type} (r : outcome A * S * list fs_op) : list fs_op := snd r.

(** ** The single-tenant resolver *)

Module Single.

Record Resolver : Type := {
  instructionsDir : path;
  cache : gmap string (option string)
}.

(** [new ContextResolver(pluginRoot)] *)
Definition create (pluginRoot : path) : Resolver :=
  {| instructionsDir := Path.join_abs pluginRoot [["instructions"]];
     cache := ∅ |}.

Definition cache_set (url : string) (result : option string) (this : Resolver)
  : Resolver :=
  {| instructionsDir := instructionsDir this;
     cache := <[url := result]> (cache this) |}.

Section Platform.

(** [new URL(url)]: [None] when it throws. *)
Variable URL_parse : string -> option URL.

(** The [try]/[catch] around [new URL(url).pathname]. *)
Definition pathnameOf (url : string) : string :=
  match URL_parse url with
  | Some parsed => pathname parsed
  | None => if Js.startsWith url "/" then url else "/" +:+ url
  end.

Definition resolve (fs : node) (url : string) : M Resolver (option string) :=
  let* this <- m_get ;
  match cache this !! url with
  | Some hit => m_ret hit
  | None =>
      let dir := instructionsDir this in
      let pathname := pathnameOf url in
      let segments := segmentsOf pathname in
      let* rootBase <- lift (loadFile fs dir ["_base.md"]) ;
      let instructions := push_if rootBase [] in
      let* instructions <- lift (walk fs dir segments [] instructions) ;
      let* instructions <-
        (if Nat.ltb 0 (List.length segments) then
           let lastSegment := List.last segments "" in
           let parentPath := List.removelast segments in
           lift (exactMatch fs dir parentPath lastSegment instructions)
         else m_ret instructions) ;
      let result := merge instructions in
      let* this <- m_get ;
      let* _ <- m_put (cache_set url result this) ;
      m_ret result
  end.

End Platform.

Definition clearCache : M Resolver unit :=
  let* this <- m_get ;
  m_put {| instructionsDir := instructionsDir this; cache := ∅ |}.

End Single.

(** ** The multi-tenant resolver *)

Module Multi.

(** [interface InstructionSetConfig { domains: string[] }].  The value
    comes from [JSON.parse] unchecked, so at run time the elements are
    any JSON values.  Of the stored [config] object only [domains] is
    ever read. *)
Record InstructionSetConfig : Type := { domains : list json }.

(** A [Map] in insertion order. *)
Definition ConfigMap : Type := list (string * InstructionSetConfig).

(** [map.set(k, v)]: a key that is present keeps its place. *)
Fixpoint map_set (k : string) (v : InstructionSetConfig) (m : ConfigMap) : ConfigMap :=
  match m with
  | [] => [(k, v)]
  | (k', v') :: m' =>
      if String.eqb k' k then (k, v) :: m' else (k', v') :: map_set k v m'
  end.

Record Resolver : Type := {
  instructionsDir : path;
  cache : gmap string (option string);
  configCache : option ConfigMap
}.

(** [new ContextResolver(pluginRoot)] *)
Definition create (pluginRoot : path) : Resolver :=
  {| instructionsDir := Path.join_abs pluginRoot [["instructions"]];
     cache := ∅;
     configCache := None |}.

Definition cache_set (url : string) (result : option string) (this : Resolver)
  : Resolver :=
  {| instructionsDir := instructionsDir this;
     cache := <[url := result]> (cache this);
     configCache := configCache this |}.

Definition configCache_put (m : ConfigMap) (this : Resolver) : Resolver :=
  {| instructionsDir := instructionsDir this;
     cache := cache this;
     configCache := Some m |}.

(** [this.configCache.set(name, config)] *)
Definition configCache_set (name : string) (config : InstructionSetConfig)
  (this : Resolver) : Resolver :=
  configCache_put (map_set name config (default [] (configCache this))) this.

(** [matchDomain].  A pattern that is not a string is not equal to the
    hostname, and the call of its [startsWith] throws. *)
Definition matchDomain (hostname : string) (pattern : json) : outcome bool :=
  match pattern with
  | JStr pattern =>
      if String.eqb hostname pattern then Returned true
      else if Js.startsWith pattern "*." then
        let suffix := Js.slice 1 pattern in
        Returned (Js.endsWith hostname suffix || String.eqb hostname (Js.slice 2 pattern))
      else Returned false
  | _ => Thrown TypeError
  end.

(** The two loops of [findInstructionSet]. *)
Fixpoint matchAny (hostname : string) (patterns : list json) : outcome bool :=
  match patterns with
  | [] => Returned false
  | domain :: others =>
      match matchDomain hostname domain with
      | Returned true => Returned true
      | Returned false => matchAny hostname others
      | Thrown e => Thrown e
      end
  end.

Fixpoint firstMatch (hostname : string) (configs : ConfigMap) : outcome (option string) :=
  match configs with
  | [] => Returned None
  | (folder, config) :: others =>
      match matchAny hostname (domains config) with
      | Returned true => Returned (Some folder)
      | Returned false => firstMatch hostname others
      | Thrown e => Thrown e
      end
  end.

Section Platform.

(** [new URL(url)] and [JSON.parse(text)]: [None] when they throw. *)
Variable URL_parse : string -> option URL.
Variable JSON_parse : string -> option json.

(** The body of the [try] in [loadConfigs], for one entry. *)
Definition registerConfig (fs : node) (entryName : string) (configPath : path)
  : M Resolver unit :=
  let* text <- lift (readFileSync fs configPath) ;
  let* config <- check (match JSON_parse text with
                        | Some v => Returned v
                        | None => Thrown SyntaxError
                        end) ;
  let* configDomains <- check (Json.member "domains" config) ;
  if Json.truthy configDomains && Json.isArray configDomains then
    let* this <- m_get ;
    m_put (configCache_set entryName {| domains := Json.items configDomains |} this)
  else m_ret tt.

(** The loop over the entries of the instructions directory. *)
Fixpoint scanEntries (fs : node) (dir : path) (entries : list Fs.Dirent)
  : M Resolver unit :=
  match entries with
  | [] => m_ret tt
  | entry :: others =>
      let* _ <-
        (if negb (Fs.isDirectory entry) then m_ret tt
         else
           let configPath := Path.join_abs dir [[Fs.name entry]; ["_config.json"]] in
           let* found <- lift (existsSync fs configPath) ;
           if found
           then m_catch (registerConfig fs (Fs.name entry) configPath) (m_ret tt)
           else m_ret tt) ;
      scanEntries fs dir others
  end.

Definition loadConfigs (fs : node) : M Resolver ConfigMap :=
  let* this <- m_get ;
  match configCache this with
  | Some configs => m_ret configs
  | None =>
      let dir := instructionsDir this in
      let* _ <- m_put (configCache_put [] this) ;
      let* found <- lift (existsSync fs dir) ;
      if negb found then m_ret []
      else
        let* entries <- lift (readdirSync fs dir) ;
        let* _ <- scanEntries fs dir entries ;
        let* this <- m_get ;
        m_ret (default [] (configCache this))
  end.

Definition findInstructionSet (fs : node) (hostname : string)
  : M Resolver (option string) :=
  let* configs <- loadConfigs fs ;
  check (firstMatch hostname configs).

Definition resolve (fs : node) (url : string) : M Resolver (option string) :=
  let* this <- m_get ;
  match cache this !! url with
  | Some hit => m_ret hit
  | None =>
      match URL_parse url with
      | None =>
          let* _ <- m_put (cache_set url None this) ;
          m_ret None
      | Some parsed =>
          let* instructionSet <- findInstructionSet fs (hostname parsed) ;
          if negb (Js.truthy_opt instructionSet) then
            let* this <- m_get ;
            let* _ <- m_put (cache_set url None this) ;
            m_ret None
          else
            let dir := instructionsDir this in
            let basePath := default "" instructionSet in
            let segments := segmentsOf (pathname parsed) in
            let* rootBase <- lift (loadFile fs dir (Path.join [[basePath]; ["_base.md"]])) ;
            let instructions := push_if rootBase [] in
            let* instructions <- lift (walk fs dir segments [basePath] instructions) ;
            let* instructions <-
              (if Nat.ltb 0 (List.length segments) then
                 let lastSegment := List.last segments "" in
                 let parentPath := Path.join [[basePath]; List.removelast segments] in
                 lift (exactMatch fs dir parentPath lastSegment instructions)
               else m_ret instructions) ;
            let result := merge instructions in
            let* this <- m_get ;
            let* _ <- m_put (cache_set url result this) ;
            m_ret result
      end
  end.

End Platform.

Definition clearCache : M Resolver unit :=
  let* this <- m_get ;
  m_put {| instructionsDir := instructionsDir this;
           cache := ∅;
           configCache := None |}.

End Multi.

(** ** Executable parsers for plain inputs

    The theorems below hold for every [URL_parse] and [JSON_parse].  To
    run the resolver on a concrete store one needs parsers that compute.
    The two of this module answer on plain inputs only: an [http] or
    [https] URL in lower case with a host name, no port, no user, no
    escape and no dot segment; a JSON text whose strings have no escape
    and whose numbers are integers.  Where they answer, and where they
    refuse a string that has no scheme or a text that is not JSON at its
    first character, they agree with the platform; the concrete inputs of
    this file are of these kinds. *)

Module Lite.

Definition dquote : ascii := "034".

Definition quoted (s : string) : string :=
  String dquote (s +:+ String dquote "").

(** *** URLs *)

Definition host_char (c : ascii) : bool :=
  Js.in_range 97 122 c || Js.in_range 48 57 c || Ascii.eqb c "." || Ascii.eqb c "-".

Definition path_char (c : ascii) : bool :=
  Js.in_range 97 122 c || Js.in_range 65 90 c || Js.in_range 48 57 c
  || List.existsb (Ascii.eqb c) (list_ascii_of_string "/._~!$&'()*+,;=:@-").

Definition starts_alpha (s : string) : bool :=
  match s with
  | String c _ => Js.in_range 97 122 c
  | EmptyString => false
  end.

(** The text before the first character that satisfies [stop], and the
    text from that character on. *)
Fixpoint span_until (stop : ascii -> bool) (s : string) : string * string :=
  match s with
  | EmptyString => (EmptyString, EmptyString)
  | String c s' =>
      if stop c then (EmptyString, s)
      else let (a, b) := span_until stop s' in (String c a, b)
  end.

Fixpoint has_infix (needle s : string) : bool :=
  String.prefix needle s
  || match s with
     | EmptyString => false
     | String _ s' => has_infix needle s'
     end.

Definition after_scheme (url : string) : option string :=
  if String.prefix "https://" url then Some (Js.slice 8 url)
  else if String.prefix "http://" url then Some (Js.slice 7 url)
  else None.

Definition plain_host (host : string) : bool :=
  negb (String.eqb host "")
  && Js.all_chars host_char host
  && starts_alpha (List.last (Js.split "." host) "")
  && negb (has_infix "xn--" host).

Definition plain_path (p : string) : bool :=
  Js.all_chars path_char p
  && List.forallb (fun seg => negb (String.eqb seg "." || String.eqb seg ".."))
       (Js.split "/" p).

Definition URL_parse (url : string) : option URL :=
  match after_scheme url with
  | None => None
  | Some rest =>
      let (host, tail) :=
        span_until (fun c => Ascii.eqb c "/" || Ascii.eqb c "?" || Ascii.eqb c "#") rest in
      let (p, _) := span_until (fun c => Ascii.eqb c "?" || Ascii.eqb c "#") tail in
      if plain_host host && plain_path p
      then Some {| hostname := host;
                   pathname := if String.eqb p "" then "/" else p |}
      else None
  end.

(** *** JSON *)

Definition json_space (c : ascii) : bool :=
  Ascii.eqb c " " || Ascii.eqb c "009" || Ascii.eqb c "010" || Ascii.eqb c "013".

Fixpoint skip_ws (cs : list ascii) : list ascii :=
  match cs with
  | c :: cs' => if json_space c then skip_ws cs' else cs
  | [] => []
  end.

(** The characters of a string up to its closing quote; no escape, no
    control character. *)
Fixpoint string_body (cs : list ascii) : option (string * list ascii) :=
  match cs with
  | [] => None
  | c :: cs' =>
      if Ascii.eqb c dquote then Some (EmptyString, cs')
      else if Ascii.eqb c "\" || Nat.ltb (nat_of_ascii c) 32 then None
      else match string_body cs' with
           | Some (s, rest) => Some (String c s, rest)
           | None => None
           end
  end.

Fixpoint digits (cs : list ascii) : list ascii * list ascii :=
  match cs with
  | c :: cs' =>
      if Js.cls_digit c then let (d, rest) := digits cs' in (c :: d, rest)
      else ([], cs)
  | [] => ([], [])
  end.

(** An integer literal: an optional sign, then [0] or a digit other than
    [0] followed by digits; a fraction or an exponent is refused. *)
Definition integer (cs : list ascii) : option (json * list ascii) :=
  let (sign, body) :=
    match cs with
    | c :: cs' => if Ascii.eqb c "-" then ("-", cs') else ("", cs)
    | [] => ("", cs)
    end in
  let (d, rest) := digits body in
  let followed :=
    match rest with
    | c :: _ => Ascii.eqb c "." || Ascii.eqb c "e" || Ascii.eqb c "E"
    | [] => false
    end in
  match d with
  | [] => None
  | c :: d' =>
      if followed then None
      else if Ascii.eqb c "0" then
        match d' with
        | [] => Some (JNum true (sign +:+ "0"), rest)
        | _ => None
        end
      else Some (JNum false (sign +:+ string_of_list_ascii d), rest)
  end.

Definition keyword (w : string) (v : json) (cs : list ascii)
  : option (json * list ascii) :=
  let n := String.length w in
  if String.eqb (string_of_list_ascii (List.firstn n cs)) w
  then Some (v, List.skipn n cs)
  else None.

(** [value] reads one value; [items] what follows the opening bracket of
    an array and a first value, [members] what follows the opening brace
    of an object.  Every call on a deeper level has consumed a
    character, so fuel of twice the length of the text suffices. *)
Fixpoint value (fuel : nat) (cs : list ascii) : option (json * list ascii) :=
  match fuel with
  | O => None
  | S fuel' =>
      match cs with
      | [] => None
      | c :: cs' =>
          if Ascii.eqb c "{" then
            match skip_ws cs' with
            | c1 :: cs1 =>
                if Ascii.eqb c1 "}" then Some (JObj [], cs1)
                else match members fuel' (c1 :: cs1) with
                     | Some (ms, rest) => Some (JObj ms, rest)
                     | None => None
                     end
            | [] => None
            end
          else if Ascii.eqb c "[" then
            match skip_ws cs' with
            | c1 :: cs1 =>
                if Ascii.eqb c1 "]" then Some (JArr [], cs1)
                else match items fuel' (c1 :: cs1) with
                     | Some (vs, rest) => Some (JArr vs, rest)
                     | None => None
                     end
            | [] => None
            end
          else if Ascii.eqb c dquote then
            match string_body cs' with
            | Some (s, rest) => Some (JStr s, rest)
            | None => None
            end
          else if Ascii.eqb c "t" then keyword "true" (JBool true) cs
          else if Ascii.eqb c "f" then keyword "false" (JBool false) cs
          else if Ascii.eqb c "n" then keyword "null" JNull cs
          else integer cs
      end
  end
with items (fuel : nat) (cs : list ascii) : option (list json * list ascii) :=
  match fuel with
  | O => None
  | S fuel' =>
      match value fuel' cs with
      | Some (v, rest) =>
          match skip_ws rest with
          | c :: rest' =>
              if Ascii.eqb c "]" then Some ([v], rest')
              else if Ascii.eqb c "," then
                match items fuel' (skip_ws rest') with
                | Some (vs, rest'') => Some (v :: vs, rest'')
                | None => None
                end
              else None
          | [] => None
          end
      | None => None
      end
  end
with members (fuel : nat) (cs : list ascii)
  : option (list (string * json) * list ascii) :=
  match fuel with
  | O => None
  | S fuel' =>
      match cs with
      | c :: cs' =>
          if Ascii.eqb c dquote then
            match string_body cs' with
            | Some (k, rest) =>
                match skip_ws rest with
                | c1 :: rest1 =>
                    if Ascii.eqb c1 ":" then
                      match value fuel' (skip_ws rest1) with
                      | Some (v, rest2) =>
                          match skip_ws rest2 with
                          | c2 :: rest3 =>
                              if Ascii.eqb c2 "}" then Some ([(k, v)], rest3)
                              else if Ascii.eqb c2 "," then
                                match members fuel' (skip_ws rest3) with
                                | Some (ms, rest4) => Some ((k, v) :: ms, rest4)
                                | None => None
                                end
                              else None
                          | [] => None
                          end
                      | None => None
                      end
                    else None
                | [] => None
                end
            | None => None
            end
          else None
      | [] => None
      end
  end.

Definition JSON_parse (text : string) : option json :=
  let cs := skip_ws (list_ascii_of_string text) in
  match value (2 * List.length cs + 2) cs with
  | Some (v, rest) =>
      match skip_ws rest with
      | [] => Some v
      | _ => None
      end
  | None => None
  end.

End Lite.


(** ** The prompt envelope

    [formatForPrompt] is the same text in both classes. *)

Definition blankLine : string := String "010" (String "010" "").

Definition formatForPrompt (instructions currentUrl : string) : string :=
  "## Page Context" +:+ blankLine
  +:+ "**Current URL**: " +:+ currentUrl +:+ blankLine
  +:+ instructions +:+ blankLine
  +:+ "---" +:+ blankLine
  +:+ "## Task".

(** ** The browser utilities *)

Module BrowserUtils.

(** [`${v}`] for a value that may be [undefined]. *)
Definition interpolate (v : option string) : string := default "undefined" v.

(** [v || ''] for a value that may be [undefined]. *)
Definition orEmpty (v : option string) : string :=
  if Js.truthy_opt v then default "" v else "".

(** The replacement text of [str.replace(pattern, template)] for a
    pattern with no capture group: [$$] is a dollar, [$&] the match,
    [$`] what is before the match and [$'] what is after it; any other
    dollar stands for itself. *)
Fixpoint substitution (matched before after template : string) : string :=
  match template with
  | EmptyString => EmptyString
  | String c t =>
      if Ascii.eqb c "$" then
        match t with
        | EmptyString => String c EmptyString
        | String d t' =>
            if Ascii.eqb d "$" then String "$" (substitution matched before after t')
            else if Ascii.eqb d "&" then matched +:+ substitution matched before after t'
            else if Ascii.eqb d "`" then before +:+ substitution matched before after t'
            else if Ascii.eqb d "'" then after +:+ substitution matched before after t'
            else String c (substitution matched before after t)
        end
      else String c (substitution matched before after t)
  end.

(** [str.replace(/^~/, template)] *)
Definition replaceLeadingTilde (str template : string) : string :=
  match str with
  | String c rest =>
      if Ascii.eqb c "~" then substitution "~" "" rest template +:+ rest else str
  | EmptyString => str
  end.

(** [str.lastIndexOf(c)]: [None] for -1. *)
Fixpoint lastIndexOf (c : ascii) (str : string) : option nat :=
  match str with
  | EmptyString => None
  | String a rest =>
      match lastIndexOf c rest with
      | Some i => Some (S i)
      | None => if Ascii.eqb a c then Some 0 else None
      end
  end.

Record ProfilePath : Type := { userDataDir : string; profileDirectory : string }.

Record ProfileConfig : Type := {
  configUserDataDir : string;
  configProfileDirectory : option string;
  isCustomProfile : bool
}.

(** What [prepareChromeProfile] prints, and what it does to the file
    system. *)
Inductive message : Type :=
| CustomProfileNotFound (fullPath : string)
| CopyingProfile (profileName : string)
| ProfileCopied
| CreatingFreshProfile
| UsingExistingProfile.

Inductive effect : Type :=
| ConsoleLog (m : message)
| MkdirSync (p : string)
| CpSync (source destination : string).

Section Platform.

(** [os.platform()] and [process.env]. *)
Variable platform : string.
Variable env : string -> option string.

(** The candidate paths that [findLocalChrome] collects. *)
Definition chromePaths : list string :=
  if String.eqb platform "darwin" then
    ["/Applications/Google Chrome.app/Contents/MacOS/Google Chrome";
     "/Applications/Chromium.app/Contents/MacOS/Chromium";
     interpolate (env "HOME")
       +:+ "/Applications/Google Chrome.app/Contents/MacOS/Google Chrome";
     interpolate (env "HOME") +:+ "/Applications/Chromium.app/Contents/MacOS/Chromium"]
  else if String.eqb platform "win32" then
    ["C:\Program Files\Google\Chrome\Application\chrome.exe";
     "C:\Program Files (x86)\Google\Chrome\Application\chrome.exe";
     interpolate (env "LOCALAPPDATA") +:+ "\Google\Chrome\Application\chrome.exe";
     interpolate (env "PROGRAMFILES") +:+ "\Google\Chrome\Application\chrome.exe";
     interpolate (env "PROGRAMFILES(X86)") +:+ "\Google\Chrome\Application\chrome.exe";
     "C:\Program Files\Chromium\Application\chrome.exe";
     "C:\Program Files (x86)\Chromium\Application\chrome.exe"]
  else
    ["/usr/bin/google-chrome";
     "/usr/bin/google-chrome-stable";
     "/usr/bin/chromium";
     "/usr/bin/chromium-browser";
     "/snap/bin/chromium";
     "/usr/local/bin/google-chrome";
     "/usr/local/bin/chromium";
     "/opt/google/chrome/chrome";
     "/opt/google/chrome/google-chrome"].

Definition getChromeUserDataDir : string :=
  if String.eqb platform "darwin" then
    interpolate (env "HOME") +:+ "/Library/Application Support/Google/Chrome"
  else if String.eqb platform "win32" then
    interpolate (env "LOCALAPPDATA") +:+ "\Google\Chrome\User Data"
  else interpolate (env "HOME") +:+ "/.config/google-chrome".

(** [profilePath.replace(/^~/, process.env.HOME || '')] *)
Definition expandHome (profilePath : string) : string :=
  replaceLeadingTilde profilePath (orEmpty (env "HOME")).

Definition parseProfilePath (profilePath : string) : option ProfilePath :=
  let expanded := expandHome profilePath in
  match lastIndexOf "/" expanded with
  | None => None
  | Some lastSlash =>
      let userDataDir := substring 0 lastSlash expanded in
      let profileDirectory := Js.slice (lastSlash + 1) expanded in
      if negb (Js.truthy profileDirectory) || negb (Js.truthy userDataDir) then None
      else Some {| userDataDir := userDataDir; profileDirectory := profileDirectory |}
  end.

(** The file system, as far as these functions use it: a state [F] that
    [existsSync] reads and that [mkdirSync] and [cpSync] (both with
    [recursive: true]) change or fail to change; and [path.join]. *)
Variable F : Type.
Variable existsSync : F -> string -> bool.
Variable mkdirSync : F -> string -> outcome F.
Variable cpSync : F -> string -> string -> outcome F.
Variable join : list string -> string.

(** The loop of [findLocalChrome]. *)
Fixpoint firstExisting (fs : F) (paths : list string) : option string :=
  match paths with
  | [] => None
  | p :: others =>
      if Js.truthy p && existsSync fs p then Some p else firstExisting fs others
  end.

Definition findLocalChrome (fs : F) : option string :=
  firstExisting fs chromePaths.

(** A step of [prepareChromeProfile]: its outcome, the file system after
    it and what it did. *)
Definition Step (A : Type) : Type := F -> outcome A * F * list effect.

Definition step_ret {A : Type} (a : A) : Step A := fun fs => (Returned a, fs, []).

Definition step_bind {A B : Type} (m : Step A) (f : A -> Step B) : Step B :=
  fun fs =>
    match m fs with
    | (Returned a, fs1, l1) =>
        match f a fs1 with
        | (o, fs2, l2) => (o, fs2, l1 ++ l2)
        end
    | (Thrown e, fs1, l1) => (Thrown e, fs1, l1)
    end.

Notation "'step' x <- m ; f" := (step_bind m (fun x => f))
  (at level 10, x name, m at level 100, f at level 200).

Definition consoleLog (m : message) : Step unit :=
  fun fs => (Returned tt, fs, [ConsoleLog m]).

Definition exists_ (p : string) : Step bool :=
  fun fs => (Returned (existsSync fs p), fs, []).

Definition mkdir (p : string) : Step unit :=
  fun fs =>
    match mkdirSync fs p with
    | Returned fs' => (Returned tt, fs', [MkdirSync p])
    | Thrown e => (Thrown e, fs, [MkdirSync p])
    end.

Definition cp (source destination : string) : Step unit :=
  fun fs =>
    match cpSync fs source destination with
    | Returned fs' => (Returned tt, fs', [CpSync source destination])
    | Thrown e => (Thrown e, fs, [CpSync source destination])
    end.

(** The first part of [prepareChromeProfile]: the profile to copy, if
    any, and its name. *)
Definition sourceProfileOf (customProfilePath : option string)
  : Step (option string * string) :=
  if Js.truthy_opt customProfilePath then
    let custom := default "" customProfilePath in
    match parseProfilePath custom with
    | Some parsed =>
        let fullPath := expandHome custom in
        step found <- exists_ fullPath ;
        if found then step_ret (Some fullPath, profileDirectory parsed)
        else
          step _ <- consoleLog (CustomProfileNotFound fullPath) ;
          step_ret (None, "Default")
    | None => step_ret (None, "Default")
    end
  else
    let sourceUserDataDir := getChromeUserDataDir in
    let defaultProfile := join [sourceUserDataDir; "Default"] in
    step found <- exists_ defaultProfile ;
    if found then step_ret (Some defaultProfile, "Default")
    else step_ret (None, "Default").

Definition prepareChromeProfile (projectDir : string)
  (customProfilePath : option string) : Step ProfileConfig :=
  step source <- sourceProfileOf customProfilePath ;
  let sourceProfile := fst source in
  let profileName := snd source in
  let tempUserDataDir := join [projectDir; ".chrome-profile"] in
  let destProfile := join [tempUserDataDir; "Default"] in
  step found <- exists_ destProfile ;
  step _ <-
    (if negb found then
       step _ <- mkdir tempUserDataDir ;
       if Js.truthy_opt sourceProfile then
         step _ <- consoleLog (CopyingProfile profileName) ;
         step _ <- cp (default "" sourceProfile) destProfile ;
         consoleLog ProfileCopied
       else
         step _ <- consoleLog CreatingFreshProfile ;
         mkdir destProfile
     else consoleLog UsingExistingProfile) ;
  step_ret {| configUserDataDir := tempUserDataDir;
              configProfileDirectory := None;
              isCustomProfile := Js.truthy_opt customProfilePath |}.

End Platform.

End BrowserUtils.

(** ** The command line: navigation with context injection *)

Module Cli.

(** [process.env.BROWSER_CONTEXT_INJECTION !== 'false'] *)
Definition contextInjectionEnabled (setting : option string) : bool :=
  match setting with
  | Some value => negb (String.eqb value "false")
  | None => true
  end.

(** The message of a successful navigation. *)
Inductive notice : Type :=
| NavigatedTo (url : string)
| RedirectedTo (url finalUrl : string).

(** The object that a command returns: on success its message, the path
    of the screenshot and, when there is one, the page context; on
    failure the error that was caught. *)
Inductive commandResult : Type :=
| Success (message : notice) (screenshot : string) (pageContext : option string)
| Failure (error : exn).

Section Navigate.

(** The resolver behind [IContextResolver], with its state. *)
Variable S : Type.
Variable resolve : string -> M S (option string).

(** The browser: [initBrowser], [page.goto(url)], [page.url()] and
    [takeScreenshot], in this order; it gives the final URL and the path
    of the screenshot, or throws. *)
Variable visit : string -> outcome (string * string).

Definition navigate (enabled : bool) (url : string)
  : S -> commandResult * S * list fs_op :=
  fun st =>
    match visit url with
    | Thrown e => (Failure e, st, [])
    | Returned (finalUrl, screenshotPath) =>
        let wasRedirected := negb (String.eqb finalUrl url) in
        let message :=
          if wasRedirected then RedirectedTo url finalUrl else NavigatedTo url in
        if enabled then
          match resolve finalUrl st with
          | (Returned context, st', l) =>
              (Success message screenshotPath
                 (if Js.truthy_opt context then context else None), st', l)
          | (Thrown e, st', l) => (Failure e, st', l)
          end
        else (Success message screenshotPath None, st, [])
    end.

End Navigate.

End Cli.


(** * The vocabulary of the properties

    The notions in which the properties below are stated: the shapes of
    the specification, the pure readings of the effectful operations, and
    the states a resolver goes through. *)

(** ** Segment shapes, as the specification words them *)

Module Classifier.

Definition decimal_digit (c : ascii) : Prop :=
  In c (list_ascii_of_string "0123456789").

Definition hex_digit (c : ascii) : Prop :=
  In c (list_ascii_of_string "0123456789abcdefABCDEF").

Definition hex_digit_or_hyphen (c : ascii) : Prop :=
  hex_digit c \/ c = "-"%char.

Definition made_of (P : ascii -> Prop) (s : string) : Prop :=
  Forall P (list_ascii_of_string s).

Definition all_digits (s : string) : Prop :=
  1 <= String.length s /\ made_of decimal_digit s.

Definition uuid_shaped (s : string) : Prop :=
  String.length s = 36 /\ made_of hex_digit_or_hyphen s.

Definition hex_run (s : string) : Prop :=
  8 <= String.length s /\ made_of hex_digit s.

Definition object_id_shaped (s : string) : Prop :=
  String.length s = 24 /\ made_of hex_digit s.

Definition dynamic (s : string) : Prop :=
  all_digits s \/ uuid_shaped s \/ hex_run s.

Definition member_of (set : string) (c : ascii) : bool :=
  List.existsb (Ascii.eqb c) (list_ascii_of_string set).

End Classifier.

(** ** The matching rule, as the specification words it *)

Module DomainMatcher.

Definition ends_with (h suffix : string) : Prop :=
  exists front, h = front +:+ suffix.

Definition matches (h p : string) : Prop :=
  h = p
  \/ exists s, p = "*." +:+ s /\ (ends_with h ("." +:+ s) \/ h = s).

(** On a string pattern [matchDomain] returns, and what it returns is
    decided by this boolean. *)
Definition decide_match (h p : string) : bool :=
  String.eqb h p
  || (Js.startsWith p "*."
      && (Js.endsWith h (Js.slice 1 p) || String.eqb h (Js.slice 2 p))).

End DomainMatcher.

(** ** Documents

    What [loadFile] hands to the walker: a text that is not empty and has
    no white space at either end. *)

Module Document.

Definition no_leading_space (t : string) : Prop :=
  forall c rest, t = String c rest -> Js.is_space c = false.

Definition no_trailing_space (t : string) : Prop :=
  forall front c, t = front +:+ String c "" -> Js.is_space c = false.

Definition document (t : string) : Prop :=
  t <> "" /\ no_leading_space t /\ no_trailing_space t.

(** [text.split(sep)] for a separator that is not empty: the pieces of
    the text between the occurrences of the separator, found from the
    left.  [skip] counts the characters of an occurrence still to pass. *)
Fixpoint split_from (sep : string) (skip : nat) (text : string) : list string :=
  match text with
  | EmptyString => [EmptyString]
  | String c rest =>
      match skip with
      | S k => split_from sep k rest
      | O =>
          if String.prefix sep text
          then EmptyString :: split_from sep (String.length sep - 1) rest
          else match split_from sep 0 rest with
               | piece :: pieces => String c piece :: pieces
               | [] => [String c EmptyString]
               end
      end
  end.

(** The blocks that the separator delimits in an output. *)
Definition blocks (output : string) : list string :=
  split_from separator 0 output.

End Document.

(** ** Pure readings of the walker *)

Module Walker.

(** A component that [path.join] leaves as it is. *)
Definition plain (c : string) : Prop :=
  c <> "" /\ c <> "." /\ c <> "..".

(** What [loadFile] returns and which accesses it makes. *)
Definition docAt (fs : node) (dir relativePath : path) : option string :=
  match Fs.lookup fs (Path.join_abs dir [relativePath]) with
  | Some (File (Some text)) => Some (Js.trim text)
  | _ => None
  end.

Definition probes (fs : node) (dir relativePath : path) : list fs_op :=
  let fullPath := Path.join_abs dir [relativePath] in
  if bool_decide (is_Some (Fs.lookup fs fullPath))
  then [ExistsSync fullPath; ReadFileSync fullPath]
  else [ExistsSync fullPath].

(** The candidate folders of a segment, and the one that the loop over
    them matches under [currentPath], if any. *)
Definition foldersToTry (segment : string) : list string :=
  if isDynamicSegment segment then ["_dynamic"; "*"] else [segment].

Definition matchedFolder (fs : node) (dir currentPath : path) (segment : string)
  : option string :=
  match io_value (tryFolders fs dir currentPath (foldersToTry segment)) with
  | Returned (Some folder) => if Js.truthy folder then Some folder else None
  | _ => None
  end.

(** The accesses of the loop over the candidate folders of a segment. *)
Definition tryLog (fs : node) (dir currentPath : path) (segment : string)
  : list fs_op :=
  io_log (tryFolders fs dir currentPath (foldersToTry segment)).

(** The loop over the candidate folders under a plain current path, read
    in the instructions directory [store] itself: what it finds and
    which accesses it makes. *)
Fixpoint firstFolder (store : node) (currentPath : path) (folders : list string)
  : option string :=
  match folders with
  | [] => None
  | folder :: others =>
      if bool_decide (is_Some (Fs.lookup store (currentPath ++ [folder])))
      then Some folder
      else firstFolder store currentPath others
  end.

Fixpoint foldersLog (store : node) (dir currentPath : path) (folders : list string)
  : list fs_op :=
  match folders with
  | [] => []
  | folder :: others =>
      ExistsSync (dir ++ currentPath ++ [folder])
      :: (if bool_decide (is_Some (Fs.lookup store (currentPath ++ [folder])))
          then []
          else foldersLog store dir currentPath others)
  end.

(** The directory the walk is in after every one of the segments has
    matched a folder. *)
Fixpoint descend (fs : node) (dir currentPath : path) (segments : list string)
  : option path :=
  match segments with
  | [] => Some currentPath
  | segment :: rest =>
      match matchedFolder fs dir currentPath segment with
      | Some folder => descend fs dir (Path.join [currentPath; [folder]]) rest
      | None => None
      end
  end.

(** The base documents of the folders that the walk moves into, in the
    order of the descent. *)
Fixpoint descentBases (fs : node) (dir currentPath : path) (segments : list string)
  : list string :=
  match segments with
  | [] => []
  | segment :: rest =>
      match matchedFolder fs dir currentPath segment with
      | Some folder =>
          let inside := Path.join [currentPath; [folder]] in
          push_if (docAt fs dir (Path.join [inside; ["_base.md"]])) []
            ++ descentBases fs dir inside rest
      | None => []
      end
  end.

(** What the exact sibling file adds to the documents gathered before
    it: its text, when there is one that is not blank and is none of
    those documents. *)
Definition siblingDocs (sibling : option string) (before : list string) : list string :=
  match sibling with
  | Some d => if Js.truthy d && negb (Js.includes before d) then [d] else []
  | None => []
  end.

(** The trimmed text of the file that an access reads, and the texts
    that the accesses of a call read, in the order of the accesses. *)
Definition textRead (fs : node) (op : fs_op) : option string :=
  match op with
  | ReadFileSync p =>
      match Fs.lookup fs p with
      | Some (File (Some text)) => Some (Js.trim text)
      | _ => None
      end
  | _ => None
  end.

Definition textsRead (fs : node) (log : list fs_op) : list string :=
  omap (textRead fs) log.

End Walker.

(** ** Calls *)

Module Run.

(** The call [r], after the accesses [l]. *)
Definition after {S B : Type} (l : list fs_op) (r : outcome B * S * list fs_op)
  : outcome B * S * list fs_op :=
  (result_of r, state_of r, l ++ log_of r).

End Run.

(** ** What one resolution gathers

    After the cache and the URL are dealt with, both classes run the same
    three steps; they differ in where the root base document is, where the
    walk starts and where the parent of the last segment is. *)

Module Gather.

Definition gather (fs : node) (dir : path) (rootBase start parent : path)
  (segments : list string) : IO (list string) :=
  io rootBase <- loadFile fs dir rootBase ;
  io instructions <- walk fs dir segments start (push_if rootBase []) ;
  if Nat.ltb 0 (List.length segments)
  then exactMatch fs dir parent (List.last segments "") instructions
  else io_ret instructions.

(** A result that [merge] made of documents. *)
Definition well_merged (res : option string) : Prop :=
  res = None
  \/ exists docs, docs <> [] /\ Forall Document.document docs
                  /\ res = Some (Js.join separator docs).

End Gather.

Module SingleSpec.

(** What a call that misses the cache gathers. *)
Definition gathered (URL_parse : string -> option URL) (fs : node) (dir : path)
  (url : string) : IO (list string) :=
  let segments := segmentsOf (Single.pathnameOf URL_parse url) in
  Gather.gather fs dir ["_base.md"] [] (List.removelast segments) segments.

(** The literal path that stands for a string that is no URL. *)
Definition literalPath (url : string) : string :=
  if Js.startsWith url "/" then url else "/" +:+ url.

End SingleSpec.

Module MultiSpec.

(** Two states of a resolver that differ in the config cache at most. *)
Definition same_cache (s s' : Multi.Resolver) : Prop :=
  Multi.instructionsDir s' = Multi.instructionsDir s
  /\ Multi.cache s' = Multi.cache s.

(** A resolver on which nothing was called yet. *)
Definition fresh (dir : path) : Multi.Resolver :=
  {| Multi.instructionsDir := dir; Multi.cache := ∅; Multi.configCache := None |}.

(** What a call gathers once the instruction set [basePath] is chosen. *)
Definition gathered (fs : node) (dir : path) (basePath pathname : string)
  : IO (list string) :=
  let segments := segmentsOf pathname in
  Gather.gather fs dir (Path.join [[basePath]; ["_base.md"]]) [basePath]
    (Path.join [[basePath]; List.removelast segments]) segments.

Definition registered (name : string) (declared : option (list json))
  (s : Multi.Resolver) : Multi.Resolver :=
  match declared with
  | Some ds => Multi.configCache_set name {| Multi.domains := ds |} s
  | None => s
  end.

Definition configPathOf (dir : path) (entry : Fs.Dirent) : path :=
  Path.join_abs dir [[Fs.name entry]; ["_config.json"]].

Definition hasConfig (fs : node) (dir : path) (entry : Fs.Dirent) : bool :=
  bool_decide (is_Some (Fs.lookup fs (configPathOf dir entry))).

Definition scanLog (fs : node) (dir : path) (entry : Fs.Dirent) : list fs_op :=
  if negb (Fs.isDirectory entry) then []
  else if hasConfig fs dir entry
       then [ExistsSync (configPathOf dir entry); ReadFileSync (configPathOf dir entry)]
       else [ExistsSync (configPathOf dir entry)].

Section Platform.

Variable URL_parse : string -> option URL.
Variable JSON_parse : string -> option json.

(** The pattern list that the configuration file at [configPath]
    declares, when it declares one: the file can be read, its text
    parses, and the member [domains] of the value is an array. *)
Definition declaredAt (fs : node) (configPath : path) : option (list json) :=
  match Fs.lookup fs configPath with
  | Some (File (Some text)) =>
      match JSON_parse text with
      | Some config =>
          match Json.member "domains" config with
          | Returned d =>
              if Json.truthy d && Json.isArray d then Some (Json.items d) else None
          | Thrown _ => None
          end
      | None => None
      end
  | _ => None
  end.

(** One turn of the loop of [loadConfigs]. *)
Definition scanState (fs : node) (dir : path) (entry : Fs.Dirent)
  (s : Multi.Resolver) : Multi.Resolver :=
  if negb (Fs.isDirectory entry) then s
  else if hasConfig fs dir entry
       then registered (Fs.name entry) (declaredAt fs (configPathOf dir entry)) s
       else s.

(** The pattern list that a top-level entry of the store declares: the
    entry is a directory, in it is a file [_config.json] that can be read,
    its text parses to an object, and the member [domains] of the object
    is a list. *)
Definition declares (entry : string * node) : option (list json) :=
  match snd entry with
  | Dir es | Locked es =>
      match Fs.assoc "_config.json" es with
      | Some (File (Some text)) =>
          match JSON_parse text with
          | Some (JObj members) =>
              match Json.assoc_last "domains" members with
              | Some (JArr patterns) => Some patterns
              | _ => None
              end
          | _ => None
          end
      | _ => None
      end
  | File _ => None
  end.

(** The instruction sets of a store, in the order of its entries. *)
Definition instructionSets (entries : list (string * node)) : Multi.ConfigMap :=
  omap (fun entry =>
          match declares entry with
          | Some patterns => Some (fst entry, {| Multi.domains := patterns |})
          | None => None
          end) entries.

(** The states a resolver goes through: it is created, and then
    [resolve] and [clearCache] are called on it, while the store may
    change between the calls. *)
Inductive reachable : Multi.Resolver -> Prop :=
| reach_create (pluginRoot : path) : reachable (Multi.create pluginRoot)
| reach_resolve (fs : node) (url : string) (st : Multi.Resolver) :
    reachable st ->
    reachable (state_of (Multi.resolve URL_parse JSON_parse fs url st))
| reach_clear (st : Multi.Resolver) :
    reachable st -> reachable (state_of (Multi.clearCache st)).

Definition cache_ok (st : Multi.Resolver) : Prop :=
  forall u res,
    Multi.cache st !! u = Some res ->
    Gather.well_merged res /\ (URL_parse u = None -> res = None).

End Platform.

End MultiSpec.

(** ** Concrete stores *)

Module Examples.

(** A file system in which [instructions] is the instructions directory
    of the plugin root [/plugin]. *)
Definition pluginRoot : path := ["plugin"].

Definition mount (instructions : node) : node :=
  Dir [("plugin", Dir [("instructions", instructions)])].

(** The text of a configuration file that lists the given patterns. *)
Definition config (patterns : string) : string :=
  "{" +:+ Lite.quoted "domains" +:+ ": [" +:+ patterns +:+ "]}".

(** Scenario A: a root base document and the base document of [seo], and
    nothing else. *)
Definition scenarioA (rootBase seoBase : string) : node :=
  Dir [("_base.md", File (Some rootBase));
       ("seo", Dir [("_base.md", File (Some seoBase))])].

(** An instruction set for [semrush.com] and its subdomains, with a base
    document, and a folder [seo] with a base document and an [index.md]. *)
Definition semrush (base : string) : node :=
  Dir [("_config.json",
        File (Some (config (Lite.quoted "semrush.com" +:+ ", "
                            +:+ Lite.quoted "*.semrush.com"))));
       ("_base.md", File (Some base));
       ("seo", Dir [("_base.md", File (Some "SEO"));
                    ("index.md", File (Some "INDEX"))])].

Definition tenants (base : string) : node :=
  mount (Dir [("semrush", semrush base)]).

(** A store with a set that lists no pattern, a set whose configuration
    is not JSON, a directory with no configuration, and a plain file. *)
Definition oddConfigs : node :=
  mount (Dir [("empty", Dir [("_config.json", File (Some (config "")))]);
              ("broken", Dir [("_config.json", File (Some "{oops"))]);
              ("bare", Dir [("_base.md", File (Some "BARE"))]);
              ("README.md", File (Some "read me"))]).

(** A store with a set whose pattern list holds a number. *)
Definition numberPattern : node :=
  mount (Dir [("acme", Dir [("_config.json", File (Some (config "42")));
                            ("_base.md", File (Some "ACME"))])]).

(** A plugin root in which [instructions] is a file. *)
Definition instructionsIsFile : node :=
  Dir [("plugin", Dir [("instructions", File (Some "not a directory"))])].

(** A single-tenant store with a root base document only. *)
Definition rootOnly (base : string) : node :=
  mount (Dir [("_base.md", File (Some base))]).

(** A document with a horizontal rule followed by a blank line: at the
    rule it reads like the separator. *)
Definition ruled : string :=
  "A" +:+ separator +:+ String "010" "B".

(** Scenario B: a folder for dynamic segments below [seo]. *)
Definition scenarioB : node :=
  mount (Dir [("seo", Dir [("_dynamic", Dir [("_base.md", File (Some "DYNAMIC"))]);
                           ("123", Dir [("_base.md", File (Some "LITERAL"))])])]).

(** Scenario D: a URL, and the resolver after the URL was resolved
    against a store whose base document reads [OLD]. *)
Definition scenarioD_page : string := "https://semrush.com/".

Definition scenarioD_cached : Multi.Resolver :=
  state_of (Multi.resolve Lite.URL_parse Lite.JSON_parse (tenants "OLD")
              scenarioD_page (Multi.create pluginRoot)).

End Examples.


(** ** More vocabulary: segments, confinement, well-typed configurations *)

Module Segments.

Definition slash_free (s : string) : Prop :=
  ~ In "/"%char (list_ascii_of_string s).

Definition line_free (s : string) : Prop :=
  ~ In "010"%char (list_ascii_of_string s).

End Segments.

Module Confinement.

Definition path_of (op : fs_op) : path :=
  match op with
  | ExistsSync p => p
  | ReadFileSync p => p
  | ReaddirSync p => p
  end.

(** The access is at or below the directory. *)
Definition under (dir : path) (op : fs_op) : Prop :=
  exists rel, path_of op = dir ++ rel.

End Confinement.

Module SingleSpec2.

(** The states a single-tenant resolver goes through. *)
Inductive reachable (URL_parse : string -> option URL) : Single.Resolver -> Prop :=
| reach_create (pluginRoot : path) : reachable URL_parse (Single.create pluginRoot)
| reach_resolve (fs : node) (url : string) (st : Single.Resolver) :
    reachable URL_parse st ->
    reachable URL_parse (state_of (Single.resolve URL_parse fs url st))
| reach_clear (st : Single.Resolver) :
    reachable URL_parse st -> reachable URL_parse (state_of (Single.clearCache st)).

(** The text of the document at a relative path, when there is one that
    is not blank. *)
Definition documentAt (fs : node) (dir rel : path) : option string :=
  match Walker.docAt fs dir rel with
  | Some d => if Js.truthy d then Some d else None
  | None => None
  end.

Definition single_cache_ok (st : Single.Resolver) : Prop :=
  forall u res, Single.cache st !! u = Some res -> Gather.well_merged res.

End SingleSpec2.

Module Configs.

Definition is_string (j : json) : Prop :=
  exists s, j = JStr s.

(** Every pattern of every set is a string. *)
Definition well_typed (configs : Multi.ConfigMap) : Prop :=
  Forall (fun set => Forall is_string (Multi.domains (snd set))) configs.

(** Some pattern of the set matches the hostname, by the rule of the
    specification. *)
Definition set_matches (hostname : string) (set : string * Multi.InstructionSetConfig)
  : Prop :=
  exists p, In (JStr p) (Multi.domains (snd set)) /\ DomainMatcher.matches hostname p.

(** Whatever pattern list the entry declares holds strings only. *)
Definition declares_strings (JSON_parse : string -> option json)
  (entry : string * node) : Prop :=
  forall patterns,
    MultiSpec.declares JSON_parse entry = Some patterns -> Forall is_string patterns.

(** What [readdirSync] cannot list: a file, or a directory that cannot
    be read. *)
Definition unlistable (n : node) : Prop :=
  match n with
  | Dir _ => False
  | File _ | Locked _ => True
  end.

(** The configurations cached in a resolver, if any, are well typed. *)
Definition cached_well_typed (st : Multi.Resolver) : Prop :=
  match Multi.configCache st with
  | Some configs => well_typed configs
  | None => True
  end.

End Configs.

Module BrowserSpec.

Definition dollar_free (s : string) : Prop :=
  ~ In "$"%char (list_ascii_of_string s).

(** The candidate is skipped by the loop of [findLocalChrome]. *)
Definition skipped {F : Type} (existsSync : F -> string -> bool) (fs : F)
  (candidate : string) : Prop :=
  candidate = "" \/ existsSync fs candidate = false.

(** An effect that leaves the file system alone. *)
Definition is_log (e : BrowserUtils.effect) : Prop :=
  match e with
  | BrowserUtils.ConsoleLog _ => True
  | _ => False
  end.

Definition is_copy (e : BrowserUtils.effect) : Prop :=
  match e with
  | BrowserUtils.CpSync _ _ => True
  | _ => False
  end.

End BrowserSpec.

(** A platform to run the browser utilities on: the file system is the
    list of the paths that exist, [HOME] is [/Users/x], and the browser
    stays on the page it is sent to. *)
Module BrowserExamples.

Definition files : Type := list string.

Definition existsSync (fs : files) (p : string) : bool := existsb (String.eqb p) fs.

Definition mkdirSync (fs : files) (p : string) : outcome files := Returned (p :: fs).

Definition cpSync (fs : files) (source destination : string) : outcome files :=
  if existsSync fs source then Returned (destination :: fs) else Thrown FsError.

Definition join (parts : list string) : string := Js.join "/" parts.

Definition env (name : string) : option string :=
  if String.eqb name "HOME" then Some "/Users/x" else None.

Definition visit (url : string) : outcome (string * string) :=
  Returned (url, "screenshot.png").

End BrowserExamples.


(** * Properties *)

(** ** The operations on concrete inputs *)

Module Runs.

Import Examples.

Example trim_both_ends :
  Js.trim (String "009" " a b " +:+ String "010" (String "160" "")) = "a b".
Proof. reflexivity. Qed.

Example trim_blank : Js.trim (String "010" "  ") = "".
Proof. reflexivity. Qed.

Example segments_of_paths :
  segmentsOf "/seo/dashboard/123" = ["seo"; "dashboard"; "123"]
  /\ segmentsOf "/seo//dashboard/" = ["seo"; "dashboard"]
  /\ segmentsOf "/" = []
  /\ segmentsOf "" = [].
Proof. repeat split; reflexivity. Qed.

Example dynamic_segments :
  List.map isDynamicSegment
    ["123"; "seo"; "deadbeef"; "deadbee"; "DEADBEEF00";
     "123e4567-e89b-12d3-a456-426614174000"; ""; "12a"]
  = [true; false; true; false; true; true; false; false].
Proof. reflexivity. Qed.

Example joins :
  Path.join [[]; [".."]] = [".."]
  /\ Path.join [["seo"]; [".."]; ["_base.md"]] = ["_base.md"]
  /\ Path.join_abs ["plugin"; "instructions"] [[".."; ".."; ".."; "etc"]] = ["etc"]
  /\ Path.join_abs ["plugin"; "instructions"] [["."]; ["_base.md"]]
     = ["plugin"; "instructions"; "_base.md"].
Proof. repeat split; reflexivity. Qed.

Example parsed_urls :
  Lite.URL_parse "https://www.semrush.com/seo/dashboard/123?x=1#top"
  = Some {| hostname := "www.semrush.com"; pathname := "/seo/dashboard/123" |}
  /\ Lite.URL_parse "https://semrush.com"
     = Some {| hostname := "semrush.com"; pathname := "/" |}
  /\ Lite.URL_parse "/seo/dashboard/123" = None
  /\ Lite.URL_parse "seo" = None.
Proof. repeat split; reflexivity. Qed.

Example parsed_configs :
  Lite.JSON_parse (config (Lite.quoted "semrush.com" +:+ ", " +:+ Lite.quoted "*.semrush.com"))
  = Some (JObj [("domains", JArr [JStr "semrush.com"; JStr "*.semrush.com"])])
  /\ Lite.JSON_parse (config "") = Some (JObj [("domains", JArr [])])
  /\ Lite.JSON_parse (config "42, null") = Some (JObj [("domains", JArr [JNum false "42"; JNull])])
  /\ Lite.JSON_parse "{oops" = None
  /\ Lite.JSON_parse "null" = Some JNull.
Proof. repeat split; vm_compute; reflexivity. Qed.

(** Scenario B: the numeric segment [123] takes the folder [_dynamic],
    not the folder of its own name. *)
Example scenario_B :
  Single.resolve Lite.URL_parse scenarioB "/seo/123" (Single.create pluginRoot)
  = (Returned (Some "DYNAMIC"),
     Single.cache_set "/seo/123" (Some "DYNAMIC") (Single.create pluginRoot),
     [ExistsSync ["plugin"; "instructions"; "_base.md"];
      ExistsSync ["plugin"; "instructions"; "seo"];
      ExistsSync ["plugin"; "instructions"; "seo"; "_base.md"];
      ExistsSync ["plugin"; "instructions"; "seo"; "_dynamic"];
      ExistsSync ["plugin"; "instructions"; "seo"; "_dynamic"; "_base.md"];
      ReadFileSync ["plugin"; "instructions"; "seo"; "_dynamic"; "_base.md"];
      ExistsSync ["plugin"; "instructions"; "seo"; "_dynamic"; "index.md"];
      ExistsSync ["plugin"; "instructions"; "seo"; "123.md"]]).
Proof. vm_compute. reflexivity. Qed.

(** Scenario C: no set matches the hostname; absent is returned and
    cached. *)
Example scenario_C :
  let r := Multi.resolve Lite.URL_parse Lite.JSON_parse (tenants "BASE")
             "https://unrelated.org/seo" (Multi.create pluginRoot) in
  result_of r = Returned None
  /\ Multi.cache (state_of r) !! "https://unrelated.org/seo" = Some None.
Proof. cbv zeta. split; vm_compute; reflexivity. Qed.

End Runs.



(** ** Strings *)

Module JsFacts.

Lemma append_String (c : ascii) (a b : string) :
  String c a +:+ b = String c (a +:+ b).
Proof. reflexivity. Qed.

Lemma length_append (a b : string) :
  String.length (a +:+ b) = String.length a + String.length b.
Proof. induction a as [|c a IH]; simpl; [reflexivity | now rewrite IH]. Qed.

Lemma substring_all (s : string) : substring 0 (String.length s) s = s.
Proof. induction s as [|c s IH]; simpl; [reflexivity | now rewrite IH]. Qed.

Lemma substring_skip (a b : string) (n : nat) :
  substring (String.length a) n (a +:+ b) = substring 0 n b.
Proof. induction a as [|c a IH]; simpl; [reflexivity | exact IH]. Qed.

(** A string is what comes before any position followed by what comes
    after it. *)
Lemma substring_cut (s : string) (k : nat) :
  k <= String.length s ->
  s = substring 0 k s +:+ substring k (String.length s - k) s.
Proof.
  revert k; induction s as [|c s IH]; intros k Hk; simpl in *.
  - destruct k; [reflexivity | lia].
  - destruct k as [|k]; simpl.
    + now rewrite substring_all.
    + rewrite append_String. f_equal. apply IH. lia.
Qed.

Lemma prefix_spec (p s : string) :
  String.prefix p s = true <-> exists rest, s = p +:+ rest.
Proof.
  revert s; induction p as [|c p IH]; intros s.
  - split; [intros _; now exists s | intros _; destruct s; reflexivity].
  - destruct s as [|d s]; simpl.
    + split; [discriminate | intros [rest H]; discriminate].
    + destruct (ascii_dec c d) as [->|Hne].
      * rewrite IH. split; intros [rest H]; exists rest.
        -- rewrite append_String. congruence.
        -- rewrite append_String in H. congruence.
      * split; [discriminate | intros [rest H]].
        rewrite append_String in H. congruence.
Qed.

Lemma startsWith_spec (s p : string) :
  Js.startsWith s p = true <-> exists rest, s = p +:+ rest.
Proof. apply prefix_spec. Qed.

Lemma slice_append (a b : string) : Js.slice (String.length a) (a +:+ b) = b.
Proof.
  unfold Js.slice. rewrite length_append, substring_skip.
  replace (String.length a + String.length b - String.length a)
    with (String.length b) by lia.
  apply substring_all.
Qed.

Lemma endsWith_spec (s p : string) :
  Js.endsWith s p = true <-> exists front, s = front +:+ p.
Proof.
  unfold Js.endsWith. split.
  - destruct (Nat.leb_spec (String.length p) (String.length s)) as [Hle|Hlt];
      [|discriminate].
    intros H%String.eqb_eq.
    exists (substring 0 (String.length s - String.length p) s).
    pose proof (substring_cut s (String.length s - String.length p)) as Hc.
    replace (String.length s - (String.length s - String.length p))
      with (String.length p) in Hc by lia.
    rewrite H in Hc. apply Hc. lia.
  - intros [front ->]. rewrite length_append.
    destruct (Nat.leb_spec (String.length p) (String.length front + String.length p));
      [|lia].
    replace (String.length front + String.length p - String.length p)
      with (String.length front) by lia.
    rewrite substring_skip, substring_all. apply String.eqb_refl.
Qed.

End JsFacts.

(** ** The dynamic-segment classifier *)

Module ClassifierFacts.

Import Classifier.

Lemma member_of_In (set : string) (c : ascii) :
  member_of set c = true <-> In c (list_ascii_of_string set).
Proof.
  unfold member_of. rewrite existsb_exists. split.
  - intros [x [Hin Heq]]. apply Ascii.eqb_eq in Heq. now subst.
  - intros Hin. exists c. split; [assumption | apply Ascii.eqb_refl].
Qed.

Ltac by_cases_on_char c :=
  destruct c as [[] [] [] [] [] [] [] []]; reflexivity.

Lemma cls_digit_member (c : ascii) : Js.cls_digit c = member_of "0123456789" c.
Proof. by_cases_on_char c. Qed.

Lemma cls_hex_member (c : ascii) :
  Js.cls_hex_i c = member_of "0123456789abcdefABCDEF" c.
Proof. by_cases_on_char c. Qed.

Lemma cls_digit_spec (c : ascii) : Js.cls_digit c = true <-> decimal_digit c.
Proof. rewrite cls_digit_member. apply member_of_In. Qed.

Lemma cls_hex_spec (c : ascii) : Js.cls_hex_i c = true <-> hex_digit c.
Proof. rewrite cls_hex_member. apply member_of_In. Qed.

Lemma cls_hex_hyphen_spec (c : ascii) :
  Js.cls_hex_hyphen_i c = true <-> hex_digit_or_hyphen c.
Proof.
  unfold Js.cls_hex_hyphen_i, hex_digit_or_hyphen.
  rewrite orb_true_iff, cls_hex_spec, Ascii.eqb_eq. reflexivity.
Qed.

Lemma all_chars_spec (cls : ascii -> bool) (P : ascii -> Prop) (s : string) :
  (forall c, cls c = true <-> P c) ->
  Js.all_chars cls s = true <-> made_of P s.
Proof.
  intros Hcls. unfold Js.all_chars, made_of.
  rewrite forallb_forall, List.Forall_forall.
  split; intros H c Hin; apply Hcls, H, Hin.
Qed.

Lemma test_at_least_spec cls P lo s :
  (forall c, cls c = true <-> P c) ->
  Js.test_at_least cls lo s = true <-> lo <= String.length s /\ made_of P s.
Proof.
  intros Hcls. unfold Js.test_at_least.
  rewrite andb_true_iff, Nat.leb_le, (all_chars_spec cls P s Hcls). reflexivity.
Qed.

Lemma test_exactly_spec cls P n s :
  (forall c, cls c = true <-> P c) ->
  Js.test_exactly cls n s = true <-> String.length s = n /\ made_of P s.
Proof.
  intros Hcls. unfold Js.test_exactly.
  rewrite andb_true_iff, Nat.eqb_eq, (all_chars_spec cls P s Hcls). reflexivity.
Qed.

(** The fourth test of the source never decides: a string of 24
    hexadecimal characters has passed the third. *)
Lemma object_id_is_hex_run (s : string) : object_id_shaped s -> hex_run s.
Proof. intros [Hlen Hall]. split; [lia | assumption]. Qed.

Lemma isDynamicSegment_true (s : string) :
  isDynamicSegment s = true <-> dynamic s.
Proof.
  unfold isDynamicSegment, dynamic, all_digits, uuid_shaped, hex_run.
  rewrite <- (test_at_least_spec _ _ 1 s cls_digit_spec).
  rewrite <- (test_exactly_spec _ _ 36 s cls_hex_hyphen_spec).
  rewrite <- (test_at_least_spec _ _ 8 s cls_hex_spec).
  destruct (Js.test_at_least Js.cls_digit 1 s); [tauto|].
  destruct (Js.test_exactly Js.cls_hex_hyphen_i 36 s); [tauto|].
  destruct (Js.test_at_least Js.cls_hex_i 8 s) eqn:H8; [tauto|].
  destruct (Js.test_exactly Js.cls_hex_i 24 s) eqn:H24.
  - exfalso.
    apply (test_exactly_spec _ _ 24 s cls_hex_spec) in H24.
    apply object_id_is_hex_run, (test_at_least_spec _ _ 8 s cls_hex_spec) in H24.
    congruence.
  - intuition discriminate.
Qed.

(** C8. [isDynamicSegment] answers true exactly on the segments that are
    all decimal digits (at least one), or 36 characters each a
    hexadecimal digit or a hyphen, or 8 or more hexadecimal digits, in
    either case of the letters; on every other segment it answers
    false.  The 24-character object-id shape is among the third
    ([object_id_is_hex_run]).  The answer is a boolean and, being a
    function of the segment alone, the same whenever the segment is. *)
Theorem isDynamicSegment_spec (s : string) :
  (isDynamicSegment s = true <-> dynamic s)
  /\ (isDynamicSegment s = false <-> ~ dynamic s)
  /\ (isDynamicSegment s = true \/ isDynamicSegment s = false).
Proof.
  pose proof (isDynamicSegment_true s) as Ht.
  repeat split.
  - apply Ht.
  - apply Ht.
  - intros Hf Hd. apply Ht in Hd. congruence.
  - intros Hn. destruct (isDynamicSegment s); [|reflexivity].
    exfalso. apply Hn, Ht. reflexivity.
  - destruct (isDynamicSegment s); [left | right]; reflexivity.
Qed.

End ClassifierFacts.

(** ** The domain matcher *)

Module DomainMatcherFacts.

Import DomainMatcher.

Lemma wildcard_slices (s : string) :
  Js.slice 1 ("*." +:+ s) = "." +:+ s /\ Js.slice 2 ("*." +:+ s) = s.
Proof.
  split.
  - exact (JsFacts.slice_append "*" ("." +:+ s)).
  - exact (JsFacts.slice_append "*." s).
Qed.

Lemma matchDomain_returns (h p : string) :
  Multi.matchDomain h (JStr p) = Returned (decide_match h p).
Proof.
  unfold Multi.matchDomain, decide_match.
  destruct (String.eqb h p); [reflexivity|].
  destruct (Js.startsWith p "*."); reflexivity.
Qed.

Lemma decide_match_spec (h p : string) :
  decide_match h p = true <-> matches h p.
Proof.
  unfold decide_match, matches.
  rewrite orb_true_iff, andb_true_iff, orb_true_iff, !String.eqb_eq.
  rewrite JsFacts.startsWith_spec. split.
  - intros [Heq | [[s ->] Hs]]; [left; assumption | right].
    destruct (wildcard_slices s) as [H1 H2]. rewrite H1, H2 in Hs.
    exists s. split; [reflexivity|].
    destruct Hs as [Hs | Hs]; [left | right; assumption].
    now apply JsFacts.endsWith_spec.
  - intros [Heq | [s [-> Hs]]]; [left; assumption | right].
    destruct (wildcard_slices s) as [-> ->].
    split; [now exists s|].
    destruct Hs as [Hs | Hs]; [left | right; assumption].
    now apply JsFacts.endsWith_spec.
Qed.

(** C3. On a hostname [h] and a pattern [p], [matchDomain] returns true
    exactly when [h] is [p], or [p] is [*.] followed by a suffix [s] and
    [h] ends with [.s] or is [s]; otherwise it returns false.  So
    [*.example.com] matches [example.com], [a.example.com] and
    [a.b.example.com], and does not match [notexample.com]. *)
Theorem matchDomain_spec (h p : string) :
  (Multi.matchDomain h (JStr p) = Returned true <-> matches h p)
  /\ (Multi.matchDomain h (JStr p) = Returned false <-> ~ matches h p)
  /\ Multi.matchDomain "example.com" (JStr "*.example.com") = Returned true
  /\ Multi.matchDomain "a.example.com" (JStr "*.example.com") = Returned true
  /\ Multi.matchDomain "a.b.example.com" (JStr "*.example.com") = Returned true
  /\ Multi.matchDomain "notexample.com" (JStr "*.example.com") = Returned false.
Proof.
  rewrite matchDomain_returns.
  pose proof (decide_match_spec h p) as Hd.
  repeat split; try reflexivity.
  - intros [= H]. now apply Hd.
  - intros H. f_equal. now apply Hd.
  - intros [= H] Hm. apply Hd in Hm. congruence.
  - intros Hn. f_equal. destruct (decide_match h p); [|reflexivity].
    exfalso. apply Hn, Hd. reflexivity.
Qed.

End DomainMatcherFacts.

(** ** Documents

    What [loadFile] hands to the walker: a text that is not empty and has
    no white space at either end. *)

Module DocumentFacts.

Import Document.

Lemma truthy_true (t : string) : Js.truthy t = true <-> t <> "".
Proof.
  unfold Js.truthy. destruct (String.eqb_spec t ""); simpl; split; congruence.
Qed.

Lemma trimStart_no_leading (s : string) : no_leading_space (Js.trimStart s).
Proof.
  induction s as [|c s IH]; simpl.
  - intros c' rest [=].
  - destruct (Js.is_space c) eqn:Hc; [exact IH|].
    intros c' rest [= <- <-]. exact Hc.
Qed.

Lemma trimEnd_no_trailing (s : string) : no_trailing_space (Js.trimEnd s).
Proof.
  induction s as [|c s IH]; simpl.
  - intros [|d front] c' [=].
  - destruct (Js.trimEnd s) as [|d t] eqn:Ht.
    + destruct (Js.is_space c) eqn:Hc.
      * intros [|d front] c' [=].
      * intros [|d front] c' H.
        -- injection H as <- . exact Hc.
        -- rewrite JsFacts.append_String in H. injection H as _ H.
           destruct front; discriminate.
    + intros [|e front] c' H.
      * discriminate.
      * rewrite JsFacts.append_String in H. injection H as _ H.
        exact (IH front c' H).
Qed.

(** [trimEnd] leaves the first character in place, unless nothing but
    white space is there. *)
Lemma trimEnd_head (c : ascii) (s : string) :
  Js.is_space c = false -> exists t, Js.trimEnd (String c s) = String c t.
Proof.
  intros Hc. simpl. destruct (Js.trimEnd s) as [|d t].
  - rewrite Hc. now exists "".
  - now exists (String d t).
Qed.

Lemma trim_no_leading (s : string) : no_leading_space (Js.trim s).
Proof.
  unfold Js.trim. pose proof (trimStart_no_leading s) as Hs.
  destruct (Js.trimStart s) as [|c u] eqn:Hu.
  - intros c' rest [=].
  - destruct (trimEnd_head c u (Hs c u eq_refl)) as [t ->].
    intros c' rest [= <- <-]. exact (Hs c u eq_refl).
Qed.

Lemma trim_document (s : string) : Js.trim s <> "" -> document (Js.trim s).
Proof.
  intros Hne. repeat split.
  - exact Hne.
  - apply trim_no_leading.
  - apply trimEnd_no_trailing.
Qed.

Lemma append_empty (a b : string) : a +:+ b = "" -> a = "".
Proof. destruct a; [reflexivity | discriminate]. Qed.

(** Joining documents never gives the empty text. *)
Lemma join_nonempty (sep : string) (docs : list string) :
  docs <> [] -> Forall document docs -> Js.join sep docs <> "".
Proof.
  intros Hne Hall. destruct docs as [|d rest]; [congruence|].
  apply Forall_cons_1 in Hall as [[Hd _] _].
  destruct rest as [|d' rest]; simpl; [exact Hd|].
  intros H%append_empty. contradiction.
Qed.

Lemma push_if_document (doc : option string) (acc : list string) :
  (forall d, doc = Some d -> d <> "" -> document d) ->
  Forall document acc -> Forall document (push_if doc acc).
Proof.
  intros Hdoc Hacc. unfold push_if. destruct doc as [d|]; [|exact Hacc].
  destruct (Js.truthy d) eqn:Ht; [|exact Hacc].
  apply Forall_app. split; [exact Hacc|].
  constructor; [|constructor]. apply Hdoc; [reflexivity|].
  now apply truthy_true.
Qed.

End DocumentFacts.

(** ** The walker *)

Module WalkerFacts.

Import Document DocumentFacts Walker.

Section Store.

Variable fs : node.
Variable dir : path.

Local Abbreviation docAt := (Walker.docAt fs dir).
Local Abbreviation probes := (Walker.probes fs dir).

(** [loadFile] never throws. *)
Lemma loadFile_eq (relativePath : path) :
  loadFile fs dir relativePath = (Returned (docAt relativePath), probes relativePath).
Proof.
  unfold loadFile, Walker.docAt, Walker.probes, existsSync, readFileSync, io_bind, io_catch, io_ret.
  destruct (Fs.lookup fs (Path.join_abs dir [relativePath])) as [[[text|]|es|es]|];
    reflexivity.
Qed.

Lemma docAt_document (relativePath : path) (d : string) :
  docAt relativePath = Some d -> d <> "" -> document d.
Proof.
  unfold Walker.docAt.
  destruct (Fs.lookup fs (Path.join_abs dir [relativePath])) as [[[text|]|es|es]|];
    try discriminate.
  intros [= <-]. apply trim_document.
Qed.

Lemma push_if_app (doc : option string) (acc : list string) :
  push_if doc acc = acc ++ push_if doc [].
Proof.
  unfold push_if. destruct doc as [d|]; [|now rewrite app_nil_r].
  destruct (Js.truthy d); [reflexivity | now rewrite app_nil_r].
Qed.

Lemma tryFolders_total (currentPath : path) (folders : list string) :
  exists found l, tryFolders fs dir currentPath folders = (Returned found, l).
Proof.
  induction folders as [|folder others IH]; simpl.
  - eexists _, _. reflexivity.
  - unfold existsSync, io_bind.
    destruct (bool_decide _).
    + eexists _, _. reflexivity.
    + destruct IH as [found [l ->]]. eexists _, _. reflexivity.
Qed.

(** The walk never throws, keeps what was accumulated before it, and
    adds documents only. *)
Lemma walk_total (segments : list string) :
  forall currentPath acc,
    exists added l,
      walk fs dir segments currentPath acc = (Returned (acc ++ added), l)
      /\ Forall document added.
Proof.
  induction segments as [|segment rest IH]; intros currentPath acc.
  - exists [], []. rewrite app_nil_r. split; [reflexivity | constructor].
  - cbn [walk].
    destruct (tryFolders_total currentPath
                (if isDynamicSegment segment then ["_dynamic"; "*"] else [segment]))
      as [found [l0 ->]].
    unfold io_bind at 1.
    destruct (Js.truthy_opt found) eqn:Hfound.
    + set (cur := Path.join [currentPath; [default "" found]]).
      pose proof (push_if_document _ [] (docAt_document (Path.join [cur; ["_base.md"]]))
                    ltac:(constructor)) as Hbase.
      pose proof (push_if_document _ [] (docAt_document (Path.join [cur; ["index.md"]]))
                    ltac:(constructor)) as Hindex.
      destruct rest as [|next rest']; cbn [andb]; rewrite !loadFile_eq;
        cbn [io_bind io_ret].
      * cbn [walk io_ret]. rewrite (push_if_app _ (push_if _ acc)), (push_if_app _ acc), <- app_assoc.
        eexists _, _. split; [reflexivity|].
        apply Forall_app; split; assumption.
      * rewrite (push_if_app _ acc).
        destruct (IH cur (acc ++ push_if (docAt (Path.join [cur; ["_base.md"]])) []))
          as [a3 [l3 [Hw Ha3]]].
        fold cur. rewrite Hw. rewrite <- app_assoc.
        eexists _, _. split; [reflexivity|].
        apply Forall_app; split; assumption.
    + destruct rest as [|next rest'].
      * rewrite loadFile_eq. cbn [io_bind io_ret].
        rewrite (push_if_app _ acc).
        eexists _, _. split; [reflexivity|].
        apply (push_if_document _ []); [apply docAt_document | constructor].
      * eexists [], _. rewrite app_nil_r. cbn [io_ret]. split; [reflexivity | constructor].
Qed.

Lemma exactMatch_total (parentPath : path) (lastSegment : string) (acc : list string) :
  exists added l,
    exactMatch fs dir parentPath lastSegment acc = (Returned (acc ++ added), l)
    /\ Forall document added
    /\ Forall (fun d => Js.includes acc d = false) added.
Proof.
  unfold exactMatch. rewrite loadFile_eq. cbn [io_bind].
  assert (Hnone : forall l : list fs_op,
             exists added l',
               (Returned acc, l) = (Returned (acc ++ added), l')
               /\ Forall document added
               /\ Forall (fun d => Js.includes acc d = false) added).
  { intros l. exists [], l. rewrite (app_nil_r acc).
    split; [reflexivity | split; constructor]. }
  destruct (docAt _) as [d|] eqn:Hd; [|apply Hnone].
  destruct (Js.truthy d) eqn:Ht; cbn [andb]; [|apply Hnone].
  destruct (Js.includes acc d) eqn:Hin; cbn [negb io_ret]; [apply Hnone|].
  eexists [d], _. split; [reflexivity | split].
  - constructor; [|constructor].
    apply (docAt_document _ _ Hd). now apply truthy_true.
  - constructor; [assumption | constructor].
Qed.

End Store.

End WalkerFacts.

(** ** Running a call step by step *)

Module RunFacts.

Import Run.

Section Laws.

Context {S A B : Type}.

Lemma after_nil (r : outcome B * S * list fs_op) : after [] r = r.
Proof. destruct r as [[o s] l]. reflexivity. Qed.

Lemma bind_eq (m : M S A) (f : A -> M S B) (s : S) :
  m_bind m f s =
  match m s with
  | (Returned a, s1, l1) => after l1 (f a s1)
  | (Thrown e, s1, l1) => (Thrown e, s1, l1)
  end.
Proof.
  unfold m_bind, after. destruct (m s) as [[[a|e] s1] l1]; [|reflexivity].
  destruct (f a s1) as [[o s2] l2]. reflexivity.
Qed.

Lemma bind_ret (a : A) (f : A -> M S B) (s : S) :
  m_bind (m_ret a) f s = f a s.
Proof. rewrite bind_eq. apply after_nil. Qed.

Lemma bind_lift (v : outcome A) (l : list fs_op) (f : A -> M S B) (s : S) :
  m_bind (lift (v, l)) f s =
  match v with
  | Returned a => after l (f a s)
  | Thrown e => (Thrown e, s, l)
  end.
Proof. rewrite bind_eq. destruct v; reflexivity. Qed.

Lemma bind_check (v : outcome A) (f : A -> M S B) (s : S) :
  m_bind (check v) f s =
  match v with
  | Returned a => f a s
  | Thrown e => (Thrown e, s, [])
  end.
Proof. rewrite bind_eq. destruct v; [apply after_nil | reflexivity]. Qed.

End Laws.

Lemma bind_put {S B : Type} (s' : S) (f : unit -> M S B) (s : S) :
  m_bind (m_put s') f s = f tt s'.
Proof. rewrite bind_eq. apply after_nil. Qed.

Lemma bind_get {S B : Type} (f : S -> M S B) (s : S) :
  m_bind m_get f s = f s s.
Proof. rewrite bind_eq. apply after_nil. Qed.

Lemma result_after {S B : Type} l (r : outcome B * S * list fs_op) :
  result_of (after l r) = result_of r.
Proof. reflexivity. Qed.

Lemma state_after {S B : Type} l (r : outcome B * S * list fs_op) :
  state_of (after l r) = state_of r.
Proof. reflexivity. Qed.

Lemma log_after {S B : Type} l (r : outcome B * S * list fs_op) :
  log_of (after l r) = l ++ log_of r.
Proof. reflexivity. Qed.

End RunFacts.

(** ** What one resolution gathers

    After the cache and the URL are dealt with, both classes run the same
    three steps; they differ in where the root base document is, where the
    walk starts and where the parent of the last segment is. *)

Module GatherFacts.

Import Document DocumentFacts Gather.

Section Store.

Variable fs : node.
Variable dir : path.

Local Abbreviation gather := (Gather.gather fs dir).

(** Gathering never throws, and gathers documents. *)
Lemma gather_total (rootBase start parent : path) (segments : list string) :
  exists docs l,
    gather rootBase start parent segments = (Returned docs, l)
    /\ Forall document docs.
Proof.
  unfold Gather.gather. rewrite WalkerFacts.loadFile_eq. cbn [io_bind].
  pose proof (push_if_document _ [] (WalkerFacts.docAt_document fs dir rootBase)
                ltac:(constructor)) as Hroot.
  destruct (WalkerFacts.walk_total fs dir segments start
              (push_if (Walker.docAt fs dir rootBase) []))
    as [added [l [-> Hadded]]].
  cbn [io_bind].
  destruct (Nat.ltb 0 (List.length segments)).
  - destruct (WalkerFacts.exactMatch_total fs dir parent (List.last segments "")
                (push_if (Walker.docAt fs dir rootBase) [] ++ added))
      as [extra [l' [-> [Hextra _]]]].
    eexists _, _. split; [reflexivity|].
    repeat (apply Forall_app; split); assumption.
  - cbn [io_ret]. eexists _, _. split; [reflexivity|].
    apply Forall_app; split; assumption.
Qed.

(** The merged text of documents is never the empty text. *)
Lemma merge_documents (docs : list string) :
  Forall document docs ->
  merge docs = None
  \/ (docs <> [] /\ merge docs = Some (Js.join separator docs)
      /\ Js.join separator docs <> "").
Proof.
  intros Hall. unfold merge. destruct docs as [|d rest]; [left; reflexivity|].
  right. split; [discriminate|]. split; [reflexivity|].
  apply join_nonempty; [discriminate | assumption].
Qed.

End Store.

End GatherFacts.

(** ** The single-tenant resolver *)

Module SingleFacts.

Import Document DocumentFacts Gather SingleSpec.

Section Platform.

Variable URL_parse : string -> option URL.

Local Abbreviation gathered := (SingleSpec.gathered URL_parse).

Lemma single_hit (fs : node) (url : string) (st : Single.Resolver)
  (hit : option string) :
  Single.cache st !! url = Some hit ->
  Single.resolve URL_parse fs url st = (Returned hit, st, []).
Proof.
  intros Hhit. unfold Single.resolve. rewrite RunFacts.bind_get, Hhit. reflexivity.
Qed.

Lemma single_miss (fs : node) (url : string) (st : Single.Resolver) :
  Single.cache st !! url = None ->
  exists docs l,
    gathered fs (Single.instructionsDir st) url = (Returned docs, l)
    /\ Forall document docs
    /\ Single.resolve URL_parse fs url st
       = (Returned (merge docs), Single.cache_set url (merge docs) st, l).
Proof.
  intros Hmiss.
  destruct (GatherFacts.gather_total fs (Single.instructionsDir st) ["_base.md"] []
              (List.removelast (segmentsOf (Single.pathnameOf URL_parse url)))
              (segmentsOf (Single.pathnameOf URL_parse url)))
    as [docs [l [Hg Hdocs]]].
  exists docs, l. split; [exact Hg|]. split; [exact Hdocs|].
  unfold Single.resolve. rewrite RunFacts.bind_get, Hmiss.
  unfold Gather.gather in Hg. cbv zeta.
  destruct (loadFile fs (Single.instructionsDir st) ["_base.md"])
    as [[rootBase|e] l1]; cbn [io_bind] in Hg; [|discriminate].
  rewrite RunFacts.bind_lift.
  destruct (walk fs (Single.instructionsDir st)
              (segmentsOf (Single.pathnameOf URL_parse url)) []
              (push_if rootBase [])) as [[instructions|e] l2];
    cbn [io_bind] in Hg; [|discriminate].
  rewrite RunFacts.bind_lift.
  destruct (Nat.ltb 0 (List.length (segmentsOf (Single.pathnameOf URL_parse url)))).
  - destruct (exactMatch fs (Single.instructionsDir st) _ _ instructions)
      as [[final|e] l3]; [|discriminate].
    injection Hg as <- <-.
    rewrite RunFacts.bind_lift, RunFacts.bind_get, RunFacts.bind_put.
    unfold Run.after, m_ret, result_of, state_of, log_of. cbn [fst snd].
    now rewrite app_nil_r, app_assoc.
  - cbn [io_ret] in Hg. injection Hg as <- <-.
    rewrite RunFacts.bind_ret, RunFacts.bind_get, RunFacts.bind_put.
    unfold Run.after, m_ret, result_of, state_of, log_of. cbn [fst snd].
    now rewrite !app_nil_r.
Qed.

(** A call of the single-tenant [resolve] never throws. *)
Lemma single_returns (fs : node) (url : string) (st : Single.Resolver) :
  exists r, result_of (Single.resolve URL_parse fs url st) = Returned r.
Proof.
  destruct (Single.cache st !! url) as [hit|] eqn:Hc.
  - exists hit. now rewrite (single_hit fs url st hit Hc).
  - destruct (single_miss fs url st Hc) as [docs [l [_ [_ ->]]]].
    now exists (merge docs).
Qed.

End Platform.

End SingleFacts.

(** ** The multi-tenant resolver *)

Module MultiFacts.

Import Document DocumentFacts Gather MultiSpec.

Lemma same_cache_refl (s : Multi.Resolver) : same_cache s s.
Proof. split; reflexivity. Qed.

Lemma same_cache_trans (s1 s2 s3 : Multi.Resolver) :
  same_cache s1 s2 -> same_cache s2 s3 -> same_cache s1 s3.
Proof. intros [H1 H2] [H3 H4]. split; congruence. Qed.

Lemma configCache_put_same (m : Multi.ConfigMap) (s : Multi.Resolver) :
  same_cache s (Multi.configCache_put m s).
Proof. split; reflexivity. Qed.

Section Platform.

Variable URL_parse : string -> option URL.
Variable JSON_parse : string -> option json.

Local Abbreviation declaredAt := (MultiSpec.declaredAt JSON_parse).
Local Abbreviation scanState := (MultiSpec.scanState JSON_parse).
Local Abbreviation reachable := (MultiSpec.reachable URL_parse JSON_parse).
Local Abbreviation cache_ok := (MultiSpec.cache_ok URL_parse).

(** The [try] around the registration never lets an exception out. *)
Lemma registerConfig_eq (fs : node) (name : string) (configPath : path)
  (s : Multi.Resolver) :
  m_catch (Multi.registerConfig JSON_parse fs name configPath) (m_ret tt) s
  = (Returned tt, registered name (declaredAt fs configPath) s,
     [ReadFileSync configPath]).
Proof.
  unfold m_catch, Multi.registerConfig, MultiSpec.declaredAt, readFileSync.
  rewrite RunFacts.bind_lift.
  destruct (Fs.lookup fs configPath) as [[[text|]|es|es]|]; try reflexivity.
  rewrite RunFacts.bind_check.
  destruct (JSON_parse text) as [config|]; [|reflexivity].
  rewrite RunFacts.bind_check.
  destruct (Json.member "domains" config) as [d|e]; [|reflexivity].
  destruct (Json.truthy d && Json.isArray d).
  - rewrite RunFacts.bind_get. reflexivity.
  - reflexivity.
Qed.

Lemma scanEntries_eq (fs : node) (dir : path) (entries : list Fs.Dirent) :
  forall s,
    Multi.scanEntries JSON_parse fs dir entries s
    = (Returned tt,
       List.fold_left (fun s entry => scanState fs dir entry s) entries s,
       List.concat (List.map (scanLog fs dir) entries)).
Proof.
  induction entries as [|entry others IH]; intros s; [reflexivity|].
  cbn [Multi.scanEntries List.fold_left List.map List.concat].
  rewrite RunFacts.bind_eq. unfold MultiSpec.scanState at 2, scanLog at 1.
  destruct (negb (Fs.isDirectory entry)).
  - cbn [m_ret]. rewrite IH. reflexivity.
  - unfold existsSync. rewrite RunFacts.bind_lift. fold (configPathOf dir entry).
    fold (hasConfig fs dir entry). destruct (hasConfig fs dir entry).
    + rewrite registerConfig_eq. cbn [Run.after result_of state_of log_of fst snd].
      rewrite IH. reflexivity.
    + cbn [m_ret Run.after result_of state_of log_of fst snd].
      rewrite IH. reflexivity.
Qed.

Lemma registered_same (name : string) (declared : option (list json))
  (s : Multi.Resolver) : same_cache s (registered name declared s).
Proof. destruct declared; [apply configCache_put_same | apply same_cache_refl]. Qed.

Lemma scanState_same (fs : node) (dir : path) (entry : Fs.Dirent)
  (s : Multi.Resolver) : same_cache s (scanState fs dir entry s).
Proof.
  unfold MultiSpec.scanState. destruct (negb _); [apply same_cache_refl|].
  destruct (hasConfig _ _ _); [apply registered_same | apply same_cache_refl].
Qed.

Lemma scan_same (fs : node) (dir : path) (entries : list Fs.Dirent) :
  forall s,
    same_cache s (List.fold_left (fun s entry => scanState fs dir entry s) entries s).
Proof.
  induction entries as [|entry others IH]; intros s; [apply same_cache_refl|].
  cbn [List.fold_left].
  eapply same_cache_trans; [apply scanState_same | apply IH].
Qed.

(** [loadConfigs] touches the config cache only. *)
Lemma loadConfigs_same (fs : node) (s : Multi.Resolver) :
  same_cache s (state_of (Multi.loadConfigs JSON_parse fs s)).
Proof.
  unfold Multi.loadConfigs. rewrite RunFacts.bind_get.
  destruct (Multi.configCache s) as [configs|]; [apply same_cache_refl|].
  rewrite RunFacts.bind_put. unfold existsSync. rewrite RunFacts.bind_lift.
  destruct (bool_decide _); cbn [negb]; [|apply configCache_put_same].
  rewrite RunFacts.state_after. unfold readdirSync. rewrite RunFacts.bind_lift.
  destruct (Fs.lookup fs (Multi.instructionsDir s)) as [[text|es|es]|];
    try apply configCache_put_same.
  rewrite RunFacts.state_after, RunFacts.bind_eq, scanEntries_eq, RunFacts.state_after, RunFacts.bind_get.
  cbn [m_ret state_of fst snd].
  eapply same_cache_trans; [apply configCache_put_same | apply scan_same].
Qed.

Lemma findInstructionSet_same (fs : node) (host : string) (s : Multi.Resolver) :
  same_cache s (state_of (Multi.findInstructionSet JSON_parse fs host s)).
Proof.
  unfold Multi.findInstructionSet. rewrite RunFacts.bind_eq.
  pose proof (loadConfigs_same fs s) as Hsame.
  destruct (Multi.loadConfigs JSON_parse fs s) as [[[configs|e] s1] l1];
    [|exact Hsame].
  rewrite RunFacts.state_after. exact Hsame.
Qed.

(** *** The shape of a call of [resolve] *)

Lemma resolve_hit (fs : node) (url : string) (st : Multi.Resolver)
  (hit : option string) :
  Multi.cache st !! url = Some hit ->
  Multi.resolve URL_parse JSON_parse fs url st = (Returned hit, st, []).
Proof.
  intros Hhit. unfold Multi.resolve. rewrite RunFacts.bind_get, Hhit. reflexivity.
Qed.

Lemma resolve_unparsable (fs : node) (url : string) (st : Multi.Resolver) :
  Multi.cache st !! url = None ->
  URL_parse url = None ->
  Multi.resolve URL_parse JSON_parse fs url st
  = (Returned None, Multi.cache_set url None st, []).
Proof.
  intros Hmiss Hparse. unfold Multi.resolve.
  rewrite RunFacts.bind_get, Hmiss, Hparse, RunFacts.bind_put. reflexivity.
Qed.

Lemma resolve_thrown (fs : node) (url : string) (st s1 : Multi.Resolver)
  (parsed : URL) (e : exn) (l1 : list fs_op) :
  Multi.cache st !! url = None ->
  URL_parse url = Some parsed ->
  Multi.findInstructionSet JSON_parse fs (hostname parsed) st = (Thrown e, s1, l1) ->
  Multi.resolve URL_parse JSON_parse fs url st = (Thrown e, s1, l1).
Proof.
  intros Hmiss Hparse Hfind. unfold Multi.resolve.
  rewrite RunFacts.bind_get, Hmiss, Hparse, RunFacts.bind_eq, Hfind. reflexivity.
Qed.

Lemma resolve_no_set (fs : node) (url : string) (st s1 : Multi.Resolver)
  (parsed : URL) (found : option string) (l1 : list fs_op) :
  Multi.cache st !! url = None ->
  URL_parse url = Some parsed ->
  Multi.findInstructionSet JSON_parse fs (hostname parsed) st
  = (Returned found, s1, l1) ->
  Js.truthy_opt found = false ->
  Multi.resolve URL_parse JSON_parse fs url st
  = (Returned None, Multi.cache_set url None s1, l1).
Proof.
  intros Hmiss Hparse Hfind Hfalsy. unfold Multi.resolve.
  rewrite RunFacts.bind_get, Hmiss, Hparse, RunFacts.bind_eq, Hfind, Hfalsy. cbn [negb].
  rewrite RunFacts.bind_get, RunFacts.bind_put.
  unfold Run.after, m_ret, result_of, state_of, log_of. cbn [fst snd].
  now rewrite app_nil_r.
Qed.

Lemma resolve_in_set (fs : node) (url : string) (st s1 : Multi.Resolver)
  (parsed : URL) (found : option string) (l1 : list fs_op) :
  Multi.cache st !! url = None ->
  URL_parse url = Some parsed ->
  Multi.findInstructionSet JSON_parse fs (hostname parsed) st
  = (Returned found, s1, l1) ->
  Js.truthy_opt found = true ->
  exists docs l,
    gathered fs (Multi.instructionsDir st) (default "" found) (pathname parsed)
    = (Returned docs, l)
    /\ Forall document docs
    /\ Multi.resolve URL_parse JSON_parse fs url st
       = (Returned (merge docs), Multi.cache_set url (merge docs) s1, l1 ++ l).
Proof.
  intros Hmiss Hparse Hfind Htruthy.
  set (dir := Multi.instructionsDir st).
  set (b := default "" found).
  set (segments := segmentsOf (pathname parsed)).
  destruct (GatherFacts.gather_total fs dir (Path.join [[b]; ["_base.md"]]) [b]
              (Path.join [[b]; List.removelast segments]) segments)
    as [docs [l [Hg Hdocs]]].
  exists docs, l. split; [exact Hg|]. split; [exact Hdocs|].
  unfold Multi.resolve.
  rewrite RunFacts.bind_get, Hmiss, Hparse, RunFacts.bind_eq, Hfind, Htruthy. cbn [negb].
  cbv zeta. fold dir b segments.
  unfold Gather.gather in Hg.
  destruct (loadFile fs dir (Path.join [[b]; ["_base.md"]]))
    as [[rootBase|e] l2]; cbn [io_bind] in Hg; [|discriminate].
  rewrite RunFacts.bind_lift.
  destruct (walk fs dir segments [b] (push_if rootBase []))
    as [[instructions|e] l3]; cbn [io_bind] in Hg; [|discriminate].
  rewrite RunFacts.bind_lift.
  destruct (Nat.ltb 0 (List.length segments)).
  - destruct (exactMatch fs dir _ _ instructions) as [[final|e] l4];
      [|discriminate].
    injection Hg as <- <-.
    rewrite RunFacts.bind_lift, RunFacts.bind_get, RunFacts.bind_put.
    unfold Run.after, m_ret, result_of, state_of, log_of. cbn [fst snd].
    now rewrite app_nil_r, !app_assoc.
  - cbn [io_ret] in Hg. injection Hg as <- <-.
    rewrite RunFacts.bind_ret, RunFacts.bind_get, RunFacts.bind_put.
    unfold Run.after, m_ret, result_of, state_of, log_of. cbn [fst snd].
    now rewrite !app_nil_r.
Qed.

(** *** What a call does to the cache *)

Lemma merge_well_merged (docs : list string) :
  Forall document docs -> well_merged (merge docs).
Proof.
  intros Hdocs. destruct (GatherFacts.merge_documents docs Hdocs) as [-> | [Hne [-> _]]].
  - now left.
  - right. now exists docs.
Qed.

(** A call either leaves the cache as it is (a hit, or an exception),
    or returns and adds its result under the URL it was given. *)
Lemma resolve_summary (fs : node) (url : string) (st : Multi.Resolver) :
  let r := Multi.resolve URL_parse JSON_parse fs url st in
  Multi.instructionsDir (state_of r) = Multi.instructionsDir st
  /\ ((exists hit, Multi.cache st !! url = Some hit /\ r = (Returned hit, st, []))
      \/ (exists e, Multi.cache st !! url = None
                    /\ result_of r = Thrown e
                    /\ Multi.cache (state_of r) = Multi.cache st
                    /\ URL_parse url <> None)
      \/ (exists res, Multi.cache st !! url = None
                      /\ result_of r = Returned res
                      /\ Multi.cache (state_of r) = <[url := res]> (Multi.cache st)
                      /\ well_merged res
                      /\ (URL_parse url = None -> res = None /\ log_of r = []))).
Proof.
  cbv zeta.
  destruct (Multi.cache st !! url) as [hit|] eqn:Hc.
  { rewrite (resolve_hit fs url st hit Hc). split; [reflexivity|].
    left. now exists hit. }
  destruct (URL_parse url) as [parsed|] eqn:Hp.
  2:{ rewrite (resolve_unparsable fs url st Hc Hp). split; [reflexivity|].
      right; right. exists None. repeat split; try reflexivity. now left. }
  pose proof (findInstructionSet_same fs (hostname parsed) st) as [Hdir Hcache].
  destruct (Multi.findInstructionSet JSON_parse fs (hostname parsed) st)
    as [[[found|e] s1] l1] eqn:Hfind; cbn [state_of fst snd] in Hdir, Hcache.
  - destruct (Js.truthy_opt found) eqn:Ht.
    + destruct (resolve_in_set fs url st s1 parsed found l1 Hc Hp Hfind Ht)
        as [docs [l [_ [Hdocs ->]]]].
      split; [exact Hdir|]. right; right. exists (merge docs).
      cbn [result_of state_of log_of fst snd Multi.cache Multi.cache_set].
      rewrite Hcache. repeat split; try reflexivity; try discriminate.
      now apply merge_well_merged.
    + rewrite (resolve_no_set fs url st s1 parsed found l1 Hc Hp Hfind Ht).
      split; [exact Hdir|]. right; right. exists None.
      cbn [result_of state_of log_of fst snd Multi.cache Multi.cache_set].
      rewrite Hcache. repeat split; try reflexivity; try discriminate.
      now left.
  - rewrite (resolve_thrown fs url st s1 parsed e l1 Hc Hp Hfind).
    split; [exact Hdir|]. right; left. exists e.
    cbn [result_of state_of fst snd]. repeat split; try assumption. discriminate.
Qed.

(** A result that was returned is in the cache, under the URL as it
    was given. *)
Lemma returned_is_cached (fs : node) (url : string) (st : Multi.Resolver)
  (res : option string) :
  result_of (Multi.resolve URL_parse JSON_parse fs url st) = Returned res ->
  Multi.cache (state_of (Multi.resolve URL_parse JSON_parse fs url st)) !! url
  = Some res.
Proof.
  intros Hres.
  destruct (resolve_summary fs url st)
    as [_ [[hit [Hc Hr]] | [[e [_ [He _]]] | [res' [_ [Hr [Hcache _]]]]]]].
  - rewrite Hr in Hres |- *. injection Hres as ->. exact Hc.
  - congruence.
  - rewrite Hcache. rewrite Hr in Hres. injection Hres as ->.
    apply lookup_insert_eq.
Qed.

(** The next call for the same URL answers from the cache, whatever
    the store has become, and reads nothing. *)
Lemma second_call (fs fs' : node) (url : string) (st : Multi.Resolver)
  (res : option string) :
  result_of (Multi.resolve URL_parse JSON_parse fs url st) = Returned res ->
  let st1 := state_of (Multi.resolve URL_parse JSON_parse fs url st) in
  Multi.resolve URL_parse JSON_parse fs' url st1 = (Returned res, st1, []).
Proof.
  intros Hres st1. apply resolve_hit, returned_is_cached, Hres.
Qed.

(** *** The states a resolver goes through *)

Lemma reachable_cache_ok (st : Multi.Resolver) : reachable st -> cache_ok st.
Proof.
  induction 1 as [pluginRoot | fs url st Hreach IH | st Hreach IH].
  - intros u res Hu. cbn in Hu. now rewrite lookup_empty in Hu.
  - destruct (resolve_summary fs url st)
      as [_ [[hit [Hc ->]] | [[e [_ [_ [Hcache _]]]] | [r [_ [_ [Hcache [Hwm Hnone]]]]]]]].
    + exact IH.
    + intros u res. rewrite Hcache. apply IH.
    + intros u res. rewrite Hcache.
      destruct (decide (url = u)) as [<-|Hne].
      * rewrite lookup_insert_eq. intros [= <-]. split; [exact Hwm|].
        intros Hp. now apply Hnone.
      * rewrite lookup_insert_ne by exact Hne. apply IH.
  - intros u res Hu. cbn in Hu. now rewrite lookup_empty in Hu.
Qed.

End Platform.

End MultiFacts.


(** ** Paths and the file system *)

Module PathFacts.

Import Walker.

Lemma plain_eqb (c : string) :
  plain c ->
  String.eqb c "" = false /\ String.eqb c "." = false /\ String.eqb c ".." = false.
Proof.
  intros [H1 [H2 H3]]. repeat split; now apply String.eqb_neq.
Qed.

(** Plain components go through the normalisation as they are. *)
Lemma normalize_plain (absolute : bool) (p : path) :
  Forall plain p ->
  forall acc, Path.normalize_from absolute acc p = List.rev acc ++ p.
Proof.
  induction 1 as [|c p Hc Hp IH]; intros acc; cbn [Path.normalize_from].
  - now rewrite app_nil_r.
  - destruct (plain_eqb c Hc) as [-> [-> ->]]. cbn [orb].
    rewrite IH. cbn [List.rev]. now rewrite <- app_assoc.
Qed.

Lemma join_abs_plain (dir : path) (parts : list path) :
  Forall plain dir -> Forall plain (List.concat parts) ->
  Path.join_abs dir parts = dir ++ List.concat parts.
Proof.
  intros Hdir Hparts. unfold Path.join_abs.
  rewrite normalize_plain; [reflexivity|].
  apply Forall_app. split; assumption.
Qed.

Lemma lookup_app (n : node) (p q : path) :
  Fs.lookup n (p ++ q)
  = match Fs.lookup n p with
    | Some n' => Fs.lookup n' q
    | None => None
    end.
Proof.
  revert n; induction p as [|c p IH]; intros n; [reflexivity|].
  cbn [app Fs.lookup]. destruct n as [content|es|es]; [reflexivity| |];
    (destruct (Fs.assoc c es); [apply IH | reflexivity]).
Qed.

(** Below a directory whose path is plain, a plain relative path is
    looked up in that directory. *)
Lemma lookup_below (fs store : node) (dir : path) (parts : list path) :
  Forall plain dir ->
  Fs.lookup fs dir = Some store ->
  Forall plain (List.concat parts) ->
  Fs.lookup fs (Path.join_abs dir parts) = Fs.lookup store (List.concat parts).
Proof.
  intros Hdir Hstore Hparts.
  rewrite join_abs_plain by assumption.
  now rewrite lookup_app, Hstore.
Qed.

End PathFacts.


(** ** One turn of the walk *)

Module WalkSteps.

Import Document DocumentFacts Walker.

Section Store.

Variable fs : node.
Variable dir : path.

Local Abbreviation docAt := (Walker.docAt fs dir).
Local Abbreviation probes := (Walker.probes fs dir).
Local Abbreviation matchedFolder := (Walker.matchedFolder fs dir).
Local Abbreviation tryLog := (Walker.tryLog fs dir).

Lemma tryFolders_split (currentPath : path) (segment : string) :
  exists found,
    tryFolders fs dir currentPath (foldersToTry segment)
    = (Returned found, tryLog currentPath segment)
    /\ Js.truthy_opt found = bool_decide (is_Some (matchedFolder currentPath segment))
    /\ (Js.truthy_opt found = true ->
        matchedFolder currentPath segment = Some (default "" found)).
Proof.
  unfold Walker.tryLog, Walker.matchedFolder, io_value, io_log.
  destruct (WalkerFacts.tryFolders_total fs dir currentPath (foldersToTry segment))
    as [found [l ->]].
  exists found. cbn [fst snd]. split; [reflexivity|].
  destruct found as [folder|]; cbn [Js.truthy_opt default].
  - destruct (Js.truthy folder); split; try reflexivity; discriminate.
  - split; [reflexivity | discriminate].
Qed.

(** The segment matches a folder: the walk moves into it and loads its
    base document; at the last segment it loads [index.md] as well. *)
Lemma walk_matched (segment : string) (rest : list string) (currentPath : path)
  (acc : list string) (folder : string) :
  matchedFolder currentPath segment = Some folder ->
  let inside := Path.join [currentPath; [folder]] in
  let base := Path.join [inside; ["_base.md"]] in
  let index := Path.join [inside; ["index.md"]] in
  walk fs dir (segment :: rest) currentPath acc
  = match rest with
    | [] =>
        (Returned (push_if (docAt index) (push_if (docAt base) acc)),
         tryLog currentPath segment ++ probes base ++ probes index)
    | _ =>
        (io_value (walk fs dir rest inside (push_if (docAt base) acc)),
         tryLog currentPath segment ++ probes base
           ++ io_log (walk fs dir rest inside (push_if (docAt base) acc)))
    end.
Proof.
  intros Hfolder inside base index. cbn [walk]. fold (foldersToTry segment).
  destruct (tryFolders_split currentPath segment) as [found [-> [Htruthy Hsome]]].
  rewrite Hfolder in Htruthy, Hsome. cbn in Htruthy.
  specialize (Hsome Htruthy). injection Hsome as Hsome.
  cbn [io_bind]. rewrite Htruthy, <- Hsome. fold inside. fold base. fold index.
  rewrite !WalkerFacts.loadFile_eq.
  destruct rest as [|next rest']; cbn [andb io_bind io_ret].
  - cbn [walk io_ret]. now rewrite !app_nil_r.
  - destruct (walk fs dir (next :: rest') inside (push_if (docAt base) acc))
      as [o l]. cbn [io_value io_log fst snd]. now rewrite app_nil_l.
Qed.

(** The segment matches no folder: the walk ends; at the last segment it
    first loads the file named after the segment. *)
Lemma walk_unmatched (segment : string) (rest : list string) (currentPath : path)
  (acc : list string) :
  matchedFolder currentPath segment = None ->
  let page := Path.join [currentPath; [segment +:+ ".md"]] in
  walk fs dir (segment :: rest) currentPath acc
  = match rest with
    | [] => (Returned (push_if (docAt page) acc), tryLog currentPath segment ++ probes page)
    | _ => (Returned acc, tryLog currentPath segment)
    end.
Proof.
  intros Hnone page. cbn [walk]. fold (foldersToTry segment).
  destruct (tryFolders_split currentPath segment) as [found [-> [Htruthy _]]].
  rewrite Hnone in Htruthy. cbn in Htruthy.
  cbn [io_bind]. rewrite Htruthy. fold page.
  destruct rest as [|next rest'].
  - rewrite WalkerFacts.loadFile_eq. cbn [io_bind io_ret]. now rewrite app_nil_r.
  - cbn [io_ret]. now rewrite app_nil_r.
Qed.

(** When every segment matches a folder, the walk ends in the directory
    that [descend] computes, and the last thing it does there is to load
    [index.md]. *)
Lemma walk_descend (segments : list string) :
  forall (currentPath : path) (acc : list string) (leaf : path),
    segments <> [] ->
    Walker.descend fs dir currentPath segments = Some leaf ->
    let index := Path.join [leaf; ["index.md"]] in
    exists middle l,
      walk fs dir segments currentPath acc
      = (Returned (acc ++ middle ++ push_if (docAt index) []), l)
      /\ (forall op, In op (probes index) -> In op l).
Proof.
  induction segments as [|segment rest IH]; intros currentPath acc leaf Hne Hdesc;
    [congruence|].
  cbn [Walker.descend] in Hdesc.
  destruct (matchedFolder currentPath segment) as [folder|] eqn:Hfolder;
    [|discriminate].
  rewrite (walk_matched segment rest currentPath acc folder Hfolder). cbv zeta.
  destruct rest as [|next rest'].
  - cbn [Walker.descend] in Hdesc. injection Hdesc as <-.
    exists (push_if (docAt (Path.join [Path.join [currentPath; [folder]]; ["_base.md"]])) []).
    eexists. split.
    + rewrite (WalkerFacts.push_if_app _ (push_if _ acc)).
      rewrite (WalkerFacts.push_if_app _ acc), <- app_assoc. reflexivity.
    + intros op Hop. rewrite !in_app_iff. right; right. exact Hop.
  - destruct (IH (Path.join [currentPath; [folder]])
                (push_if (docAt (Path.join [Path.join [currentPath; [folder]]; ["_base.md"]])) acc)
                leaf ltac:(discriminate) Hdesc) as [middle [l [Hwalk Hlog]]].
    rewrite Hwalk. cbn [io_value io_log fst snd].
    exists (push_if (docAt (Path.join [Path.join [currentPath; [folder]]; ["_base.md"]])) []
              ++ middle).
    eexists. split.
    + rewrite (WalkerFacts.push_if_app _ acc), <- !app_assoc. reflexivity.
    + intros op Hop. rewrite !in_app_iff. right; right. now apply Hlog.
Qed.

End Store.

(** *** Below a directory

    When the path of the instructions directory is plain, what is read
    below it depends on that directory alone. *)

Section Below.

Variable fs store : node.
Variable dir : path.
Hypothesis dir_plain : Forall plain dir.
Hypothesis dir_store : Fs.lookup fs dir = Some store.

Lemma docAt_below (rel : path) :
  Forall plain rel ->
  Walker.docAt fs dir rel
  = match Fs.lookup store rel with
    | Some (File (Some text)) => Some (Js.trim text)
    | _ => None
    end.
Proof using dir_plain dir_store.
  intros Hrel. unfold Walker.docAt.
  rewrite (PathFacts.lookup_below fs store dir [rel]); try assumption.
  - cbn [List.concat]. now rewrite app_nil_r.
  - cbn [List.concat]. now rewrite app_nil_r.
Qed.

Lemma probes_below (rel : path) :
  Forall plain rel ->
  Walker.probes fs dir rel
  = if bool_decide (is_Some (Fs.lookup store rel))
    then [ExistsSync (dir ++ rel); ReadFileSync (dir ++ rel)]
    else [ExistsSync (dir ++ rel)].
Proof using dir_plain dir_store.
  intros Hrel. unfold Walker.probes. cbv zeta.
  assert (Hc : Forall plain (List.concat [rel])).
  { cbn [List.concat]. now rewrite app_nil_r. }
  rewrite (PathFacts.lookup_below fs store dir [rel]) by assumption.
  rewrite (PathFacts.join_abs_plain dir [rel]) by assumption.
  cbn [List.concat]. now rewrite app_nil_r.
Qed.

Local Abbreviation firstFolder := (Walker.firstFolder store).
Local Abbreviation foldersLog := (Walker.foldersLog store dir).

Lemma tryFolders_below (currentPath : path) (folders : list string) :
  Forall plain currentPath -> Forall plain folders ->
  tryFolders fs dir currentPath folders
  = (Returned (firstFolder currentPath folders), foldersLog currentPath folders).
Proof using dir_plain dir_store.
  intros Hcur. induction 1 as [|folder others Hf Hothers IH]; [reflexivity|].
  cbn [tryFolders Walker.firstFolder Walker.foldersLog]. unfold existsSync.
  assert (Hc : Forall plain (List.concat [currentPath; [folder]])).
  { cbn [List.concat]. rewrite app_nil_r. apply Forall_app. split; [assumption|].
    now constructor. }
  rewrite (PathFacts.lookup_below fs store dir [currentPath; [folder]]) by assumption.
  rewrite (PathFacts.join_abs_plain dir [currentPath; [folder]]) by assumption.
  cbn [List.concat]. rewrite app_nil_r. cbn [io_bind].
  destruct (bool_decide _); [reflexivity|].
  rewrite IH. reflexivity.
Qed.

End Below.

End WalkSteps.


(** ** The configurations of a store *)

Module ConfigFacts.

Import Walker MultiSpec.

Lemma assoc_NoDup {V : Type} (es : list (string * V)) (k : string) (v : V) :
  NoDup (List.map fst es) -> In (k, v) es -> Fs.assoc k es = Some v.
Proof.
  induction es as [|[k' v'] es IH]; intros Hnd Hin; [destruct Hin|].
  cbn [List.map fst] in Hnd. inversion Hnd as [|? ? Hnotin Hnd']; subst.
  cbn [Fs.assoc]. destruct Hin as [[= -> ->] | Hin].
  - now rewrite String.eqb_refl.
  - destruct (String.eqb_spec k' k) as [->|Hne]; [|now apply IH].
    exfalso. apply Hnotin. apply list_elem_of_In.
    apply (in_map fst) in Hin. exact Hin.
Qed.

(** The test [config.domains && Array.isArray(config.domains)] passes
    exactly on an object whose member [domains] is a list. *)
Lemma domains_test (config : json) :
  match Json.member "domains" config with
  | Returned d => if Json.truthy d && Json.isArray d then Some (Json.items d) else None
  | Thrown _ => None
  end
  = match config with
    | JObj members =>
        match Json.assoc_last "domains" members with
        | Some (JArr patterns) => Some patterns
        | _ => None
        end
    | _ => None
    end.
Proof.
  destruct config as [|b|zero literal|s|items|members]; try reflexivity.
  cbn [Json.member].
  destruct (Json.assoc_last "domains" members) as [[|b|zero literal|s|items|ms]|];
    try reflexivity.
  - destruct b; reflexivity.
  - destruct zero; reflexivity.
  - cbn. destruct (Js.truthy s); reflexivity.
Qed.

Lemma map_set_fresh (k : string) (v : Multi.InstructionSetConfig) (m : Multi.ConfigMap) :
  ~ In k (List.map fst m) -> Multi.map_set k v m = m ++ [(k, v)].
Proof.
  induction m as [|[k' v'] m IH]; intros Hfresh; [reflexivity|].
  cbn [Multi.map_set]. cbn [List.map fst In] in Hfresh.
  destruct (String.eqb_spec k' k) as [->|Hne]; [tauto|].
  cbn [app]. f_equal. apply IH. tauto.
Qed.

Section Store.

Variable JSON_parse : string -> option json.
Variable fs : node.
Variable dir : path.
Variable entries : list (string * node).
Hypothesis dir_plain : Forall plain dir.
Hypothesis dir_entries : Fs.lookup fs dir = Some (Dir entries).
Hypothesis names_plain : Forall (fun entry => plain (fst entry)) entries.
Hypothesis names_distinct : NoDup (List.map fst entries).

(** One turn of the loop registers what the entry declares. *)
Lemma scanState_declares (entry : string * node) (s : Multi.Resolver) :
  In entry entries ->
  scanState JSON_parse fs dir (Fs.dirent entry) s
  = registered (fst entry) (declares JSON_parse entry) s.
Proof using dir_plain dir_entries names_plain names_distinct.
  intros Hin. destruct entry as [name n].
  assert (Hname : plain name).
  { rewrite List.Forall_forall in names_plain. exact (names_plain _ Hin). }
  unfold scanState, declares, hasConfig, configPathOf, declaredAt, Fs.dirent.
  cbn [fst snd Fs.name Fs.isDirectory].
  assert (Hplain : Forall plain (List.concat [[name]; ["_config.json"]])).
  { cbn [List.concat app].
    apply Forall_cons_2; [exact Hname|].
    apply Forall_cons_2; [repeat split; discriminate | apply Forall_nil_2]. }
  rewrite (PathFacts.lookup_below fs (Dir entries) dir _ dir_plain dir_entries Hplain).
  cbn [List.concat app Fs.lookup].
  rewrite (assoc_NoDup entries name n names_distinct Hin).
  destruct n as [content|es|es]; [reflexivity| |]; cbn [Fs.is_dir negb];
    (destruct (Fs.assoc "_config.json" es) as [[[text|]|es'|es']|]; try reflexivity;
     rewrite bool_decide_eq_true_2 by (now eexists);
     (destruct (JSON_parse text) as [config|]; [|reflexivity]);
     rewrite domains_test; reflexivity).
Qed.

Lemma instructionSets_names (es : list (string * node)) (name : string) :
  In name (List.map fst (instructionSets JSON_parse es)) ->
  In name (List.map fst es).
Proof.
  induction es as [|entry es IH]; [intros []|].
  unfold instructionSets. cbn [omap list_omap]. fold (instructionSets JSON_parse es).
  destruct (declares JSON_parse entry); cbn [List.map fst In]; intros Hin.
  - destruct Hin as [<- | Hin]; [now left | right; now apply IH].
  - right. now apply IH.
Qed.

(** The loop over a tail of the entries appends the sets that the tail
    declares to those registered so far. *)
Lemma scan_registers (es : list (string * node)) :
  forall (s : Multi.Resolver) (m : Multi.ConfigMap),
    (forall entry, In entry es -> In entry entries) ->
    NoDup (List.map fst es) ->
    (forall name, In name (List.map fst m) -> ~ In name (List.map fst es)) ->
    Multi.configCache s = Some m ->
    Multi.configCache
      (List.fold_left (fun s entry => scanState JSON_parse fs dir entry s)
         (List.map Fs.dirent es) s)
    = Some (m ++ instructionSets JSON_parse es).
Proof using dir_plain dir_entries names_plain names_distinct.
  induction es as [|entry es IH]; intros s m Hincl Hnd Hfresh Hcache.
  - cbn. now rewrite app_nil_r.
  - cbn [List.map List.fold_left].
    rewrite scanState_declares by (apply Hincl; now left).
    cbn [List.map fst] in Hnd. inversion Hnd as [|? ? Hnotin Hnd']; subst.
    unfold instructionSets. cbn [omap list_omap]. fold (instructionSets JSON_parse es).
    destruct (declares JSON_parse entry) as [patterns|] eqn:Hdecl; cbn [registered].
    + rewrite (IH _ (m ++ [(fst entry, {| Multi.domains := patterns |})])).
      * now rewrite <- app_assoc.
      * intros e He. apply Hincl. now right.
      * exact Hnd'.
      * intros name Hin. rewrite List.map_app, in_app_iff in Hin.
        destruct Hin as [Hin | [<- | []]].
        -- intros Hes. apply (Hfresh name Hin). now right.
        -- intros Hes. apply Hnotin. now apply list_elem_of_In.
      * unfold Multi.configCache_set, Multi.configCache_put.
        cbn [Multi.configCache]. rewrite Hcache. cbn [default]. f_equal.
        apply map_set_fresh. intros Hin. apply (Hfresh _ Hin). now left.
    + apply IH; try assumption.
      * intros e He. apply Hincl. now right.
      * intros name Hin Hes. apply (Hfresh name Hin). now right.
Qed.

End Store.

End ConfigFacts.


(** ** The documents of a call and the files it reads *)

Module TextFacts.

Import Document DocumentFacts Walker.

Lemma textsRead_app (fs : node) (l1 l2 : list fs_op) :
  textsRead fs (l1 ++ l2) = textsRead fs l1 ++ textsRead fs l2.
Proof. apply omap_app. Qed.

Section Store.

Variable fs : node.
Variable dir : path.

(** What [loadFile] gives to push is the trimmed text of the file it
    has read, and only when that text is not empty. *)
Lemma loaded_is_read (relativePath : path) :
  push_if (docAt fs dir relativePath) []
    `sublist_of` textsRead fs (Walker.probes fs dir relativePath).
Proof.
  unfold push_if, Walker.docAt, Walker.probes, textsRead. cbv zeta.
  destruct (Fs.lookup fs (Path.join_abs dir [relativePath])) as [[[text|]|es|es]|] eqn:Hl;
    try apply sublist_nil_l.
  rewrite bool_decide_eq_true_2 by (now eexists).
  cbn [omap list_omap textRead]. rewrite Hl.
  destruct (Js.truthy (Js.trim text)); [reflexivity | apply sublist_nil_l].
Qed.

Lemma tryFolders_reads_nothing (currentPath : path) (folders : list string) :
  textsRead fs (io_log (tryFolders fs dir currentPath folders)) = [].
Proof.
  induction folders as [|folder others IH]; [reflexivity|].
  cbn [tryFolders]. unfold existsSync, io_bind.
  destruct (bool_decide _); [reflexivity|].
  destruct (tryFolders fs dir currentPath others) as [o l]. exact IH.
Qed.

(** The walk adds documents only, each the trimmed text of a file it
    has read, in the order in which it has read them. *)
Lemma walk_reads (segments : list string) :
  forall currentPath acc,
    exists added l,
      walk fs dir segments currentPath acc = (Returned (acc ++ added), l)
      /\ Forall document added
      /\ added `sublist_of` textsRead fs l.
Proof.
  induction segments as [|segment rest IH]; intros currentPath acc.
  - exists [], []. rewrite app_nil_r. split; [reflexivity|]. split; constructor.
  - assert (Hdoc : forall rel, Forall document (push_if (docAt fs dir rel) [])).
    { intros rel. apply push_if_document; [apply WalkerFacts.docAt_document | constructor]. }
    assert (Htry : textsRead fs (tryLog fs dir currentPath segment) = [])
      by apply tryFolders_reads_nothing.
    destruct (matchedFolder fs dir currentPath segment) as [folder|] eqn:Hm.
    + rewrite (WalkSteps.walk_matched fs dir segment rest currentPath acc folder Hm).
      cbv zeta.
      set (inside := Path.join [currentPath; [folder]]).
      set (base := Path.join [inside; ["_base.md"]]).
      set (index := Path.join [inside; ["index.md"]]).
      destruct rest as [|next rest'].
      * exists (push_if (docAt fs dir base) [] ++ push_if (docAt fs dir index) []).
        eexists. split; [|split].
        -- rewrite (WalkerFacts.push_if_app _ (push_if _ acc)).
           rewrite (WalkerFacts.push_if_app _ acc), <- app_assoc. reflexivity.
        -- apply Forall_app; split; apply Hdoc.
        -- rewrite !textsRead_app, Htry. cbn [app].
           apply sublist_app; apply loaded_is_read.
      * destruct (IH inside (push_if (docAt fs dir base) acc))
          as [added [l [Hwalk [Hadded Hsub]]]].
        rewrite Hwalk. cbn [io_value io_log fst snd].
        exists (push_if (docAt fs dir base) [] ++ added). eexists. split; [|split].
        -- rewrite (WalkerFacts.push_if_app _ acc), <- app_assoc. reflexivity.
        -- apply Forall_app; split; [apply Hdoc | exact Hadded].
        -- rewrite !textsRead_app, Htry. cbn [app].
           apply sublist_app; [apply loaded_is_read | exact Hsub].
    + rewrite (WalkSteps.walk_unmatched fs dir segment rest currentPath acc Hm).
      cbv zeta.
      destruct rest as [|next rest'].
      * exists (push_if (docAt fs dir (Path.join [currentPath; [segment +:+ ".md"]])) []).
        eexists. split; [|split].
        -- rewrite (WalkerFacts.push_if_app _ acc). reflexivity.
        -- apply Hdoc.
        -- rewrite textsRead_app, Htry. apply loaded_is_read.
      * exists []. eexists. split; [|split].
        -- rewrite app_nil_r. reflexivity.
        -- constructor.
        -- apply sublist_nil_l.
Qed.

Lemma exactMatch_reads (parentPath : path) (lastSegment : string) (acc : list string) :
  exists added l,
    exactMatch fs dir parentPath lastSegment acc = (Returned (acc ++ added), l)
    /\ Forall document added
    /\ added `sublist_of` textsRead fs l.
Proof.
  unfold exactMatch. rewrite WalkerFacts.loadFile_eq. cbn [io_bind].
  set (rel := Path.join [parentPath; [lastSegment +:+ ".md"]]).
  pose proof (loaded_is_read rel) as Hsub.
  pose proof (push_if_document (docAt fs dir rel) []
                (WalkerFacts.docAt_document fs dir rel) ltac:(constructor)) as Hdoc.
  unfold push_if in Hsub, Hdoc.
  destruct (docAt fs dir rel) as [d|].
  - destruct (Js.truthy d); cbn [andb].
    + destruct (negb (Js.includes acc d)); cbn [io_ret].
      * exists [d]. eexists. rewrite app_nil_r. split; [reflexivity|]. now split.
      * exists []. eexists. rewrite !app_nil_r. split; [reflexivity|].
        split; [constructor | apply sublist_nil_l].
    + cbn [io_ret]. exists []. eexists. rewrite !app_nil_r. split; [reflexivity|].
      split; [constructor | apply sublist_nil_l].
  - cbn [io_ret]. exists []. eexists. rewrite !app_nil_r. split; [reflexivity|].
    split; [constructor | apply sublist_nil_l].
Qed.

(** Gathering never throws; what it gathers are documents, each the
    trimmed text of a file it has read, in the order of the reading. *)
Lemma gather_reads (rootBase start parent : path) (segments : list string) :
  exists docs l,
    Gather.gather fs dir rootBase start parent segments = (Returned docs, l)
    /\ Forall document docs
    /\ docs `sublist_of` textsRead fs l.
Proof.
  unfold Gather.gather. rewrite WalkerFacts.loadFile_eq. cbn [io_bind].
  pose proof (push_if_document _ [] (WalkerFacts.docAt_document fs dir rootBase)
                ltac:(constructor)) as Hroot.
  pose proof (loaded_is_read rootBase) as Hrootsub.
  destruct (walk_reads segments start (push_if (docAt fs dir rootBase) []))
    as [added [l [-> [Hadded Hsub]]]].
  cbn [io_bind].
  destruct (Nat.ltb 0 (List.length segments)).
  - destruct (exactMatch_reads parent (List.last segments "")
                (push_if (docAt fs dir rootBase) [] ++ added))
      as [extra [l' [-> [Hextra Hsub']]]].
    eexists _, _. split; [reflexivity|]. split.
    + repeat (apply Forall_app; split); assumption.
    + rewrite !textsRead_app, <- app_assoc.
      repeat apply sublist_app; assumption.
  - cbn [io_ret]. eexists _, _. split; [reflexivity|]. split.
    + apply Forall_app; split; assumption.
    + rewrite !textsRead_app, app_nil_r. apply sublist_app; assumption.
Qed.

End Store.

End TextFacts.


(** * The claims of the specification *)

(** ** Scenario A *)

Module ScenarioA.

Import Document DocumentFacts Walker Gather SingleSpec Examples.

Ltac plain_paths :=
  repeat first [apply Forall_nil_2 | apply Forall_cons_2];
  repeat split; discriminate.

(** What the resolution of [/seo/dashboard/123] gathers in the store of
    the scenario, and the accesses it makes: nothing is asked about
    [123] but the exact sibling file of step 3. *)
Lemma gather_scenario (fs : node) (dir : path) (rootBase seoBase : string) :
  Forall plain dir ->
  Fs.lookup fs dir = Some (scenarioA rootBase seoBase) ->
  Js.trim rootBase <> "" ->
  Js.trim seoBase <> "" ->
  Gather.gather fs dir ["_base.md"] [] ["seo"; "dashboard"] ["seo"; "dashboard"; "123"]
  = (Returned [Js.trim rootBase; Js.trim seoBase],
     [ExistsSync (dir ++ ["_base.md"]);
      ReadFileSync (dir ++ ["_base.md"]);
      ExistsSync (dir ++ ["seo"]);
      ExistsSync (dir ++ ["seo"; "_base.md"]);
      ReadFileSync (dir ++ ["seo"; "_base.md"]);
      ExistsSync (dir ++ ["seo"; "dashboard"]);
      ExistsSync (dir ++ ["seo"; "dashboard"; "123.md"])]).
Proof.
  intros Hdir Hstore Hroot%truthy_true Hseo%truthy_true.
  pose proof (WalkSteps.docAt_below fs _ dir Hdir Hstore) as Hdoc.
  pose proof (WalkSteps.probes_below fs _ dir Hdir Hstore) as Hprobes.
  pose proof (WalkSteps.tryFolders_below fs _ dir Hdir Hstore) as Htry.
  assert (Hseo_folder : Walker.matchedFolder fs dir [] "seo" = Some "seo").
  { unfold Walker.matchedFolder.
    change (foldersToTry "seo") with ["seo"].
    rewrite Htry by plain_paths. reflexivity. }
  assert (Hdashboard : Walker.matchedFolder fs dir ["seo"] "dashboard" = None).
  { unfold Walker.matchedFolder.
    change (foldersToTry "dashboard") with ["dashboard"].
    rewrite Htry by plain_paths. reflexivity. }
  unfold Gather.gather. rewrite WalkerFacts.loadFile_eq. cbn [io_bind].
  rewrite (WalkSteps.walk_matched fs dir "seo" _ [] _ "seo" Hseo_folder).
  cbv zeta.
  change (Path.join [[]; ["seo"]]) with ["seo"].
  change (Path.join [["seo"]; ["_base.md"]]) with ["seo"; "_base.md"].
  rewrite (WalkSteps.walk_unmatched fs dir "dashboard" _ ["seo"] _ Hdashboard).
  cbn [io_value io_log fst snd io_bind].
  unfold Walker.tryLog.
  change (foldersToTry "seo") with ["seo"].
  change (foldersToTry "dashboard") with ["dashboard"].
  rewrite !Htry by plain_paths.
  unfold exactMatch. rewrite WalkerFacts.loadFile_eq.
  change (Path.join [["seo"; "dashboard"]; ["123" +:+ ".md"]])
    with ["seo"; "dashboard"; "123.md"].
  rewrite !Hdoc, !Hprobes by plain_paths.
  unfold scenarioA. cbn -[Js.trim Js.truthy].
  unfold push_if. rewrite Hroot. cbn [app]. rewrite Hseo. reflexivity.
Qed.

(** C7, as amended.  Scenario A.  In a store that holds a root
    [_base.md] and [seo/_base.md] and nothing else, both with a text that
    is not blank, resolving the path [/seo/dashboard/123] returns the
    root base document and the [seo] base document with, between them,
    the separator: two line feeds, three hyphens and two line feeds.
    The accesses show the course of the walk: [seo] is a folder and its
    base is read; [seo/dashboard] is looked for and is not there, which
    ends the loop; nothing is asked about a folder for [123]; the only
    leaf file looked for is the sibling [seo/dashboard/123.md] of step 3,
    and it is absent. *)
Theorem scenario_A (URL_parse : string -> option URL) (fs : node)
  (st : Single.Resolver) (url rootBase seoBase : string) :
  Single.cache st !! url = None ->
  Single.pathnameOf URL_parse url = "/seo/dashboard/123" ->
  Forall plain (Single.instructionsDir st) ->
  Fs.lookup fs (Single.instructionsDir st) = Some (scenarioA rootBase seoBase) ->
  Js.trim rootBase <> "" ->
  Js.trim seoBase <> "" ->
  let dir := Single.instructionsDir st in
  let lf := String "010" "" in
  let text :=
    Js.trim rootBase +:+ lf +:+ lf +:+ "---" +:+ lf +:+ lf +:+ Js.trim seoBase in
  Single.resolve URL_parse fs url st
  = (Returned (Some text),
     Single.cache_set url (Some text) st,
     [ExistsSync (dir ++ ["_base.md"]);
      ReadFileSync (dir ++ ["_base.md"]);
      ExistsSync (dir ++ ["seo"]);
      ExistsSync (dir ++ ["seo"; "_base.md"]);
      ReadFileSync (dir ++ ["seo"; "_base.md"]);
      ExistsSync (dir ++ ["seo"; "dashboard"]);
      ExistsSync (dir ++ ["seo"; "dashboard"; "123.md"])]).
Proof.
  intros Hmiss Hpath Hdir Hstore Hroot Hseo dir lf text.
  destruct (SingleFacts.single_miss URL_parse fs url st Hmiss)
    as [docs [l [Hg [_ ->]]]].
  unfold SingleSpec.gathered in Hg. rewrite Hpath in Hg.
  change (segmentsOf "/seo/dashboard/123") with ["seo"; "dashboard"; "123"] in Hg.
  change (List.removelast ["seo"; "dashboard"; "123"]) with ["seo"; "dashboard"] in Hg.
  rewrite (gather_scenario fs _ rootBase seoBase Hdir Hstore Hroot Hseo) in Hg.
  injection Hg as <- <-. reflexivity.
Qed.

(** The scenario on a concrete file system. *)
Lemma scenario_A_witness :
  let lf := String "010" "" in
  let text := "Root." +:+ lf +:+ lf +:+ "---" +:+ lf +:+ lf +:+ "Seo." in
  Single.resolve Lite.URL_parse (mount (scenarioA "Root." "Seo."))
    "/seo/dashboard/123" (Single.create pluginRoot)
  = (Returned (Some text),
     Single.cache_set "/seo/dashboard/123" (Some text) (Single.create pluginRoot),
     [ExistsSync ["plugin"; "instructions"; "_base.md"];
      ReadFileSync ["plugin"; "instructions"; "_base.md"];
      ExistsSync ["plugin"; "instructions"; "seo"];
      ExistsSync ["plugin"; "instructions"; "seo"; "_base.md"];
      ReadFileSync ["plugin"; "instructions"; "seo"; "_base.md"];
      ExistsSync ["plugin"; "instructions"; "seo"; "dashboard"];
      ExistsSync ["plugin"; "instructions"; "seo"; "dashboard"; "123.md"]]).
Proof.
  apply (scenario_A Lite.URL_parse (mount (scenarioA "Root." "Seo."))
           (Single.create pluginRoot) "/seo/dashboard/123" "Root." "Seo.").
  - reflexivity.
  - reflexivity.
  - vm_compute. plain_paths.
  - reflexivity.
  - vm_compute. discriminate.
  - vm_compute. discriminate.
Defined.

(** C7, as stated, fails in a store of the scenario whose root
    [_base.md] is blank: the result is the [seo] base document alone,
    not an empty root document, the separator and the [seo] document. *)
Lemma blank_base_is_left_out :
  let lf := String "010" "" in
  let r := Single.resolve Lite.URL_parse (mount (scenarioA " " "Seo."))
             "/seo/dashboard/123" (Single.create pluginRoot) in
  result_of r = Returned (Some "Seo.")
  /\ result_of r
     <> Returned (Some (Js.trim " " +:+ lf +:+ lf +:+ "---" +:+ lf +:+ lf +:+ "Seo.")).
Proof.
  cbv zeta. split; [vm_compute; reflexivity|]. vm_compute. discriminate.
Qed.

End ScenarioA.


(** ** Blank files and the shape of the output *)

Module OutputShape.

Import Document DocumentFacts Gather MultiSpec Examples.

(** A returned text is made of documents, from whatever state that a
    resolver can be in. *)
Lemma returned_well_merged (URL_parse : string -> option URL)
  (JSON_parse : string -> option json) (fs : node) (url : string)
  (st : Multi.Resolver) (res : option string) :
  reachable URL_parse JSON_parse st ->
  result_of (Multi.resolve URL_parse JSON_parse fs url st) = Returned res ->
  well_merged res.
Proof.
  intros Hreach Hres.
  pose proof (MultiFacts.reachable_cache_ok URL_parse JSON_parse _
                (reach_resolve URL_parse JSON_parse fs url st Hreach)) as Hok.
  apply (Hok url res).
  now apply MultiFacts.returned_is_cached.
Qed.

(** C10, as amended.  A file whose content trims to the empty text is
    pushed like an absent one, that is, not at all.  So in a call that
    does not answer from the cache, the text that [resolve] returns is
    the join, by the separator, of a list of documents that is not
    empty; each of them is the trimmed text of a file that the call has
    read, in the order of the reading, is not empty and has no white
    space at either end; and the trimmed text of a blank file that was
    read is none of them.  From any state that a resolver can be in,
    [resolve] never returns the empty text.  (A document may hold the
    text of the separator, so the pieces into which the separator cuts
    the output need not be these documents.) *)
Theorem output_is_joined_documents (URL_parse : string -> option URL)
  (JSON_parse : string -> option json) (fs : node) (url : string)
  (st : Multi.Resolver) (output : string) :
  reachable URL_parse JSON_parse st ->
  let r := Multi.resolve URL_parse JSON_parse fs url st in
  result_of r = Returned (Some output) ->
  output <> ""
  /\ (Multi.cache st !! url = None ->
      exists docs,
        output = Js.join separator docs
        /\ docs <> []
        /\ Forall document docs
        /\ docs `sublist_of` Walker.textsRead fs (log_of r)
        /\ (forall p text,
               In (ReadFileSync p) (log_of r) ->
               Fs.lookup fs p = Some (File (Some text)) ->
               Js.trim text = "" ->
               ~ In (Js.trim text) docs)).
Proof.
  intros Hreach r Hres. split.
  - destruct (returned_well_merged _ _ _ _ _ _ Hreach Hres)
      as [Hnone | [docs [Hne [Hdocs Heq]]]]; [discriminate|].
    injection Heq as ->. now apply join_nonempty.
  - intros Hmiss. subst r.
    destruct (URL_parse url) as [parsed|] eqn:Hparse.
    2:{ rewrite (MultiFacts.resolve_unparsable URL_parse JSON_parse fs url st Hmiss Hparse)
          in Hres. discriminate. }
    destruct (Multi.findInstructionSet JSON_parse fs (hostname parsed) st)
      as [[[found|e] s1] l1] eqn:Hfind.
    2:{ rewrite (MultiFacts.resolve_thrown URL_parse JSON_parse fs url st s1 parsed e l1
                   Hmiss Hparse Hfind) in Hres. discriminate. }
    destruct (Js.truthy_opt found) eqn:Ht.
    2:{ rewrite (MultiFacts.resolve_no_set URL_parse JSON_parse fs url st s1 parsed found l1
                   Hmiss Hparse Hfind Ht) in Hres. discriminate. }
    destruct (MultiFacts.resolve_in_set URL_parse JSON_parse fs url st s1 parsed found l1
                Hmiss Hparse Hfind Ht) as [docs [l [Hg [_ Hr]]]].
    unfold gathered in Hg. cbv zeta in Hg.
    destruct (TextFacts.gather_reads fs (Multi.instructionsDir st)
                (Path.join [[default "" found]; ["_base.md"]]) [default "" found]
                (Path.join [[default "" found]; List.removelast (segmentsOf (pathname parsed))])
                (segmentsOf (pathname parsed)))
      as [docs' [l' [Hg' [Hdocs Hsub]]]].
    rewrite Hg in Hg'. injection Hg' as <- <-.
    rewrite Hr in Hres |- *. cbn [result_of log_of fst snd] in *.
    unfold merge in Hres.
    destruct docs as [|d rest]; [discriminate|].
    cbn [List.length Nat.ltb Nat.leb] in Hres. injection Hres as <-.
    exists (d :: rest). split; [reflexivity|]. split; [discriminate|].
    split; [exact Hdocs|]. split.
    + rewrite TextFacts.textsRead_app. now apply sublist_inserts_l.
    + intros p text _ _ Hblank Hin. rewrite Hblank in Hin.
      rewrite List.Forall_forall in Hdocs. destruct (Hdocs "" Hin) as [Hne _].
      now apply Hne.
Qed.

Lemma output_is_joined_documents_witness :
  let fs := tenants " BASE " in
  let r := Multi.resolve Lite.URL_parse Lite.JSON_parse fs
             "https://www.semrush.com/seo/" (Multi.create pluginRoot) in
  let output := "BASE" +:+ separator +:+ "SEO" +:+ separator +:+ "INDEX" in
  output <> ""
  /\ (Multi.cache (Multi.create pluginRoot) !! "https://www.semrush.com/seo/" = None ->
      exists docs,
        output = Js.join separator docs
        /\ docs <> []
        /\ Forall document docs
        /\ docs `sublist_of` Walker.textsRead fs (log_of r)
        /\ (forall p text,
               In (ReadFileSync p) (log_of r) ->
               Fs.lookup fs p = Some (File (Some text)) ->
               Js.trim text = "" ->
               ~ In (Js.trim text) docs)).
Proof.
  apply (output_is_joined_documents Lite.URL_parse Lite.JSON_parse (tenants " BASE ")
           "https://www.semrush.com/seo/" (Multi.create pluginRoot)).
  - apply reach_create.
  - vm_compute. reflexivity.
Defined.

(** C10, as stated, fails: a document that holds a horizontal rule
    followed by a blank line is returned as it is, and the separator cuts
    it into two blocks, the second of which starts with a line feed. *)
Lemma blocks_are_not_documents :
  result_of (Multi.resolve Lite.URL_parse Lite.JSON_parse (tenants ruled)
               "https://semrush.com/" (Multi.create pluginRoot))
  = Returned (Some ruled)
  /\ blocks ruled = ["A"; String "010" "B"]
  /\ ~ Forall document (blocks ruled).
Proof.
  split; [vm_compute; reflexivity|]. split; [vm_compute; reflexivity|].
  intros Hall. change (blocks ruled) with ["A"; String "010" "B"] in Hall.
  apply Forall_cons_1 in Hall as [_ Hall].
  apply Forall_cons_1 in Hall as [[_ [Hlead _]] _].
  specialize (Hlead "010"%char "B" eq_refl). vm_compute in Hlead. discriminate.
Qed.

End OutputShape.


(** ** A string that is no URL *)

Module MalformedUrl.

Import Document DocumentFacts Gather SingleSpec MultiSpec Examples.

(** A resolver that can be reached has only absent results cached for
    strings that are no URLs, so a call on such a string returns absent
    whether it hits the cache or not. *)
Lemma multi_absent (URL_parse : string -> option URL)
  (JSON_parse : string -> option json) (fs : node) (url : string)
  (st : Multi.Resolver) :
  URL_parse url = None ->
  reachable URL_parse JSON_parse st ->
  let r := Multi.resolve URL_parse JSON_parse fs url st in
  result_of r = Returned None
  /\ Multi.cache (state_of r) !! url = Some None
  /\ log_of r = [].
Proof.
  intros Hparse Hreach. cbv zeta.
  destruct (Multi.cache st !! url) as [hit|] eqn:Hc.
  - rewrite (MultiFacts.resolve_hit URL_parse JSON_parse fs url st hit Hc).
    destruct (MultiFacts.reachable_cache_ok URL_parse JSON_parse st Hreach url hit Hc)
      as [_ Hnone].
    rewrite (Hnone Hparse) in *. repeat split. exact Hc.
  - rewrite (MultiFacts.resolve_unparsable URL_parse JSON_parse fs url st Hc Hparse).
    repeat split. apply lookup_insert_eq.
Qed.

(** C6.  Let a string fail to parse as a URL.  The single-tenant
    [resolve] never throws, and when the string is not in its cache it
    gathers along the segments of the string taken as a path, with [/]
    put before it unless it starts with one, and caches and returns what
    that gives.  The multi-tenant [resolve], in any state a resolver can
    be in, returns absent without reading the store, and absent is then
    cached under the string as it was given. *)
Theorem malformed_url (URL_parse : string -> option URL)
  (JSON_parse : string -> option json) (fs : node) (url : string)
  (single : Single.Resolver) (multi : Multi.Resolver) :
  URL_parse url = None ->
  reachable URL_parse JSON_parse multi ->
  let segments := segmentsOf (literalPath url) in
  let s := Single.resolve URL_parse fs url single in
  let m := Multi.resolve URL_parse JSON_parse fs url multi in
  (exists r, result_of s = Returned r)
  /\ (Single.cache single !! url = None ->
      exists docs l,
        Gather.gather fs (Single.instructionsDir single) ["_base.md"] []
          (List.removelast segments) segments = (Returned docs, l)
        /\ s = (Returned (merge docs), Single.cache_set url (merge docs) single, l))
  /\ result_of m = Returned None
  /\ Multi.cache (state_of m) !! url = Some None
  /\ log_of m = [].
Proof.
  intros Hparse Hreach segments s m. split; [|split].
  - apply SingleFacts.single_returns.
  - intros Hmiss.
    destruct (SingleFacts.single_miss URL_parse fs url single Hmiss)
      as [docs [l [Hg [_ Hs]]]].
    exists docs, l. split; [|exact Hs].
    unfold SingleSpec.gathered, Single.pathnameOf in Hg. rewrite Hparse in Hg.
    exact Hg.
  - now apply multi_absent.
Qed.

Lemma malformed_url_witness :
  let segments := segmentsOf (literalPath "seo/dashboard/123") in
  let s := Single.resolve Lite.URL_parse (mount (scenarioA "Root." "Seo."))
             "seo/dashboard/123" (Single.create pluginRoot) in
  let m := Multi.resolve Lite.URL_parse Lite.JSON_parse (mount (scenarioA "Root." "Seo."))
             "seo/dashboard/123" (Multi.create pluginRoot) in
  (exists r, result_of s = Returned r)
  /\ (Single.cache (Single.create pluginRoot) !! "seo/dashboard/123" = None ->
      exists docs l,
        Gather.gather (mount (scenarioA "Root." "Seo."))
          (Single.instructionsDir (Single.create pluginRoot)) ["_base.md"] []
          (List.removelast segments) segments = (Returned docs, l)
        /\ s = (Returned (merge docs),
                Single.cache_set "seo/dashboard/123" (merge docs)
                  (Single.create pluginRoot), l))
  /\ result_of m = Returned None
  /\ Multi.cache (state_of m) !! "seo/dashboard/123" = Some None
  /\ log_of m = [].
Proof.
  apply (malformed_url Lite.URL_parse Lite.JSON_parse (mount (scenarioA "Root." "Seo."))
           "seo/dashboard/123" (Single.create pluginRoot) (Multi.create pluginRoot)).
  - reflexivity.
  - apply reach_create.
Defined.

End MalformedUrl.


(** ** Clearing the caches *)

Module ClearCache.

Import MultiSpec Examples.

(** A call starts with the first access of its first step. *)
Lemma bind_log_head {S A B : Type} (m : M S A) (f : A -> M S B) (s : S)
  (op : fs_op) (rest : list fs_op) :
  log_of (m s) = op :: rest ->
  exists rest', log_of (m_bind m f s) = op :: rest'.
Proof.
  intros Hlog. rewrite RunFacts.bind_eq.
  destruct (m s) as [[[a|e] s1] l1]; cbn [log_of snd] in Hlog; subst l1.
  - rewrite RunFacts.log_after. eexists. reflexivity.
  - eexists. reflexivity.
Qed.

(** With no configurations cached, [loadConfigs] starts by looking for the
    instructions directory. *)
Lemma loadConfigs_starts (JSON_parse : string -> option json) (fs : node)
  (s : Multi.Resolver) :
  Multi.configCache s = None ->
  exists rest,
    log_of (Multi.loadConfigs JSON_parse fs s)
    = ExistsSync (Multi.instructionsDir s) :: rest.
Proof.
  intros Hnone. unfold Multi.loadConfigs.
  rewrite RunFacts.bind_get, Hnone, RunFacts.bind_put.
  unfold existsSync. rewrite RunFacts.bind_lift, RunFacts.log_after.
  eexists. reflexivity.
Qed.

(** C9.  The multi-tenant [clearCache] returns at once, having emptied
    the resolution cache and reset the config cache, and leaves the path
    of the instructions directory as it was.  After it, [resolve] against
    any store does what it does on a resolver that was just created on
    that directory: nothing cached before the clear can answer, and for a
    string that parses as a URL the call starts by looking for the
    instructions directory, to load the configurations anew.  Scenario D
    on concrete stores: a URL resolved to [OLD] still resolves to [OLD]
    from the cache when the store has changed; after [clearCache] it
    resolves to [NEW], read from the changed store. *)
Theorem clearCache_resets (URL_parse : string -> option URL)
  (JSON_parse : string -> option json) (st : Multi.Resolver) (fs' : node)
  (url : string) :
  let cleared := state_of (Multi.clearCache st) in
  Multi.clearCache st = (Returned tt, fresh (Multi.instructionsDir st), [])
  /\ Multi.instructionsDir cleared = Multi.instructionsDir st
  /\ Multi.cache cleared = ∅
  /\ Multi.configCache cleared = None
  /\ Multi.resolve URL_parse JSON_parse fs' url cleared
     = Multi.resolve URL_parse JSON_parse fs' url (fresh (Multi.instructionsDir st))
  /\ match URL_parse url with
     | Some _ =>
         exists rest,
           log_of (Multi.resolve URL_parse JSON_parse fs' url cleared)
           = ExistsSync (Multi.instructionsDir st) :: rest
     | None =>
         result_of (Multi.resolve URL_parse JSON_parse fs' url cleared) = Returned None
     end
  /\ result_of (Multi.resolve Lite.URL_parse Lite.JSON_parse (tenants "OLD") scenarioD_page
                  (Multi.create pluginRoot)) = Returned (Some "OLD")
  /\ Multi.resolve Lite.URL_parse Lite.JSON_parse (tenants "NEW") scenarioD_page scenarioD_cached
     = (Returned (Some "OLD"), scenarioD_cached, [])
  /\ result_of (Multi.resolve Lite.URL_parse Lite.JSON_parse (tenants "NEW") scenarioD_page
                  (state_of (Multi.clearCache scenarioD_cached))) = Returned (Some "NEW")
  /\ log_of (Multi.resolve Lite.URL_parse Lite.JSON_parse (tenants "NEW") scenarioD_page
               (state_of (Multi.clearCache scenarioD_cached)))
     = [ExistsSync ["plugin"; "instructions"];
        ReaddirSync ["plugin"; "instructions"];
        ExistsSync ["plugin"; "instructions"; "semrush"; "_config.json"];
        ReadFileSync ["plugin"; "instructions"; "semrush"; "_config.json"];
        ExistsSync ["plugin"; "instructions"; "semrush"; "_base.md"];
        ReadFileSync ["plugin"; "instructions"; "semrush"; "_base.md"]].
Proof.
  cbv zeta.
  assert (Hclear : Multi.clearCache st
                   = (Returned tt, fresh (Multi.instructionsDir st), [])).
  { unfold Multi.clearCache. rewrite RunFacts.bind_get. reflexivity. }
  rewrite Hclear. cbn [state_of fst snd].
  do 5 (split; [reflexivity|]).
  split; [|repeat split; vm_compute; reflexivity].
  destruct (URL_parse url) as [parsed|] eqn:Hp.
  - unfold Multi.resolve. rewrite RunFacts.bind_get.
    cbn [fresh Multi.cache]. rewrite lookup_empty, Hp.
    destruct (loadConfigs_starts JSON_parse fs' (fresh (Multi.instructionsDir st))
                eq_refl) as [rest Hrest].
    unfold Multi.findInstructionSet.
    destruct (bind_log_head _ (fun configs => check (Multi.firstMatch (hostname parsed) configs))
                _ _ _ Hrest) as [rest' Hrest'].
    eapply bind_log_head. exact Hrest'.
  - rewrite (MultiFacts.resolve_unparsable URL_parse JSON_parse fs' url _
               (lookup_empty _) Hp).
    reflexivity.
Qed.

End ClearCache.


(** ** Two calls in succession *)

Module Idempotence.

Import MultiSpec Examples.

(** When the first call returns, the cache holds what it returned under
    the URL as given, and the second call returns the same from the
    cache and reads nothing, whatever the store is by then. *)
Lemma returned_then_cached (URL_parse : string -> option URL)
  (JSON_parse : string -> option json) (fs fs' : node) (url : string)
  (st : Multi.Resolver) (res : option string) :
  result_of (Multi.resolve URL_parse JSON_parse fs url st) = Returned res ->
  let st1 := state_of (Multi.resolve URL_parse JSON_parse fs url st) in
  Multi.cache st1 !! url = Some res
  /\ Multi.resolve URL_parse JSON_parse fs' url st1 = (Returned res, st1, []).
Proof.
  intros Hres st1. split.
  - now apply MultiFacts.returned_is_cached.
  - now apply MultiFacts.second_call.
Qed.

(** C4 at a store in which the pattern list of a set holds the number
    42.  The set is registered; matching the hostname against the number
    throws out of [matchDomain], through [findInstructionSet] and out of
    [resolve].  The call returns nothing and caches nothing, and so does
    the second call. *)
Theorem number_pattern_throws :
  let url := "https://example.com/" in
  let first := Multi.resolve Lite.URL_parse Lite.JSON_parse numberPattern url
                 (Multi.create pluginRoot) in
  let second := Multi.resolve Lite.URL_parse Lite.JSON_parse numberPattern url
                  (state_of first) in
  Multi.configCache (state_of first)
  = Some [("acme", {| Multi.domains := [JNum false "42"] |})]
  /\ Multi.matchDomain "example.com" (JNum false "42") = Thrown TypeError
  /\ result_of first = Thrown TypeError
  /\ Multi.cache (state_of first) !! url = None
  /\ result_of second = Thrown TypeError
  /\ Multi.cache (state_of second) !! url = None.
Proof.
  cbv zeta. repeat split; vm_compute; reflexivity.
Qed.

(** A second store of the kind: [instructions] is a file.  [existsSync]
    finds it, [readdirSync] throws, and the config cache, set to an empty
    map just before, stays so: the first call throws and the second
    returns absent. *)
Lemma instructions_file_throws_then_absent :
  let url := "https://example.com/" in
  let first := Multi.resolve Lite.URL_parse Lite.JSON_parse instructionsIsFile url
                 (Multi.create pluginRoot) in
  let second := Multi.resolve Lite.URL_parse Lite.JSON_parse instructionsIsFile url
                  (state_of first) in
  result_of first = Thrown FsError
  /\ Multi.configCache (state_of first) = Some []
  /\ result_of second = Returned None.
Proof.
  cbv zeta. repeat split; vm_compute; reflexivity.
Qed.

End Idempotence.

(** ** A file included twice *)

Module Duplication.

Import Document Examples.

(** The sibling file of step 3 is added only when its text is none of
    the texts gathered before it. *)
Lemma exact_match_is_new (fs : node) (dir parentPath : path) (lastSegment : string)
  (acc : list string) :
  exists added l,
    exactMatch fs dir parentPath lastSegment acc = (Returned (acc ++ added), l)
    /\ Forall (fun d => Js.includes acc d = false) added.
Proof.
  destruct (WalkerFacts.exactMatch_total fs dir parentPath lastSegment acc)
    as [added [l [Heq [_ Hnew]]]].
  now exists added, l.
Qed.

(** C5 at the path [/_base].  The segment [_base] matches no folder and
    is the last one, so the loop loads [_base.md] of the current
    directory as a page file and pushes it, with no look at what is
    already gathered: the root base document, read from the same file, is
    in the output twice.  Both classes do so. *)
Theorem base_document_twice :
  let multi := Multi.resolve Lite.URL_parse Lite.JSON_parse (tenants "BASE")
                 "https://semrush.com/_base" (Multi.create pluginRoot) in
  let single := Single.resolve Lite.URL_parse (rootOnly "ROOT") "/_base"
                  (Single.create pluginRoot) in
  result_of multi = Returned (Some ("BASE" +:+ separator +:+ "BASE"))
  /\ List.filter
       (fun op => match op with ReadFileSync _ => true | _ => false end)
       (log_of multi)
     = [ReadFileSync ["plugin"; "instructions"; "semrush"; "_config.json"];
        ReadFileSync ["plugin"; "instructions"; "semrush"; "_base.md"];
        ReadFileSync ["plugin"; "instructions"; "semrush"; "_base.md"];
        ReadFileSync ["plugin"; "instructions"; "semrush"; "_base.md"]]
  /\ result_of single = Returned (Some ("ROOT" +:+ separator +:+ "ROOT"))
  /\ blocks ("ROOT" +:+ separator +:+ "ROOT") = ["ROOT"; "ROOT"].
Proof.
  cbv zeta. repeat split; vm_compute; reflexivity.
Qed.

End Duplication.


(** ** Which directories become instruction sets *)

Module Registration.

Import Walker MultiSpec Examples.

Lemma in_instructionSets (JSON_parse : string -> option json)
  (entries : list (string * node)) (name : string) (patterns : list json) :
  In (name, {| Multi.domains := patterns |}) (instructionSets JSON_parse entries)
  <-> exists n, In (name, n) entries /\ declares JSON_parse (name, n) = Some patterns.
Proof.
  unfold instructionSets. rewrite <- list_elem_of_In, list_elem_of_omap. split.
  - intros [[name' n] [Hin Hsome]]. cbn [fst] in Hsome.
    destruct (declares JSON_parse (name', n)) as [ps|] eqn:Hd; [|discriminate].
    injection Hsome as -> ->. exists n. split; [|exact Hd].
    now apply list_elem_of_In.
  - intros [n [Hin Hd]]. exists (name, n). split.
    + now apply list_elem_of_In.
    + rewrite Hd. reflexivity.
Qed.

(** C2, as amended.  Let the instructions directory be a directory that
    can be listed, in a store none of whose configurations lists a value
    that is not a string.  On a resolver with no configurations cached,
    [loadConfigs] raises no error: it returns the instruction sets of
    the store in the order of its entries, and caches them.  A top-level
    entry is registered exactly when it is a directory whose
    [_config.json] can be read, parses and names a list of patterns;
    the list may be empty.  The patterns registered are the
    whole of that list, never a part of it.  An entry that is no
    directory, or whose configuration is missing, cannot be read, does
    not parse or names no list, is passed over: no set has its name. *)
Theorem loadConfigs_registers (JSON_parse : string -> option json) (fs : node)
  (st : Multi.Resolver) (entries : list (string * node)) :
  Multi.configCache st = None ->
  Forall plain (Multi.instructionsDir st) ->
  Fs.lookup fs (Multi.instructionsDir st) = Some (Dir entries) ->
  Forall (fun entry => plain (fst entry)) entries ->
  NoDup (List.map fst entries) ->
  Forall (Configs.declares_strings JSON_parse) entries ->
  let r := Multi.loadConfigs JSON_parse fs st in
  let sets := instructionSets JSON_parse entries in
  result_of r = Returned sets
  /\ Multi.configCache (state_of r) = Some sets
  /\ Configs.well_typed sets
  /\ (forall name patterns,
         In (name, {| Multi.domains := patterns |}) sets
         <-> exists n, In (name, n) entries
                       /\ declares JSON_parse (name, n) = Some patterns)
  /\ (forall name n,
         In (name, n) entries ->
         declares JSON_parse (name, n) = None ->
         ~ In name (List.map fst sets)).
Proof.
  intros Hnone Hdir Hentries Hnames Hdistinct Hstrings. cbv zeta.
  assert (Hscan :
            Multi.configCache
              (List.fold_left
                 (fun s entry => scanState JSON_parse fs (Multi.instructionsDir st) entry s)
                 (List.map Fs.dirent entries) (Multi.configCache_put [] st))
            = Some (instructionSets JSON_parse entries)).
  { rewrite (ConfigFacts.scan_registers JSON_parse fs (Multi.instructionsDir st) entries
               Hdir Hentries Hnames Hdistinct entries _ []); try reflexivity.
    - auto.
    - exact Hdistinct.
    - intros name []. }
  unfold Multi.loadConfigs.
  rewrite RunFacts.bind_get, Hnone, RunFacts.bind_put.
  unfold existsSync, readdirSync. rewrite RunFacts.bind_lift, Hentries.
  rewrite bool_decide_eq_true_2 by (now eexists). cbn [negb].
  rewrite RunFacts.bind_lift, RunFacts.bind_eq, MultiFacts.scanEntries_eq.
  rewrite RunFacts.bind_get.
  cbn [Run.after m_ret result_of state_of log_of fst snd].
  rewrite Hscan. cbn [default].
  split; [reflexivity|]. split; [reflexivity|].
  split; [|split].
  - unfold Configs.well_typed. apply List.Forall_forall. intros [name [patterns]] Hin.
    cbn [snd Multi.domains].
    apply in_instructionSets in Hin as [n [Hn Hd]].
    rewrite List.Forall_forall in Hstrings. exact (Hstrings (name, n) Hn patterns Hd).
  - intros name patterns. apply in_instructionSets.
  - intros name n Hn Hd Hin.
    apply List.in_map_iff in Hin as [[name' [patterns]] [Heq Hin]].
    cbn [fst] in Heq. subst name'.
    apply in_instructionSets in Hin as [n' [Hn' Hd']].
    assert (n' = n) as ->.
    { pose proof (ConfigFacts.assoc_NoDup entries name n Hdistinct Hn) as H1.
      pose proof (ConfigFacts.assoc_NoDup entries name n' Hdistinct Hn') as H2.
      congruence. }
    congruence.
Qed.

Lemma loadConfigs_registers_witness :
  let r := Multi.loadConfigs Lite.JSON_parse oddConfigs (Multi.create pluginRoot) in
  let entries :=
    [("empty", Dir [("_config.json", File (Some (config "")))]);
     ("broken", Dir [("_config.json", File (Some "{oops"))]);
     ("bare", Dir [("_base.md", File (Some "BARE"))]);
     ("README.md", File (Some "read me"))] in
  let sets := instructionSets Lite.JSON_parse entries in
  result_of r = Returned sets
  /\ Multi.configCache (state_of r) = Some sets
  /\ Configs.well_typed sets
  /\ (forall name patterns,
         In (name, {| Multi.domains := patterns |}) sets
         <-> exists n, In (name, n) entries
                       /\ declares Lite.JSON_parse (name, n) = Some patterns)
  /\ (forall name n,
         In (name, n) entries ->
         declares Lite.JSON_parse (name, n) = None ->
         ~ In name (List.map fst sets)).
Proof.
  apply (loadConfigs_registers Lite.JSON_parse oddConfigs (Multi.create pluginRoot)).
  - reflexivity.
  - vm_compute. repeat constructor; discriminate.
  - reflexivity.
  - repeat constructor; discriminate.
  - apply (bool_decide_unpack _). vm_compute. exact I.
  - repeat (apply Forall_cons_2; [intros patterns H; vm_compute in H;
                                  try discriminate; injection H as <-; constructor|]).
    apply Forall_nil_2.
Defined.

(** C2, as stated, fails: a directory whose configuration lists no
    pattern is registered, with the empty list. *)
Lemma empty_list_is_registered :
  Lite.JSON_parse (config "") = Some (JObj [("domains", JArr [])])
  /\ result_of (Multi.loadConfigs Lite.JSON_parse oddConfigs (Multi.create pluginRoot))
     = Returned [("empty", {| Multi.domains := [] |})].
Proof.
  split; vm_compute; reflexivity.
Qed.

End Registration.


(** ** The [index.md] of a matched leaf folder *)

Module LeafIndex.

Import Document DocumentFacts Walker Gather MultiSpec Examples.

(** When every segment matches a folder, the walk adds the base
    documents of the folders it moves into, in the order of the
    descent, and then the [index.md] of the last one, which is the last
    thing it reads. *)
Lemma walk_descent_bases (fs : node) (dir : path) (segments : list string) :
  forall (currentPath : path) (acc : list string) (leaf : path),
    segments <> [] ->
    descend fs dir currentPath segments = Some leaf ->
    let index := Path.join [leaf; ["index.md"]] in
    exists l,
      walk fs dir segments currentPath acc
      = (Returned (acc ++ descentBases fs dir currentPath segments
                       ++ push_if (docAt fs dir index) []), l)
      /\ (forall op, In op (Walker.probes fs dir index) -> In op l).
Proof.
  induction segments as [|segment rest IH]; intros currentPath acc leaf Hne Hdesc;
    [congruence|].
  cbn [descend descentBases] in *.
  destruct (matchedFolder fs dir currentPath segment) as [folder|] eqn:Hfolder;
    [|discriminate].
  rewrite (WalkSteps.walk_matched fs dir segment rest currentPath acc folder Hfolder).
  cbv zeta.
  destruct rest as [|next rest'].
  - cbn [descend] in Hdesc. injection Hdesc as <-. cbn [descentBases].
    eexists. split.
    + rewrite (WalkerFacts.push_if_app _ (push_if _ acc)).
      rewrite (WalkerFacts.push_if_app _ acc), app_nil_r, <- app_assoc. reflexivity.
    + intros op Hop. rewrite !in_app_iff. right; right. exact Hop.
  - destruct (IH (Path.join [currentPath; [folder]])
                (push_if (docAt fs dir
                            (Path.join [Path.join [currentPath; [folder]]; ["_base.md"]])) acc)
                leaf ltac:(discriminate) Hdesc) as [l [Hwalk Hlog]].
    rewrite Hwalk. cbn [io_value io_log fst snd].
    eexists. split.
    + rewrite (WalkerFacts.push_if_app _ acc), <- !app_assoc. reflexivity.
    + intros op Hop. rewrite !in_app_iff. right; right. now apply Hlog.
Qed.

(** C1, as amended.  In the multi-tenant class, when the walk has
    matched a folder for every segment of the path, the last one
    included, it does load [index.md] from the directory it has moved
    into.  A text there that is not blank is part of the output, and
    its place is fixed: the output is the join of the root base document
    of the instruction set, the base documents of the folders walked in
    the order of the descent, the index document, and last what the
    exact sibling file adds, in this order. *)
Theorem index_is_loaded (URL_parse : string -> option URL)
  (JSON_parse : string -> option json) (fs : node) (url : string)
  (st st1 : Multi.Resolver) (parsed : URL) (basePath : string) (l1 : list fs_op)
  (leaf : path) (doc : string) :
  Multi.cache st !! url = None ->
  URL_parse url = Some parsed ->
  Multi.findInstructionSet JSON_parse fs (hostname parsed) st
  = (Returned (Some basePath), st1, l1) ->
  basePath <> "" ->
  segmentsOf (pathname parsed) <> [] ->
  let dir := Multi.instructionsDir st in
  let segments := segmentsOf (pathname parsed) in
  let index := Path.join [leaf; ["index.md"]] in
  descend fs dir [basePath] segments = Some leaf ->
  docAt fs dir index = Some doc ->
  doc <> "" ->
  let rootBase := push_if (docAt fs dir (Path.join [[basePath]; ["_base.md"]])) [] in
  let bases := descentBases fs dir [basePath] segments in
  let sibling :=
    docAt fs dir (Path.join [Path.join [[basePath]; List.removelast segments];
                             [List.last segments "" +:+ ".md"]]) in
  let r := Multi.resolve URL_parse JSON_parse fs url st in
  result_of r
  = Returned (Some (Js.join separator
                      (rootBase ++ bases ++ [doc]
                         ++ siblingDocs sibling (rootBase ++ bases ++ [doc]))))
  /\ In (ReadFileSync (Path.join_abs dir [index])) (log_of r).
Proof.
  intros Hmiss Hparse Hfind Hbase Hsegs dir segments index Hdesc Hdoc Hne
    rootBase bases sibling r.
  assert (Htruthy : Js.truthy_opt (Some basePath) = true).
  { now apply truthy_true. }
  destruct (MultiFacts.resolve_in_set URL_parse JSON_parse fs url st st1 parsed
              (Some basePath) l1 Hmiss Hparse Hfind Htruthy)
    as [docs [l [Hg [_ Hr]]]].
  subst r. rewrite Hr. cbn [result_of log_of fst snd default from_option id] in *.
  unfold MultiSpec.gathered, Gather.gather in Hg. cbv zeta in Hg.
  rewrite WalkerFacts.loadFile_eq in Hg. cbn [io_bind] in Hg.
  fold dir segments in Hg. fold rootBase in Hg.
  destruct (walk_descent_bases fs dir segments [basePath] rootBase leaf Hsegs Hdesc)
    as [lw [Hwalk Hlog]].
  rewrite Hwalk in Hg. fold index bases in Hg. rewrite Hdoc in Hg.
  assert (Hpush : push_if (Some doc) [] = [doc]).
  { unfold push_if. now rewrite (proj2 (truthy_true doc) Hne). }
  rewrite Hpush in Hg.
  assert (Hread : In (ReadFileSync (Path.join_abs dir [index])) lw).
  { apply Hlog. fold index. unfold Walker.probes. cbv zeta.
    unfold Walker.docAt in Hdoc.
    destruct (Fs.lookup fs (Path.join_abs dir [index])) as [n|]; [|discriminate].
    rewrite bool_decide_eq_true_2 by (now eexists). right; left. reflexivity. }
  assert (Hlen : Nat.ltb 0 (List.length segments) = true).
  { unfold segments. destruct (segmentsOf (pathname parsed)) eqn:Hs;
      [congruence | reflexivity]. }
  rewrite Hlen in Hg. cbn [io_bind] in Hg.
  unfold exactMatch in Hg. rewrite WalkerFacts.loadFile_eq in Hg.
  fold sibling in Hg. cbn [io_bind] in Hg.
  assert (Hdocs : docs = (rootBase ++ bases ++ [doc])
                           ++ siblingDocs sibling (rootBase ++ bases ++ [doc])
                  /\ In (ReadFileSync (Path.join_abs dir [index])) l).
  { unfold siblingDocs.
    destruct sibling as [d|];
      [destruct (Js.truthy d && negb (Js.includes (rootBase ++ bases ++ [doc]) d))|];
      cbn [io_ret] in Hg; injection Hg as <- <-;
      (split; [now rewrite ?app_nil_r | rewrite !in_app_iff; auto]). }
  destruct Hdocs as [-> Hl]. split.
  - unfold merge.
    replace (Nat.ltb 0 (List.length ((rootBase ++ bases ++ [doc])
                                       ++ siblingDocs sibling (rootBase ++ bases ++ [doc]))))
      with true.
    + now rewrite <- !app_assoc.
    + rewrite !List.length_app. cbn [List.length].
      symmetry. apply Nat.ltb_lt. lia.
  - rewrite in_app_iff. now right.
Qed.

Lemma index_is_loaded_witness :
  let r := Multi.resolve Lite.URL_parse Lite.JSON_parse (tenants "BASE")
             "https://semrush.com/seo" (Multi.create pluginRoot) in
  result_of r
  = Returned (Some (Js.join separator (["BASE"] ++ ["SEO"] ++ ["INDEX"] ++ [])))
  /\ In (ReadFileSync
           (Path.join_abs (Multi.instructionsDir (Multi.create pluginRoot))
              [Path.join [["semrush"; "seo"]; ["index.md"]]]))
        (log_of r).
Proof.
  eapply (index_is_loaded Lite.URL_parse Lite.JSON_parse (tenants "BASE")
            "https://semrush.com/seo" (Multi.create pluginRoot) _
            {| hostname := "semrush.com"; pathname := "/seo" |} "semrush" _
            ["semrush"; "seo"] "INDEX").
  - reflexivity.
  - reflexivity.
  - vm_compute. reflexivity.
  - discriminate.
  - vm_compute. discriminate.
  - vm_compute. reflexivity.
  - vm_compute. reflexivity.
  - discriminate.
Defined.

(** C1, as stated, fails: in the multi-tenant class the last segment
    [seo] matches a folder, [seo/index.md] is read, and its text is in the
    output. *)
Lemma multi_tenant_loads_index :
  let r := Multi.resolve Lite.URL_parse Lite.JSON_parse (tenants "BASE")
             "https://semrush.com/seo" (Multi.create pluginRoot) in
  result_of r = Returned (Some ("BASE" +:+ separator +:+ "SEO" +:+ separator +:+ "INDEX"))
  /\ In (ReadFileSync ["plugin"; "instructions"; "semrush"; "seo"; "index.md"]) (log_of r).
Proof.
  cbv zeta. split.
  - vm_compute. reflexivity.
  - vm_compute. tauto.
Qed.

End LeafIndex.


(** * Further properties *)

(** ** Path segments *)

Module SegmentFacts.

Import Segments.

Lemma split_nonempty (c : ascii) (s : string) : Js.split c s <> [].
Proof.
  destruct s as [|a s]; cbn [Js.split]; [discriminate|].
  destruct (Js.split c s); [discriminate|].
  destruct (Ascii.eqb a c); discriminate.
Qed.

Lemma split_append_sep (c : ascii) (q : string) :
  Js.split c (q +:+ String c "") = Js.split c q ++ [""].
Proof.
  induction q as [|a q IH].
  - change ("" +:+ String c "") with (String c "").
    cbn [Js.split app]. now rewrite Ascii.eqb_refl.
  - rewrite JsFacts.append_String. cbn [Js.split]. rewrite IH.
    pose proof (split_nonempty c q) as Hne.
    destruct (Js.split c q) as [|w ws]; [congruence|].
    cbn [app]. destruct (Ascii.eqb a c); reflexivity.
Qed.

Lemma split_pieces_free (c : ascii) (s : string) :
  Forall (fun w => ~ In c (list_ascii_of_string w)) (Js.split c s).
Proof.
  induction s as [|a s IH]; cbn [Js.split].
  - constructor; [intros [] | constructor].
  - destruct (Js.split c s) as [|w ws]; [constructor; [intros [] | constructor]|].
    apply Forall_cons_1 in IH as [Hw Hws].
    destruct (Ascii.eqb_spec a c) as [->|Hne].
    + constructor; [intros [] |]. now constructor.
    + constructor; [|exact Hws].
      cbn [list_ascii_of_string In]. intros [Heq | Hin]; [congruence | now apply Hw].
Qed.

Lemma substring_prefix (a b : string) :
  substring 0 (String.length a) (a +:+ b) = a.
Proof.
  induction a as [|c a IH].
  - destruct b; reflexivity.
  - rewrite JsFacts.append_String. cbn [String.length substring]. now rewrite IH.
Qed.

Lemma strip_slash (front : string) : stripTrailingSlash (front +:+ "/") = front.
Proof.
  unfold stripTrailingSlash.
  rewrite (proj2 (JsFacts.endsWith_spec (front +:+ "/") "/")) by (now exists front).
  rewrite JsFacts.length_append. cbn [String.length].
  replace (String.length front + 1 - 1) with (String.length front) by lia.
  apply substring_prefix.
Qed.

Lemma strip_no_slash (p : string) :
  Js.endsWith p "/" = false -> stripTrailingSlash p = p.
Proof. intros H. unfold stripTrailingSlash. now rewrite H. Qed.

Lemma filter_truthy_app_empty (ws : list string) :
  List.filter Js.truthy (ws ++ [""]) = List.filter Js.truthy ws.
Proof. rewrite List.filter_app. cbn. apply app_nil_r. Qed.

(** The normalisation before the split changes nothing for the segments. *)
Lemma segments_of_split (p : string) :
  segmentsOf p = List.filter Js.truthy (Js.split "/" p).
Proof.
  unfold segmentsOf, normalizePath.
  destruct (Js.endsWith p "/") eqn:Hend.
  - apply JsFacts.endsWith_spec in Hend as [front ->].
    rewrite strip_slash, split_append_sep, filter_truthy_app_empty.
    destruct front as [|c front]; reflexivity.
  - rewrite (strip_no_slash p Hend).
    destruct p as [|c p]; reflexivity.
Qed.

(** X3.  The segments of a path are the pieces between its slashes that
    are not empty: the removal of one trailing slash before the split
    changes nothing, so a path with a slash added at its end has the same
    segments; and every segment is not empty and holds no slash, that is,
    it is one component of a path. *)
Theorem segments_are_pieces (p : string) :
  segmentsOf p = List.filter Js.truthy (Js.split "/" p)
  /\ segmentsOf (p +:+ "/") = segmentsOf p
  /\ Forall (fun s => s <> "" /\ slash_free s) (segmentsOf p).
Proof.
  split; [apply segments_of_split | split].
  - rewrite !segments_of_split, split_append_sep. apply filter_truthy_app_empty.
  - rewrite segments_of_split. apply List.Forall_forall. intros s Hs.
    apply List.filter_In in Hs as [Hin Ht]. split.
    + now apply DocumentFacts.truthy_true.
    + pose proof (split_pieces_free "/" p) as Hfree.
      rewrite List.Forall_forall in Hfree. exact (Hfree s Hin).
Qed.

End SegmentFacts.

(** ** The single-tenant resolver, call after call *)

Module SingleCalls.

Import Document DocumentFacts Gather SingleSpec SingleSpec2 Examples.

(** A call returns, and what it returns is then in the cache. *)
Lemma single_call_cached (URL_parse : string -> option URL) (fs : node)
  (url : string) (st : Single.Resolver) :
  let first := Single.resolve URL_parse fs url st in
  exists r,
    result_of first = Returned r
    /\ Single.cache (state_of first) !! url = Some r.
Proof.
  cbv zeta. destruct (Single.cache st !! url) as [hit|] eqn:Hc.
  - rewrite (SingleFacts.single_hit URL_parse fs url st hit Hc).
    exists hit. cbn [result_of state_of fst snd]. split; [reflexivity | exact Hc].
  - destruct (SingleFacts.single_miss URL_parse fs url st Hc) as [docs [l [_ [_ ->]]]].
    exists (merge docs). cbn [result_of state_of fst snd].
    split; [reflexivity | apply lookup_insert_eq].
Qed.

(** X1.  The single-tenant [resolve] always returns.  After a call the
    cache holds what it returned under the URL as given, and the next
    call for that URL, against any store, returns the same from the
    cache, reads nothing and leaves the resolver as it is. *)
Theorem single_idempotent (URL_parse : string -> option URL) (fs fs' : node)
  (url : string) (st : Single.Resolver) :
  let first := Single.resolve URL_parse fs url st in
  exists r,
    result_of first = Returned r
    /\ Single.cache (state_of first) !! url = Some r
    /\ Single.resolve URL_parse fs' url (state_of first)
       = (Returned r, state_of first, []).
Proof.
  cbv zeta. destruct (single_call_cached URL_parse fs url st) as [r [Hr Hcache]].
  exists r. split; [exact Hr|]. split; [exact Hcache|].
  now apply SingleFacts.single_hit.
Qed.

Lemma single_reachable_ok (URL_parse : string -> option URL) (st : Single.Resolver) :
  reachable URL_parse st -> single_cache_ok st.
Proof.
  induction 1 as [pluginRoot | fs url st Hreach IH | st Hreach IH].
  - intros u res Hu. cbn in Hu. now rewrite lookup_empty in Hu.
  - destruct (Single.cache st !! url) as [hit|] eqn:Hc.
    + now rewrite (SingleFacts.single_hit URL_parse fs url st hit Hc).
    + destruct (SingleFacts.single_miss URL_parse fs url st Hc)
        as [docs [l [_ [Hdocs ->]]]].
      intros u res. cbn [state_of fst snd Single.cache Single.cache_set].
      destruct (decide (url = u)) as [<-|Hne].
      * rewrite lookup_insert_eq. intros [= <-].
        now apply MultiFacts.merge_well_merged.
      * rewrite lookup_insert_ne by exact Hne. apply IH.
  - intros u res Hu. cbn in Hu. now rewrite lookup_empty in Hu.
Qed.

(** X2.  The single-tenant [resolve], from any state a resolver can be
    in, never returns the empty text.  In a call that does not answer
    from the cache, what it returns is made of the files it has read:
    there is a list of documents, each the trimmed text of a file read
    in the call, in the order of the reading, not empty and with no
    white space at either end; the result is absent when the list is
    empty and the join of the list by the separator otherwise. *)
Theorem single_output_shape (URL_parse : string -> option URL) (fs : node)
  (url : string) (st : Single.Resolver) :
  reachable URL_parse st ->
  let call := Single.resolve URL_parse fs url st in
  exists r,
    result_of call = Returned r
    /\ r <> Some ""
    /\ (Single.cache st !! url = None ->
        exists docs,
          Forall document docs
          /\ docs `sublist_of` Walker.textsRead fs (log_of call)
          /\ ((docs = [] /\ r = None)
              \/ (docs <> [] /\ r = Some (Js.join separator docs)))).
Proof.
  intros Hreach call. subst call.
  destruct (single_call_cached URL_parse fs url st) as [r [Hr Hcache]].
  exists r. split; [exact Hr|]. split.
  - pose proof (single_reachable_ok URL_parse _
                  (reach_resolve URL_parse fs url st Hreach) url r Hcache)
      as [-> | [docs [Hne [Hdocs ->]]]]; [discriminate|].
    intros [= Heq]. exact (join_nonempty separator docs Hne Hdocs Heq).
  - intros Hmiss.
    destruct (SingleFacts.single_miss URL_parse fs url st Hmiss)
      as [docs [l [Hg [_ Hcall]]]].
    unfold SingleSpec.gathered in Hg. cbv zeta in Hg.
    destruct (TextFacts.gather_reads fs (Single.instructionsDir st) ["_base.md"] []
                (List.removelast (segmentsOf (Single.pathnameOf URL_parse url)))
                (segmentsOf (Single.pathnameOf URL_parse url)))
      as [docs' [l' [Hg' [Hdocs Hsub]]]].
    rewrite Hg in Hg'. injection Hg' as <- <-.
    rewrite Hcall in Hr |- *. cbn [result_of log_of fst snd] in *.
    injection Hr as <-.
    exists docs. split; [exact Hdocs|]. split; [exact Hsub|].
    unfold merge. destruct docs as [|d rest]; [left; now split|].
    right. split; [discriminate | reflexivity].
Qed.

Lemma single_output_shape_witness :
  let fs := mount (scenarioA "Root." "Seo.") in
  let call := Single.resolve Lite.URL_parse fs "/seo" (Single.create pluginRoot) in
  exists r,
    result_of call = Returned r
    /\ r <> Some ""
    /\ (Single.cache (Single.create pluginRoot) !! "/seo" = None ->
        exists docs,
          Forall document docs
          /\ docs `sublist_of` Walker.textsRead fs (log_of call)
          /\ ((docs = [] /\ r = None)
              \/ (docs <> [] /\ r = Some (Js.join separator docs)))).
Proof.
  apply (single_output_shape Lite.URL_parse (mount (scenarioA "Root." "Seo."))
           "/seo" (Single.create pluginRoot)).
  apply reach_create.
Defined.

(** X4.  The cache is keyed by the URL as given, the documents by the
    segments of its path.  Two different URLs with the same segments
    (one with a trailing slash, say) are two entries: after the first is
    resolved, the second misses the cache, makes the same accesses to the
    store again, and returns the same. *)
Theorem same_segments_resolved_twice (URL_parse : string -> option URL)
  (fs : node) (u1 u2 : string) (st : Single.Resolver) :
  u1 <> u2 ->
  Single.cache st !! u1 = None ->
  Single.cache st !! u2 = None ->
  segmentsOf (Single.pathnameOf URL_parse u1) = segmentsOf (Single.pathnameOf URL_parse u2) ->
  let first := Single.resolve URL_parse fs u1 st in
  let second := Single.resolve URL_parse fs u2 (state_of first) in
  result_of second = result_of first
  /\ log_of second = log_of first
  /\ log_of first <> []
  /\ Single.cache (state_of second) !! u1 = Single.cache (state_of second) !! u2.
Proof.
  intros Hne H1 H2 Hsegs. cbv zeta.
  destruct (SingleFacts.single_miss URL_parse fs u1 st H1) as [docs1 [l1 [Hg1 [_ Hr1]]]].
  rewrite Hr1. cbn [result_of state_of log_of fst snd].
  assert (H2' : Single.cache (Single.cache_set u1 (merge docs1) st) !! u2 = None).
  { cbn [Single.cache Single.cache_set]. now rewrite lookup_insert_ne. }
  destruct (SingleFacts.single_miss URL_parse fs u2 _ H2') as [docs2 [l2 [Hg2 [_ Hr2]]]].
  rewrite Hr2. cbn [result_of state_of log_of fst snd].
  unfold SingleSpec.gathered in Hg1, Hg2.
  cbn [Single.instructionsDir Single.cache_set] in Hg2.
  rewrite <- Hsegs, Hg1 in Hg2. injection Hg2 as <- <-.
  repeat split.
  - unfold Gather.gather in Hg1. rewrite WalkerFacts.loadFile_eq in Hg1.
    cbn [io_bind] in Hg1. intros ->.
    destruct (io instructions <- walk _ _ _ _ _ ; _) as [o l] in Hg1.
    injection Hg1 as _ Hl. unfold Walker.probes in Hl.
    destruct (bool_decide _) in Hl; discriminate.
  - cbn [Single.cache Single.cache_set].
    rewrite lookup_insert_eq, lookup_insert_ne, lookup_insert_eq by congruence.
    reflexivity.
Qed.

Lemma same_segments_resolved_twice_witness :
  let first := Single.resolve Lite.URL_parse (mount (scenarioA "Root." "Seo."))
                 "/seo" (Single.create pluginRoot) in
  let second := Single.resolve Lite.URL_parse (mount (scenarioA "Root." "Seo."))
                  "/seo/" (state_of first) in
  result_of second = result_of first
  /\ log_of second = log_of first
  /\ log_of first <> []
  /\ Single.cache (state_of second) !! "/seo" = Single.cache (state_of second) !! "/seo/".
Proof.
  apply (same_segments_resolved_twice Lite.URL_parse (mount (scenarioA "Root." "Seo."))
           "/seo" "/seo/" (Single.create pluginRoot)).
  - discriminate.
  - reflexivity.
  - reflexivity.
  - reflexivity.
Defined.

(** X5.  A path with no segment ([/], or the empty path) resolves to the
    root base document alone: the text of [_base.md], trimmed, when the
    file can be read and is not blank, and absent otherwise.  No folder
    is looked for and step 3 is skipped: the only accesses are those of
    loading [_base.md]. *)
Theorem root_path_root_base (URL_parse : string -> option URL) (fs : node)
  (url : string) (st : Single.Resolver) :
  Single.cache st !! url = None ->
  segmentsOf (Single.pathnameOf URL_parse url) = [] ->
  let dir := Single.instructionsDir st in
  let r := documentAt fs dir ["_base.md"] in
  Single.resolve URL_parse fs url st
  = (Returned r, Single.cache_set url r st, Walker.probes fs dir ["_base.md"]).
Proof.
  intros Hmiss Hsegs dir r.
  destruct (SingleFacts.single_miss URL_parse fs url st Hmiss) as [docs [l [Hg [_ ->]]]].
  unfold SingleSpec.gathered, Gather.gather in Hg. rewrite Hsegs in Hg.
  rewrite WalkerFacts.loadFile_eq in Hg. cbn in Hg. injection Hg as <- <-.
  fold dir. rewrite app_nil_r.
  assert (Hr : merge (push_if (Walker.docAt fs dir ["_base.md"]) []) = r).
  { subst r. unfold documentAt, push_if, merge.
    destruct (Walker.docAt fs dir ["_base.md"]) as [d|]; [|reflexivity].
    destruct (Js.truthy d); reflexivity. }
  now rewrite Hr.
Qed.

Lemma root_path_root_base_witness :
  let st := Single.create pluginRoot in
  let fs := mount (scenarioA " Root. " "Seo.") in
  let r := documentAt fs (Single.instructionsDir st) ["_base.md"] in
  Single.resolve Lite.URL_parse fs "https://semrush.com/" st
  = (Returned r, Single.cache_set "https://semrush.com/" r st,
     Walker.probes fs (Single.instructionsDir st) ["_base.md"]).
Proof.
  apply (root_path_root_base Lite.URL_parse (mount (scenarioA " Root. " "Seo."))
           "https://semrush.com/" (Single.create pluginRoot)).
  - reflexivity.
  - reflexivity.
Defined.

(** X21.  The single-tenant [clearCache] returns at once with the cache
    empty and the path of the instructions directory as it was; calling
    it again changes nothing more; and [resolve] after it misses the
    cache for every URL, so it gathers from the store as it is now. *)
Theorem single_clearCache_resets (URL_parse : string -> option URL)
  (st : Single.Resolver) (fs : node) (url : string) :
  let cleared := state_of (Single.clearCache st) in
  Single.clearCache st
  = (Returned tt, {| Single.instructionsDir := Single.instructionsDir st;
                     Single.cache := ∅ |}, [])
  /\ Single.clearCache cleared = (Returned tt, cleared, [])
  /\ exists docs l,
       SingleSpec.gathered URL_parse fs (Single.instructionsDir st) url
       = (Returned docs, l)
       /\ Single.resolve URL_parse fs url cleared
          = (Returned (merge docs), Single.cache_set url (merge docs) cleared, l).
Proof.
  cbv zeta.
  assert (Hclear : Single.clearCache st
                   = (Returned tt, {| Single.instructionsDir := Single.instructionsDir st;
                                      Single.cache := ∅ |}, [])).
  { unfold Single.clearCache. rewrite RunFacts.bind_get. reflexivity. }
  rewrite Hclear. cbn [state_of fst snd].
  split; [reflexivity|]. split.
  - unfold Single.clearCache. rewrite RunFacts.bind_get. reflexivity.
  - destruct (SingleFacts.single_miss URL_parse fs url
                {| Single.instructionsDir := Single.instructionsDir st;
                   Single.cache := ∅ |} (lookup_empty _))
      as [docs [l [Hg [_ Hr]]]].
    exists docs, l. split; [exact Hg | exact Hr].
Qed.

End SingleCalls.


(** ** Dynamic segments *)

Module DynamicSegments.

Import Walker.


Lemma literal_candidates (segment : string) :
  isDynamicSegment segment = false -> foldersToTry segment = [segment].
Proof. intros H. unfold foldersToTry. now rewrite H. Qed.



End DynamicSegments.


(** ** Where the walker reads *)

Module ConfinementFacts.

Import Walker Confinement Segments.

Lemma join_plain (parts : list path) :
  Forall plain (List.concat parts) -> Path.join parts = List.concat parts.
Proof. intros H. unfold Path.join. now rewrite PathFacts.normalize_plain. Qed.

Lemma join_abs_one (dir p : path) :
  Forall plain dir -> Forall plain p -> Path.join_abs dir [p] = dir ++ p.
Proof.
  intros Hd Hp. rewrite PathFacts.join_abs_plain; cbn [List.concat];
    rewrite ?app_nil_r; auto.
Qed.

Lemma join_abs_two (dir p : path) (name : string) :
  Forall plain dir -> Forall plain p -> plain name ->
  Path.join_abs dir [p; [name]] = dir ++ p ++ [name].
Proof.
  intros Hd Hp Hn. rewrite PathFacts.join_abs_plain; cbn [List.concat];
    rewrite ?app_nil_r; auto.
  apply Forall_app; split; [assumption | now constructor].
Qed.

Lemma join_two (p : path) (name : string) :
  Forall plain p -> plain name -> Path.join [p; [name]] = p ++ [name].
Proof.
  intros Hp Hn. rewrite join_plain; cbn [List.concat]; rewrite ?app_nil_r; auto.
  apply Forall_app; split; [assumption | now constructor].
Qed.

Lemma plain_app (p q : path) : Forall plain p -> Forall plain q -> Forall plain (p ++ q).
Proof. intros; apply Forall_app; now split. Qed.

Lemma plain_one (name : string) : plain name -> Forall plain [name].
Proof. intros; now constructor. Qed.

Lemma plain_md (segment : string) : plain (segment +:+ ".md").
Proof.
  assert (Hlen : 3 <= String.length (segment +:+ ".md")).
  { rewrite JsFacts.length_append. cbn. lia. }
  repeat split; intros Heq; rewrite Heq in Hlen; cbn in Hlen; lia.
Qed.

Lemma plain_segment (s : string) :
  s <> "" -> s <> "." -> s <> ".." -> plain s.
Proof. intros; repeat split; assumption. Qed.

(** The segments of a path are plain unless one of them is a dot
    segment. *)
Lemma segments_plain (p : string) :
  Forall (fun s => s <> "." /\ s <> "..") (segmentsOf p) ->
  Forall plain (segmentsOf p).
Proof.
  intros Hdots.
  rewrite List.Forall_forall in *. intros s Hs.
  destruct (Hdots s Hs) as [H1 H2]. apply plain_segment; try assumption.
  rewrite SegmentFacts.segments_of_split in Hs.
  apply List.filter_In in Hs as [_ Ht]. now apply DocumentFacts.truthy_true.
Qed.

Lemma candidates_plain (segment : string) :
  plain segment -> Forall plain (foldersToTry segment).
Proof.
  intros Hs. unfold foldersToTry. destruct (isDynamicSegment segment).
  - repeat (apply Forall_cons_2; [repeat split; discriminate|]). apply Forall_nil_2.
  - apply Forall_cons_2; [exact Hs | apply Forall_nil_2].
Qed.

Lemma tryFolders_found_in (fs : node) (dir currentPath : path) (folders : list string)
  (folder : string) :
  io_value (tryFolders fs dir currentPath folders) = Returned (Some folder) ->
  In folder folders.
Proof.
  induction folders as [|f others IH]; cbn [tryFolders]; [discriminate|].
  unfold existsSync, io_bind. destruct (bool_decide _).
  - cbn. intros [= ->]. now left.
  - destruct (tryFolders fs dir currentPath others) as [o l] eqn:Ht.
    cbn in *. intros H. right. now apply IH.
Qed.

Lemma matchedFolder_plain (fs : node) (dir currentPath : path) (segment folder : string) :
  plain segment ->
  matchedFolder fs dir currentPath segment = Some folder -> plain folder.
Proof.
  intros Hs Hm. unfold matchedFolder in Hm.
  destruct (io_value (tryFolders fs dir currentPath (foldersToTry segment)))
    as [[f|]|e] eqn:Hv; try discriminate.
  destruct (Js.truthy f); [|discriminate]. injection Hm as ->.
  pose proof (candidates_plain segment Hs) as Hc.
  rewrite List.Forall_forall in Hc. apply Hc.
  now apply (tryFolders_found_in fs dir currentPath).
Qed.

Section Below.

Variable fs : node.
Variable dir base : path.
Hypothesis dir_plain : Forall plain dir.
Hypothesis base_plain : Forall plain base.

Lemma probes_under (more : path) :
  Forall plain more ->
  Forall (under (dir ++ base)) (Walker.probes fs dir (base ++ more)).
Proof using dir_plain base_plain.
  intros Hmore. unfold Walker.probes. cbv zeta.
  rewrite join_abs_one by auto using plain_app.
  assert (Hu : forall op, path_of op = dir ++ base ++ more -> under (dir ++ base) op).
  { intros op Hop. exists more. now rewrite Hop, app_assoc. }
  destruct (bool_decide _); repeat constructor; now apply Hu.
Qed.

Lemma tryFolders_under (more : path) (folders : list string) :
  Forall plain more -> Forall plain folders ->
  Forall (under (dir ++ base)) (io_log (tryFolders fs dir (base ++ more) folders)).
Proof using dir_plain base_plain.
  intros Hmore. induction 1 as [|folder others Hf Hothers IH]; [constructor|].
  cbn [tryFolders]. unfold existsSync, io_bind.
  rewrite join_abs_two by auto using plain_app.
  assert (Hu : under (dir ++ base) (ExistsSync (dir ++ (base ++ more) ++ [folder]))).
  { exists (more ++ [folder]). cbn [path_of]. now rewrite <- !app_assoc. }
  destruct (bool_decide _).
  - cbn. constructor; [exact Hu | constructor].
  - destruct (tryFolders fs dir (base ++ more) others) as [o l].
    cbn in *. constructor; assumption.
Qed.

Lemma walk_under (segments : list string) :
  forall (more : path) (acc : list string),
    Forall plain segments -> Forall plain more ->
    Forall (under (dir ++ base)) (io_log (walk fs dir segments (base ++ more) acc)).
Proof using dir_plain base_plain.
  induction segments as [|segment rest IH]; intros more acc Hsegs Hmore; [constructor|].
  apply Forall_cons_1 in Hsegs as [Hseg Hrest].
  assert (Htry : Forall (under (dir ++ base)) (tryLog fs dir (base ++ more) segment)).
  { apply tryFolders_under; [assumption | now apply candidates_plain]. }
  destruct (matchedFolder fs dir (base ++ more) segment) as [folder|] eqn:Hm.
  - pose proof (matchedFolder_plain fs dir _ segment folder Hseg Hm) as Hfolder.
    rewrite (WalkSteps.walk_matched fs dir segment rest _ acc folder Hm). cbv zeta.
    rewrite (join_two (base ++ more) folder) by auto using plain_app.
    assert (Hmore' : Forall plain (more ++ [folder])) by auto using plain_app, plain_one.
    assert (Hin : (base ++ more) ++ [folder] = base ++ (more ++ [folder]))
      by now rewrite app_assoc.
    rewrite Hin.
    assert (Hfile : forall name, plain name ->
              Path.join [base ++ (more ++ [folder]); [name]]
              = base ++ ((more ++ [folder]) ++ [name])).
    { intros name Hname. rewrite join_two by auto using plain_app.
      now rewrite <- !app_assoc. }
    assert (Hb : plain "_base.md") by (repeat split; discriminate).
    assert (Hi : plain "index.md") by (repeat split; discriminate).
    rewrite !Hfile by assumption.
    destruct rest as [|next rest']; cbn [io_log snd].
    + repeat (apply Forall_app; split); try assumption;
        apply probes_under; auto using plain_app, plain_one.
    + repeat (apply Forall_app; split); try assumption.
      * apply probes_under; auto using plain_app, plain_one.
      * now apply IH.
  - rewrite (WalkSteps.walk_unmatched fs dir segment rest _ acc Hm). cbv zeta.
    destruct rest as [|next rest']; cbn [io_log snd]; [|exact Htry].
    apply Forall_app; split; [exact Htry|].
    rewrite join_two by auto using plain_app, plain_md.
    rewrite <- app_assoc.
    apply probes_under. auto using plain_app, plain_one, plain_md.
Qed.

Lemma removelast_plain (segments : list string) :
  Forall plain segments -> Forall plain (List.removelast segments).
Proof.
  induction 1 as [|s rest Hs Hrest IH]; [constructor|].
  cbn [List.removelast]. destruct rest; [constructor|]. now constructor.
Qed.

(** All that one resolution gathers is read at or below [dir ++ base]. *)
Lemma gather_under (segments : list string) :
  Forall plain segments ->
  Forall (under (dir ++ base))
    (io_log (Gather.gather fs dir (base ++ ["_base.md"]) base
               (base ++ List.removelast segments) segments)).
Proof using dir_plain base_plain.
  intros Hsegs. unfold Gather.gather.
  rewrite WalkerFacts.loadFile_eq. cbn [io_bind].
  assert (Hb : plain "_base.md") by (repeat split; discriminate).
  assert (Hroot : Forall (under (dir ++ base)) (Walker.probes fs dir (base ++ ["_base.md"]))).
  { apply probes_under. now apply plain_one. }
  pose proof (walk_under segments [] (push_if (Walker.docAt fs dir (base ++ ["_base.md"])) [])
                Hsegs ltac:(constructor)) as Hwalk.
  rewrite app_nil_r in Hwalk.
  destruct (walk fs dir segments base _) as [[docs|e] lw]; cbn [io_log snd] in *.
  - destruct (Nat.ltb 0 (List.length segments)).
    + unfold exactMatch. rewrite WalkerFacts.loadFile_eq.
      rewrite join_two by auto using plain_app, plain_md, removelast_plain.
      rewrite <- app_assoc.
      assert (Hprobe : Forall (under (dir ++ base))
                         (Walker.probes fs dir
                            (base ++ (List.removelast segments
                                        ++ [List.last segments "" +:+ ".md"])))).
      { apply probes_under. auto using plain_app, plain_one, plain_md, removelast_plain. }
      destruct (Walker.docAt fs dir _) as [d|]; unfold io_bind, io_ret;
        [destruct (Js.truthy d && negb (Js.includes docs d))|];
        cbn [io_log snd]; rewrite ?app_nil_r;
        repeat (apply Forall_app; split); assumption.
    + unfold io_bind, io_ret. cbn [io_log snd]. rewrite ?app_nil_r.
      repeat (apply Forall_app; split); assumption.
  - unfold io_bind. cbn [io_log snd]. rewrite ?app_nil_r. assumption || (apply Forall_app; split; assumption).
Qed.

End Below.

End ConfinementFacts.


(** ** Confinement of the accesses *)

Module Confined.

Import Walker Confinement Segments SingleSpec2 Examples.

(** The normalisation of an absolute path leaves plain components only. *)
Lemma normalize_abs_plain (p : path) :
  forall acc, Forall plain acc -> Forall plain (Path.normalize_from true acc p).
Proof.
  induction p as [|c p IH]; intros acc Hacc; cbn [Path.normalize_from].
  - now apply Forall_rev.
  - destruct (String.eqb c "") eqn:E0; cbn [orb]; [now apply IH|].
    destruct (String.eqb c ".") eqn:E1; [now apply IH|].
    destruct (String.eqb c "..") eqn:E2.
    + destruct acc as [|top acc']; [now apply IH|].
      apply Forall_cons_1 in Hacc as [Htop Hacc'].
      destruct (PathFacts.plain_eqb top Htop) as [_ [_ ->]]. now apply IH.
    + apply IH. constructor; [|exact Hacc].
      apply String.eqb_neq in E0, E1, E2. now repeat split.
Qed.

Lemma create_plain (pluginRoot : path) :
  Forall plain (Single.instructionsDir (Single.create pluginRoot)).
Proof. apply normalize_abs_plain. constructor. Qed.

Lemma single_dir_kept (URL_parse : string -> option URL) (fs : node) (url : string)
  (st : Single.Resolver) :
  Single.instructionsDir (state_of (Single.resolve URL_parse fs url st))
  = Single.instructionsDir st.
Proof.
  destruct (Single.cache st !! url) as [hit|] eqn:Hc.
  - now rewrite (SingleFacts.single_hit URL_parse fs url st hit Hc).
  - now destruct (SingleFacts.single_miss URL_parse fs url st Hc) as [docs [l [_ [_ ->]]]].
Qed.

Lemma reachable_dir_plain (URL_parse : string -> option URL) (st : Single.Resolver) :
  reachable URL_parse st -> Forall plain (Single.instructionsDir st).
Proof.
  induction 1 as [pluginRoot | fs url st Hreach IH | st Hreach IH].
  - apply create_plain.
  - now rewrite single_dir_kept.
  - exact IH.
Qed.

(** X7.  The single-tenant [resolve], on a resolver in any state it can
    be in, touches the store at or below the instructions directory
    only, provided that no segment of the path is [.] or [..]. *)
Theorem single_reads_below_dir (URL_parse : string -> option URL) (fs : node)
  (url : string) (st : Single.Resolver) :
  reachable URL_parse st ->
  Forall (fun s => s <> "." /\ s <> "..") (segmentsOf (Single.pathnameOf URL_parse url)) ->
  Forall (under (Single.instructionsDir st))
    (log_of (Single.resolve URL_parse fs url st)).
Proof.
  intros Hreach Hdots.
  destruct (Single.cache st !! url) as [hit|] eqn:Hc.
  { rewrite (SingleFacts.single_hit URL_parse fs url st hit Hc). constructor. }
  destruct (SingleFacts.single_miss URL_parse fs url st Hc) as [docs [l [Hg [_ ->]]]].
  cbn [log_of snd].
  pose proof (ConfinementFacts.gather_under fs (Single.instructionsDir st) []
                (reachable_dir_plain URL_parse st Hreach) ltac:(constructor)
                (segmentsOf (Single.pathnameOf URL_parse url))
                (ConfinementFacts.segments_plain _ Hdots)) as Hunder.
  cbn [app] in Hunder. rewrite app_nil_r in Hunder.
  unfold SingleSpec.gathered in Hg. cbv zeta in Hg. rewrite Hg in Hunder.
  exact Hunder.
Qed.

Lemma single_reads_below_dir_witness :
  Forall (under (Single.instructionsDir (Single.create pluginRoot)))
    (log_of (Single.resolve Lite.URL_parse (mount (scenarioA "Root." "Seo."))
               "https://semrush.com/seo/overview" (Single.create pluginRoot))).
Proof.
  apply (single_reads_below_dir Lite.URL_parse (mount (scenarioA "Root." "Seo."))
           "https://semrush.com/seo/overview" (Single.create pluginRoot)).
  - apply reach_create.
  - vm_compute. repeat constructor; discriminate.
Defined.

Lemma normalize_plain_prefix (absolute : bool) (p q : path) :
  Forall plain p ->
  forall acc, Path.normalize_from absolute acc (p ++ q)
              = Path.normalize_from absolute (List.rev p ++ acc) q.
Proof.
  induction 1 as [|c p Hc Hp IH]; intros acc; [reflexivity|].
  cbn [app Path.normalize_from].
  destruct (PathFacts.plain_eqb c Hc) as [-> [-> ->]]. cbn [orb].
  rewrite IH. cbn [List.rev]. now rewrite <- app_assoc.
Qed.

(** From [dir/name], the paths [..] and [../file] are [dir] and
    [dir/file]. *)
Lemma join_abs_up (dir rel : path) (name : string) :
  Forall plain dir -> plain name -> Forall plain rel ->
  Path.join_abs (dir ++ [name]) [".." :: rel] = dir ++ rel.
Proof.
  intros Hdir Hname Hrel. unfold Path.join_abs. cbn [List.concat].
  rewrite app_nil_r, <- app_assoc.
  rewrite (normalize_plain_prefix true dir _ Hdir []). rewrite app_nil_r.
  cbn [app Path.normalize_from].
  destruct (PathFacts.plain_eqb name Hname) as [-> [-> ->]]. cbn [orb String.eqb Ascii.eqb Bool.eqb].
  destruct (List.rev dir) as [|top acc'] eqn:Hrev.
  - assert (dir = []) as -> by (apply (f_equal (@List.rev _)) in Hrev;
                                 now rewrite List.rev_involutive in Hrev).
    cbn. now rewrite PathFacts.normalize_plain.
  - assert (Htop : plain top).
    { apply Forall_rev in Hdir. rewrite Hrev in Hdir. now apply Forall_cons_1 in Hdir as [? _]. }
    rewrite PathFacts.normalize_plain by exact Hrel.
    now rewrite <- Hrev, List.rev_involutive.
Qed.

Lemma io_bind_log_l {A B : Type} (m : IO A) (f : A -> IO B) (op : fs_op) :
  In op (io_log m) -> In op (io_log (io_bind m f)).
Proof.
  destruct m as [[a|e] l]; cbn [io_log snd io_bind]; [|auto].
  destruct (f a) as [o l2]. cbn [io_log snd]. rewrite in_app_iff. auto.
Qed.

Lemma io_bind_log_r {A B : Type} (m : IO A) (f : A -> IO B) (a : A) (op : fs_op) :
  io_value m = Returned a -> In op (io_log (f a)) -> In op (io_log (io_bind m f)).
Proof.
  destruct m as [[a'|e] l]; cbn [io_value fst]; [|discriminate].
  intros [= ->]. cbn [io_bind]. destruct (f a) as [o l2]. cbn [io_log snd].
  rewrite in_app_iff. auto.
Qed.

(** X8.  A path that begins with the segment [..] takes the
    single-tenant [resolve] out of the instructions directory: when the
    URL is not in the cache, the call looks for [_base.md] in the plugin
    root, the parent of the instructions directory, which is not at or
    below the instructions directory. *)
Theorem dot_dot_leaves_dir (URL_parse : string -> option URL) (fs : node)
  (url : string) (st : Single.Resolver) (pluginRoot : path) (rest : list string) :
  Forall plain pluginRoot ->
  Single.instructionsDir st = pluginRoot ++ ["instructions"] ->
  is_Some (Fs.lookup fs pluginRoot) ->
  Single.cache st !! url = None ->
  segmentsOf (Single.pathnameOf URL_parse url) = ".." :: rest ->
  In (ExistsSync (pluginRoot ++ ["_base.md"]))
    (log_of (Single.resolve URL_parse fs url st))
  /\ ~ under (Single.instructionsDir st) (ExistsSync (pluginRoot ++ ["_base.md"])).
Proof.
  intros Hroot Hdir Hexists Hc Hsegs.
  assert (Hname : plain "instructions") by (repeat split; discriminate).
  split.
  - destruct (SingleFacts.single_miss URL_parse fs url st Hc) as [docs [l [Hg [_ ->]]]].
    cbn [log_of snd].
    change l with (io_log (Returned docs, l)). rewrite <- Hg.
    unfold SingleSpec.gathered, Gather.gather. cbv zeta.
    rewrite Hsegs, Hdir.
    assert (Hm : matchedFolder fs (pluginRoot ++ ["instructions"]) [] ".." = Some "..").
    { unfold matchedFolder, foldersToTry.
      change (isDynamicSegment "..") with false. cbv iota.
      cbn [tryFolders]. unfold existsSync, io_bind.
      change (Path.join_abs (pluginRoot ++ ["instructions"]) [[]; [".."]])
        with (Path.join_abs (pluginRoot ++ ["instructions"]) [".." :: []]).
      rewrite join_abs_up by (assumption || constructor).
      rewrite app_nil_r, (bool_decide_eq_true_2 _ Hexists). reflexivity. }
    assert (Hin : In (ExistsSync (pluginRoot ++ ["_base.md"]))
                    (Walker.probes fs (pluginRoot ++ ["instructions"]) [".."; "_base.md"])).
    { unfold Walker.probes. cbv zeta.
      rewrite join_abs_up by (assumption || (repeat constructor; discriminate)).
      destruct (bool_decide _); now left. }
    rewrite WalkerFacts.loadFile_eq.
    eapply io_bind_log_r; [reflexivity|].
    apply io_bind_log_l.
    rewrite (WalkSteps.walk_matched fs _ ".." rest [] _ ".." Hm). cbv zeta.
    change (Path.join [[]; [".."]]) with [".."].
    change (Path.join [[".."]; ["_base.md"]]) with [".."; "_base.md"].
    destruct rest as [|next rest']; cbn [io_log snd]; rewrite !in_app_iff; auto.
  - rewrite Hdir. intros [rel Hrel]. cbn [path_of] in Hrel.
    rewrite <- app_assoc in Hrel. apply app_inv_head in Hrel.
    cbn in Hrel. discriminate.
Qed.

Lemma dot_dot_leaves_dir_witness :
  let st := Single.create pluginRoot in
  let fs := mount (scenarioA "Root." "Seo.") in
  In (ExistsSync (pluginRoot ++ ["_base.md"]))
    (log_of (Single.resolve Lite.URL_parse fs "../seo" st))
  /\ ~ under (Single.instructionsDir st) (ExistsSync (pluginRoot ++ ["_base.md"])).
Proof.
  apply (dot_dot_leaves_dir Lite.URL_parse (mount (scenarioA "Root." "Seo."))
           "../seo" (Single.create pluginRoot) pluginRoot ["seo"]).
  - repeat constructor; discriminate.
  - reflexivity.
  - vm_compute. eexists. reflexivity.
  - reflexivity.
  - reflexivity.
Defined.

End Confined.


(** ** Calls on the multi-tenant resolver *)

Module MultiCalls.

Import Walker Confinement Segments MultiSpec Configs DomainMatcher Examples.

Lemma matchAny_strings (h : string) (patterns : list json) :
  Forall is_string patterns ->
  exists b,
    Multi.matchAny h patterns = Returned b
    /\ (b = true <-> exists p, In (JStr p) patterns /\ matches h p).
Proof.
  induction 1 as [|pattern others [p ->] Hothers [b [IH Hb]]].
  - exists false. split; [reflexivity|]. split; [discriminate | intros [p [[] _]]].
  - cbn [Multi.matchAny]. rewrite DomainMatcherFacts.matchDomain_returns.
    pose proof (DomainMatcherFacts.decide_match_spec h p) as Hd.
    destruct (decide_match h p).
    + exists true. split; [reflexivity|]. split; [|reflexivity].
      intros _. exists p. split; [now left | now apply Hd].
    + exists b. split; [exact IH|]. rewrite Hb. split.
      * intros [q [Hq Hm]]. exists q. split; [now right | exact Hm].
      * intros [q [[[= <-] | Hq] Hm]].
        -- apply Hd in Hm. discriminate.
        -- now exists q.
Qed.

Lemma firstMatch_strings (h : string) (configs : Multi.ConfigMap) :
  well_typed configs ->
  (exists before folder config after,
      configs = before ++ (folder, config) :: after
      /\ Forall (fun set => ~ set_matches h set) before
      /\ set_matches h (folder, config)
      /\ Multi.firstMatch h configs = Returned (Some folder))
  \/ (Forall (fun set => ~ set_matches h set) configs
      /\ Multi.firstMatch h configs = Returned None).
Proof.
  induction 1 as [|[folder config] others Hset Hothers IH].
  - right. split; [constructor | reflexivity].
  - cbn [Multi.firstMatch].
    destruct (matchAny_strings h (Multi.domains config) Hset) as [b [-> Hb]].
    destruct b.
    + left. exists [], folder, config, others.
      split; [reflexivity|]. split; [constructor|]. split; [|reflexivity].
      now apply Hb.
    + assert (Hno : ~ set_matches h (folder, config)).
      { intros Hm. apply Hb in Hm. discriminate. }
      destruct IH as [[before [f [c [after [-> [Hbefore [Hm Hr]]]]]]] | [Hnone Hr]].
      * left. exists ((folder, config) :: before), f, c, after.
        split; [reflexivity|]. split; [now constructor|]. split; assumption.
      * right. split; [now constructor | exact Hr].
Qed.

Lemma matchAny_throws (h : string) (patterns : list json) (e : exn) :
  Multi.matchAny h patterns = Thrown e -> e = TypeError.
Proof.
  induction patterns as [|pattern others IH]; cbn [Multi.matchAny]; [discriminate|].
  destruct pattern; try (cbn [Multi.matchDomain]; now intros [= <-]).
  rewrite DomainMatcherFacts.matchDomain_returns.
  destruct (decide_match h _); [discriminate | exact IH].
Qed.

Lemma firstMatch_throws (h : string) (configs : Multi.ConfigMap) (e : exn) :
  Multi.firstMatch h configs = Thrown e -> e = TypeError /\ ~ well_typed configs.
Proof.
  intros Hthrown. split.
  - induction configs as [|[folder config] others IH];
      cbn [Multi.firstMatch] in Hthrown; [discriminate|].
    destruct (Multi.matchAny h (Multi.domains config)) as [[|]|e'] eqn:Hany.
    + discriminate.
    + now apply IH.
    + injection Hthrown as <-. exact (matchAny_throws h _ e' Hany).
  - intros Hwt.
    destruct (firstMatch_strings h configs Hwt)
      as [[before [f [c [after [_ [_ [_ Hr]]]]]]] | [_ Hr]]; congruence.
Qed.

Section Platform.

Variable URL_parse : string -> option URL.
Variable JSON_parse : string -> option json.

Local Abbreviation resolve := (Multi.resolve URL_parse JSON_parse).
Local Abbreviation findInstructionSet := (Multi.findInstructionSet JSON_parse).
Local Abbreviation loadConfigs := (Multi.loadConfigs JSON_parse).

Lemma loadConfigs_cached (fs : node) (st : Multi.Resolver) (configs : Multi.ConfigMap) :
  Multi.configCache st = Some configs ->
  loadConfigs fs st = (Returned configs, st, []).
Proof.
  intros Hc. unfold Multi.loadConfigs. now rewrite RunFacts.bind_get, Hc.
Qed.

Lemma findInstructionSet_cached (fs : node) (h : string) (st : Multi.Resolver)
  (configs : Multi.ConfigMap) :
  Multi.configCache st = Some configs ->
  findInstructionSet fs h st = (Multi.firstMatch h configs, st, []).
Proof.
  intros Hc. unfold Multi.findInstructionSet.
  rewrite RunFacts.bind_eq, (loadConfigs_cached fs st configs Hc).
  now rewrite RunFacts.after_nil.
Qed.

(** A hostname that no cached set matches. *)
Lemma no_match_absent (fs : node) (url : string) (st : Multi.Resolver)
  (configs : Multi.ConfigMap) :
  Multi.configCache st = Some configs ->
  well_typed configs ->
  (forall parsed, URL_parse url = Some parsed ->
                  Forall (fun set => ~ set_matches (hostname parsed) set) configs) ->
  Multi.cache st !! url = None ->
  resolve fs url st = (Returned None, Multi.cache_set url None st, []).
Proof.
  intros Hc Hwt Hno Hmiss.
  destruct (URL_parse url) as [parsed|] eqn:Hp.
  - specialize (Hno parsed eq_refl).
    apply (MultiFacts.resolve_no_set URL_parse JSON_parse fs url st st parsed None []);
      try assumption; try reflexivity.
    rewrite (findInstructionSet_cached fs _ st configs Hc).
    destruct (firstMatch_strings (hostname parsed) configs Hwt)
      as [[before [f [c [after [-> [_ [Hm _]]]]]]] | [_ ->]]; [|reflexivity].
    exfalso. apply Forall_app in Hno as [_ Hno].
    apply Forall_cons_1 in Hno as [Hno _]. now apply Hno.
  - now apply MultiFacts.resolve_unparsable.
Qed.

Lemma scan_keeps_configs (fs : node) (dir : path) (entries : list Fs.Dirent) :
  forall s,
    is_Some (Multi.configCache s) ->
    is_Some (Multi.configCache
               (List.fold_left (fun s entry => scanState JSON_parse fs dir entry s)
                  entries s)).
Proof.
  induction entries as [|entry others IH]; intros s Hs; [exact Hs|].
  cbn [List.fold_left]. apply IH. unfold scanState.
  destruct (negb _); [exact Hs|].
  destruct (hasConfig _ _ _); [|exact Hs].
  unfold registered. destruct (declaredAt _ _ _); [|exact Hs].
  cbn. now eexists.
Qed.

(** What [loadConfigs] does when no configurations are cached. *)
Lemma loadConfigs_outcome (fs : node) (st : Multi.Resolver) :
  Multi.configCache st = None ->
  let dir := Multi.instructionsDir st in
  match Fs.lookup fs dir with
  | None =>
      loadConfigs fs st = (Returned [], Multi.configCache_put [] st, [ExistsSync dir])
  | Some (File _) | Some (Locked _) =>
      loadConfigs fs st
      = (Thrown FsError, Multi.configCache_put [] st, [ExistsSync dir; ReaddirSync dir])
  | Some (Dir _) =>
      exists configs s1 l,
        loadConfigs fs st = (Returned configs, s1, l)
        /\ Multi.configCache s1 = Some configs
  end.
Proof.
  intros Hnone dir. unfold Multi.loadConfigs.
  rewrite RunFacts.bind_get, Hnone, RunFacts.bind_put.
  unfold existsSync. rewrite RunFacts.bind_lift.
  cbn [Multi.instructionsDir Multi.configCache_put]. fold dir.
  destruct (Fs.lookup fs dir) as [[content|es|es]|] eqn:Hdir.
  - rewrite bool_decide_eq_true_2 by (now eexists). cbn [negb].
    unfold readdirSync. rewrite Hdir, RunFacts.bind_lift. reflexivity.
  - rewrite bool_decide_eq_true_2 by (now eexists). cbn [negb].
    unfold readdirSync. rewrite Hdir, RunFacts.bind_lift.
    rewrite RunFacts.bind_eq, MultiFacts.scanEntries_eq, RunFacts.bind_get.
    pose proof (scan_keeps_configs fs dir (List.map Fs.dirent es)
                  (Multi.configCache_put [] st) ltac:(now eexists)) as [configs Hconfigs].
    eexists _, _, _. split; [reflexivity|].
    cbn [Run.after m_ret result_of state_of log_of fst snd].
    now rewrite Hconfigs.
  - rewrite bool_decide_eq_true_2 by (now eexists). cbn [negb].
    unfold readdirSync. rewrite Hdir, RunFacts.bind_lift. reflexivity.
  - rewrite bool_decide_eq_false_2 by (intros [? [=]]). reflexivity.
Qed.

Lemma multi_dir_plain (st : Multi.Resolver) :
  reachable URL_parse JSON_parse st -> Forall plain (Multi.instructionsDir st).
Proof.
  induction 1 as [pluginRoot | fs url st Hreach IH | st Hreach IH].
  - apply Confined.normalize_abs_plain. constructor.
  - destruct (MultiFacts.resolve_summary URL_parse JSON_parse fs url st) as [Hdir _].
    cbv zeta in Hdir. now rewrite Hdir.
  - exact IH.
Qed.

(** X9.  With the configurations cached and every pattern a string,
    [findInstructionSet] touches neither the store nor the resolver, and
    returns the folder of the first set, in the order in which the sets
    were registered, one of whose patterns matches the hostname; when no
    set has such a pattern it returns absent. *)
Theorem first_matching_set_wins (fs : node) (h : string) (st : Multi.Resolver)
  (configs : Multi.ConfigMap) :
  Multi.configCache st = Some configs ->
  well_typed configs ->
  exists found,
    findInstructionSet fs h st = (Returned found, st, [])
    /\ match found with
       | Some folder =>
           exists before config after,
             configs = before ++ (folder, config) :: after
             /\ Forall (fun set => ~ set_matches h set) before
             /\ set_matches h (folder, config)
       | None => Forall (fun set => ~ set_matches h set) configs
       end.
Proof.
  intros Hc Hwt. rewrite (findInstructionSet_cached fs h st configs Hc).
  destruct (firstMatch_strings h configs Hwt)
    as [[before [f [c [after [Heq [Hbefore [Hm ->]]]]]]] | [Hnone ->]].
  - exists (Some f). split; [reflexivity|]. now exists before, c, after.
  - exists None. split; [reflexivity | exact Hnone].
Qed.

(** X10.  Once the instruction set of the hostname is found, the
    multi-tenant [resolve] touches the store at or below the folder of
    that set only, provided that the name of the folder is an ordinary
    name and no segment of the path is [.] or [..]: every access after
    those of [findInstructionSet] is inside the set. *)
Theorem resolve_reads_in_set (fs : node) (url : string) (st s1 : Multi.Resolver)
  (parsed : URL) (found : option string) (l1 : list fs_op) :
  reachable URL_parse JSON_parse st ->
  Multi.cache st !! url = None ->
  URL_parse url = Some parsed ->
  findInstructionSet fs (hostname parsed) st = (Returned found, s1, l1) ->
  Js.truthy_opt found = true ->
  plain (default "" found) ->
  Forall (fun s => s <> "." /\ s <> "..") (segmentsOf (pathname parsed)) ->
  exists l,
    log_of (resolve fs url st) = l1 ++ l
    /\ Forall (under (Multi.instructionsDir st ++ [default "" found])) l.
Proof.
  intros Hreach Hmiss Hparse Hfind Htruthy Hset Hdots.
  destruct (MultiFacts.resolve_in_set URL_parse JSON_parse fs url st s1 parsed found l1
              Hmiss Hparse Hfind Htruthy) as [docs [l [Hg [_ ->]]]].
  exists l. split; [reflexivity|].
  pose proof (ConfinementFacts.gather_under fs (Multi.instructionsDir st)
                [default "" found] (multi_dir_plain st Hreach)
                (ConfinementFacts.plain_one _ Hset)
                (segmentsOf (pathname parsed))
                (ConfinementFacts.segments_plain _ Hdots)) as Hunder.
  unfold gathered in Hg. cbv zeta in Hg.
  rewrite ConfinementFacts.join_two in Hg
    by (try apply ConfinementFacts.plain_one; try assumption; repeat split; discriminate).
  rewrite (ConfinementFacts.join_plain [[default "" found]; _]) in Hg.
  - cbn [List.concat] in Hg. rewrite app_nil_r in Hg.
    rewrite Hg in Hunder. exact Hunder.
  - cbn [List.concat]. rewrite app_nil_r.
    apply ConfinementFacts.plain_app; [now apply ConfinementFacts.plain_one|].
    apply ConfinementFacts.removelast_plain, ConfinementFacts.segments_plain, Hdots.
Qed.

(** A directory that cannot be listed makes [loadConfigs] throw as a
    file in its place does. *)
Lemma unlistable_dir_throws (fs : node) (url : string) (st : Multi.Resolver)
  (parsed : URL) (n : node) :
  Multi.configCache st = None ->
  Multi.cache st !! url = None ->
  URL_parse url = Some parsed ->
  Fs.lookup fs (Multi.instructionsDir st) = Some n ->
  unlistable n ->
  resolve fs url st
  = (Thrown FsError, Multi.configCache_put [] st,
     [ExistsSync (Multi.instructionsDir st); ReaddirSync (Multi.instructionsDir st)]).
Proof.
  intros Hnone Hmiss Hparse Hn Hun.
  apply (MultiFacts.resolve_thrown URL_parse JSON_parse fs url st _ parsed);
    try assumption.
  unfold Multi.findInstructionSet. rewrite RunFacts.bind_eq.
  pose proof (loadConfigs_outcome fs st Hnone) as Hload. cbv zeta in Hload.
  rewrite Hn in Hload. destruct n as [content|es|es]; [|destruct Hun|];
    now rewrite Hload.
Qed.

(** X11.  When the instructions directory exists and is not a directory,
    the first call of [resolve] for a URL throws out of [readdirSync],
    after the config cache was set to an empty map.  The empty map stays:
    from then on every URL that is not cached resolves to absent without
    any access to the store, whatever the store has become, until
    [clearCache] is called. *)
Theorem unreadable_dir_sticks (fs : node) (url : string) (st : Multi.Resolver)
  (parsed : URL) (content : option string) :
  Multi.configCache st = None ->
  Multi.cache st !! url = None ->
  URL_parse url = Some parsed ->
  Fs.lookup fs (Multi.instructionsDir st) = Some (File content) ->
  let st1 := Multi.configCache_put [] st in
  resolve fs url st
  = (Thrown FsError, st1,
     [ExistsSync (Multi.instructionsDir st); ReaddirSync (Multi.instructionsDir st)])
  /\ forall fs' url',
       Multi.cache st !! url' = None ->
       resolve fs' url' st1 = (Returned None, Multi.cache_set url' None st1, []).
Proof.
  intros Hnone Hmiss Hparse Hfile st1. split.
  - apply (MultiFacts.resolve_thrown URL_parse JSON_parse fs url st st1 parsed);
      try assumption.
    unfold Multi.findInstructionSet. rewrite RunFacts.bind_eq.
    pose proof (loadConfigs_outcome fs st Hnone) as Hload. cbv zeta in Hload.
    rewrite Hfile in Hload. now rewrite Hload.
  - intros fs' url' Hmiss'.
    apply (no_match_absent fs' url' st1 []); try reflexivity; try constructor.
    exact Hmiss'.
Qed.

(** X12.  When there is no instructions directory, the first call of
    [resolve] for a URL looks for the directory, finds the host in no
    set and returns absent; the config cache is then an empty map, so
    every later URL that is not cached resolves to absent without any
    access to the store, also after the directory has appeared, until
    [clearCache] is called. *)
Theorem missing_dir_sticks (fs : node) (url : string) (st : Multi.Resolver)
  (parsed : URL) :
  Multi.configCache st = None ->
  Multi.cache st !! url = None ->
  URL_parse url = Some parsed ->
  Fs.lookup fs (Multi.instructionsDir st) = None ->
  let st1 := Multi.configCache_put [] st in
  resolve fs url st
  = (Returned None, Multi.cache_set url None st1, [ExistsSync (Multi.instructionsDir st)])
  /\ forall fs' url',
       url' <> url ->
       Multi.cache st !! url' = None ->
       resolve fs' url' (Multi.cache_set url None st1)
       = (Returned None, Multi.cache_set url' None (Multi.cache_set url None st1), []).
Proof.
  intros Hnone Hmiss Hparse Hdir st1. split.
  - apply (MultiFacts.resolve_no_set URL_parse JSON_parse fs url st st1 parsed None);
      try assumption; try reflexivity.
    unfold Multi.findInstructionSet. rewrite RunFacts.bind_eq.
    pose proof (loadConfigs_outcome fs st Hnone) as Hload. cbv zeta in Hload.
    rewrite Hdir in Hload. now rewrite Hload.
  - intros fs' url' Hne Hmiss'.
    apply (no_match_absent fs' url' (Multi.cache_set url None st1) []);
      try reflexivity; try constructor.
    cbn [Multi.cache Multi.cache_set Multi.configCache_put].
    rewrite lookup_insert_ne by congruence. exact Hmiss'.
Qed.

(** X13.  The multi-tenant [resolve] throws in two cases only, both for
    a string that parses as a URL and is not cached: out of
    [readdirSync], when no configurations are cached and the
    instructions directory exists and cannot be listed (it is a file, or
    a directory that cannot be read); and out of [matchDomain], when
    some pattern of the configurations, cached by then, is not a string.
    Nothing that is read for the documents makes it throw. *)
Theorem resolve_throws_only (fs : node) (url : string) (st : Multi.Resolver) (e : exn) :
  result_of (resolve fs url st) = Thrown e ->
  Multi.cache st !! url = None
  /\ URL_parse url <> None
  /\ ((e = FsError
       /\ Multi.configCache st = None
       /\ exists n,
            Fs.lookup fs (Multi.instructionsDir st) = Some n /\ unlistable n)
      \/ (e = TypeError
          /\ exists configs,
               Multi.configCache (state_of (resolve fs url st)) = Some configs
               /\ ~ well_typed configs)).
Proof.
  intros Hthrown.
  destruct (Multi.cache st !! url) as [hit|] eqn:Hmiss.
  { rewrite (MultiFacts.resolve_hit URL_parse JSON_parse fs url st hit Hmiss) in Hthrown.
    discriminate. }
  destruct (URL_parse url) as [parsed|] eqn:Hparse.
  2:{ rewrite (MultiFacts.resolve_unparsable URL_parse JSON_parse fs url st Hmiss Hparse)
        in Hthrown. discriminate. }
  split; [reflexivity|]. split; [discriminate|].
  destruct (findInstructionSet fs (hostname parsed) st) as [[[found|e'] s1] l1] eqn:Hfind.
  { exfalso. destruct (Js.truthy_opt found) eqn:Ht.
    - destruct (MultiFacts.resolve_in_set URL_parse JSON_parse fs url st s1 parsed found l1
                  Hmiss Hparse Hfind Ht) as [docs [l [_ [_ Hr]]]].
      rewrite Hr in Hthrown. discriminate.
    - rewrite (MultiFacts.resolve_no_set URL_parse JSON_parse fs url st s1 parsed found l1
                 Hmiss Hparse Hfind Ht) in Hthrown. discriminate. }
  rewrite (MultiFacts.resolve_thrown URL_parse JSON_parse fs url st s1 parsed e' l1
             Hmiss Hparse Hfind) in Hthrown |- *.
  injection Hthrown as ->. cbn [state_of fst snd].
  unfold Multi.findInstructionSet in Hfind. rewrite RunFacts.bind_eq in Hfind.
  destruct (Multi.configCache st) as [configs|] eqn:Hc.
  - rewrite (loadConfigs_cached fs st configs Hc), RunFacts.after_nil in Hfind.
    injection Hfind as Hfirst <- _.
    destruct (firstMatch_throws _ _ _ Hfirst) as [-> Hwt].
    right. split; [reflexivity|]. now exists configs.
  - pose proof (loadConfigs_outcome fs st Hc) as Hload. cbv zeta in Hload.
    destruct (Fs.lookup fs (Multi.instructionsDir st)) as [[content|es|es]|].
    + rewrite Hload in Hfind. injection Hfind as <- _ _.
      left. split; [reflexivity|]. split; [reflexivity|].
      exists (File content). now split.
    + destruct Hload as [configs [s2 [l [Hload Hconfigs]]]].
      rewrite Hload in Hfind.
      unfold Run.after, check in Hfind. cbn [result_of state_of log_of fst snd] in Hfind.
      injection Hfind as Hfirst <- _.
      destruct (firstMatch_throws _ _ _ Hfirst) as [-> Hwt].
      right. split; [reflexivity|]. now exists configs.
    + rewrite Hload in Hfind. injection Hfind as <- _ _.
      left. split; [reflexivity|]. split; [reflexivity|].
      exists (Locked es). now split.
    + rewrite Hload in Hfind.
      unfold Run.after, check in Hfind. cbn [result_of state_of log_of fst snd] in Hfind.
      discriminate.
Qed.

End Platform.

Lemma first_matching_set_wins_witness :
  let configs := [("semrush",
                   {| Multi.domains := [JStr "semrush.com"; JStr "*.semrush.com"] |})] in
  exists found,
    Multi.findInstructionSet Lite.JSON_parse (tenants "NEW") "www.semrush.com"
      scenarioD_cached
    = (Returned found, scenarioD_cached, [])
    /\ match found with
       | Some folder =>
           exists before config after,
             configs = before ++ (folder, config) :: after
             /\ Forall (fun set => ~ set_matches "www.semrush.com" set) before
             /\ set_matches "www.semrush.com" (folder, config)
       | None => Forall (fun set => ~ set_matches "www.semrush.com" set) configs
       end.
Proof.
  apply (first_matching_set_wins Lite.JSON_parse (tenants "NEW") "www.semrush.com"
           scenarioD_cached).
  - vm_compute. reflexivity.
  - repeat constructor; eexists; reflexivity.
Defined.

Lemma resolve_reads_in_set_witness :
  let st := Multi.create pluginRoot in
  let found := Multi.findInstructionSet Lite.JSON_parse (tenants "BASE") "semrush.com" st in
  exists l,
    log_of (Multi.resolve Lite.URL_parse Lite.JSON_parse (tenants "BASE")
              "https://semrush.com/seo" st)
    = log_of found ++ l
    /\ Forall (under (Multi.instructionsDir st ++ ["semrush"])) l.
Proof.
  apply (resolve_reads_in_set Lite.URL_parse Lite.JSON_parse (tenants "BASE")
           "https://semrush.com/seo" (Multi.create pluginRoot)
           (state_of (Multi.findInstructionSet Lite.JSON_parse (tenants "BASE")
                        "semrush.com" (Multi.create pluginRoot)))
           {| hostname := "semrush.com"; pathname := "/seo" |} (Some "semrush")).
  - apply reach_create.
  - reflexivity.
  - vm_compute. reflexivity.
  - vm_compute. reflexivity.
  - reflexivity.
  - repeat split; discriminate.
  - vm_compute. repeat constructor; discriminate.
Defined.

Lemma unreadable_dir_sticks_witness :
  let st := Multi.create pluginRoot in
  let st1 := Multi.configCache_put [] st in
  Multi.resolve Lite.URL_parse Lite.JSON_parse instructionsIsFile
    "https://semrush.com/seo" st
  = (Thrown FsError, st1,
     [ExistsSync (Multi.instructionsDir st); ReaddirSync (Multi.instructionsDir st)])
  /\ forall fs' url',
       Multi.cache st !! url' = None ->
       Multi.resolve Lite.URL_parse Lite.JSON_parse fs' url' st1
       = (Returned None, Multi.cache_set url' None st1, []).
Proof.
  apply (unreadable_dir_sticks Lite.URL_parse Lite.JSON_parse instructionsIsFile
           "https://semrush.com/seo" (Multi.create pluginRoot)
           {| hostname := "semrush.com"; pathname := "/seo" |} (Some "not a directory")).
  - reflexivity.
  - reflexivity.
  - vm_compute. reflexivity.
  - reflexivity.
Defined.

Lemma missing_dir_sticks_witness :
  let st := Multi.create pluginRoot in
  let st1 := Multi.configCache_put [] st in
  let url := "https://semrush.com/seo" in
  Multi.resolve Lite.URL_parse Lite.JSON_parse (Dir [("plugin", Dir [])]) url st
  = (Returned None, Multi.cache_set url None st1, [ExistsSync (Multi.instructionsDir st)])
  /\ forall fs' url',
       url' <> url ->
       Multi.cache st !! url' = None ->
       Multi.resolve Lite.URL_parse Lite.JSON_parse fs' url' (Multi.cache_set url None st1)
       = (Returned None, Multi.cache_set url' None (Multi.cache_set url None st1), []).
Proof.
  apply (missing_dir_sticks Lite.URL_parse Lite.JSON_parse (Dir [("plugin", Dir [])])
           "https://semrush.com/seo" (Multi.create pluginRoot)
           {| hostname := "semrush.com"; pathname := "/seo" |}).
  - reflexivity.
  - reflexivity.
  - vm_compute. reflexivity.
  - reflexivity.
Defined.

(** The instruction sets of a directory that cannot be listed are not
    found, though their files are there: the call throws. *)
Lemma locked_directory_throws :
  result_of (Multi.resolve Lite.URL_parse Lite.JSON_parse
               (Dir [("plugin", Dir [("instructions", Locked [("semrush", semrush "BASE")])])])
               "https://semrush.com/" (Multi.create pluginRoot))
  = Thrown FsError.
Proof. vm_compute. reflexivity. Qed.

Lemma resolve_throws_only_witness :
  let st := Multi.create pluginRoot in
  let url := "https://example.com/" in
  Multi.cache st !! url = None
  /\ Lite.URL_parse url <> None
  /\ ((TypeError = FsError
       /\ Multi.configCache st = None
       /\ exists n,
            Fs.lookup numberPattern (Multi.instructionsDir st) = Some n /\ unlistable n)
      \/ (TypeError = TypeError
          /\ exists configs,
               Multi.configCache
                 (state_of (Multi.resolve Lite.URL_parse Lite.JSON_parse numberPattern url st))
               = Some configs
               /\ ~ well_typed configs)).
Proof.
  apply (resolve_throws_only Lite.URL_parse Lite.JSON_parse numberPattern
           "https://example.com/" (Multi.create pluginRoot) TypeError).
  vm_compute. reflexivity.
Defined.

End MultiCalls.


(** ** The prompt envelope *)

Module PromptFacts.

Import Segments.

Lemma append_inv_head (p a b : string) : p +:+ a = p +:+ b -> a = b.
Proof.
  induction p as [|c p IH]; [trivial|].
  rewrite !JsFacts.append_String. intros [= H]. now apply IH.
Qed.

Lemma append_inv_tail (a b s : string) : a +:+ s = b +:+ s -> a = b.
Proof.
  revert b; induction a as [|c a IH]; intros b H.
  - destruct b as [|d b]; [reflexivity|].
    apply (f_equal String.length) in H.
    rewrite !JsFacts.length_append in H. cbn in H. lia.
  - destruct b as [|d b].
    + apply (f_equal String.length) in H.
      rewrite !JsFacts.length_append in H. cbn in H. lia.
    + rewrite !JsFacts.append_String in H. injection H as -> H.
      f_equal. now apply IH.
Qed.

(** The first line of a text is determined by the text. *)
Lemma first_line (u u' rest rest' : string) :
  line_free u -> line_free u' ->
  u +:+ String "010" rest = u' +:+ String "010" rest' ->
  u = u' /\ rest = rest'.
Proof.
  revert u'; induction u as [|c u IH]; intros u' Hu Hu' H.
  - destruct u' as [|d u'].
    + cbn in H. now injection H as ->.
    + rewrite JsFacts.append_String in H. cbn in H. injection H as <- _.
      exfalso. apply Hu'. now left.
  - destruct u' as [|d u'].
    + rewrite JsFacts.append_String in H. cbn in H. injection H as -> _.
      exfalso. apply Hu. now left.
    + rewrite !JsFacts.append_String in H. injection H as -> H.
      destruct (IH u') as [-> ->]; try assumption.
      * intros Hin. apply Hu. now right.
      * intros Hin. apply Hu'. now right.
      * now split.
Qed.

(** X14.  The envelope that [formatForPrompt] puts around the
    instructions can be taken off again: for URLs that hold no line
    feed, two envelopes are the same text only when the URLs are the
    same and the instructions are the same. *)
Theorem formatForPrompt_injective (instructions instructions' url url' : string) :
  line_free url -> line_free url' ->
  formatForPrompt instructions url = formatForPrompt instructions' url' ->
  instructions = instructions' /\ url = url'.
Proof.
  unfold formatForPrompt, blankLine. intros Hu Hu' H.
  apply append_inv_head, append_inv_head, append_inv_head in H.
  change (String "010" (String "010" "") +:+ ?x) with (String "010" (String "010" x)) in H.
  apply first_line in H as [-> H]; try assumption.
  split; [|reflexivity].
  injection H as H. now apply append_inv_tail in H.
Qed.

Lemma formatForPrompt_injective_witness :
  "Root." = "Root." /\ "https://semrush.com/seo" = "https://semrush.com/seo".
Proof.
  apply (formatForPrompt_injective "Root." "Root."
           "https://semrush.com/seo" "https://semrush.com/seo").
  - vm_compute. intuition discriminate.
  - vm_compute. intuition discriminate.
  - reflexivity.
Defined.

End PromptFacts.


(** ** The browser utilities *)

Module ProfileFacts.

Import Segments BrowserSpec BrowserUtils.






Lemma substitution_plain (matched before after template : string) :
  dollar_free template -> substitution matched before after template = template.
Proof.
  induction template as [|c t IH]; intros Hfree; [reflexivity|].
  cbn [substitution].
  destruct (Ascii.eqb c "$") eqn:Hc.
  - apply Ascii.eqb_eq in Hc as ->. exfalso. apply Hfree. now left.
  - f_equal. apply IH. intros Hin. apply Hfree. now right.
Qed.

Section Platform.

Variable env : string -> option string.


(** X16.  When the value of [HOME] holds no dollar sign, the expansion
    replaces a leading tilde by that value, or by nothing when [HOME] is
    not set or empty, and leaves a path that begins otherwise as it is.
    (A dollar sign in [HOME] would be read as a replacement pattern.) *)
Theorem expandHome_spec (profilePath : string) :
  dollar_free (orEmpty (env "HOME")) ->
  expandHome env profilePath
  = if Js.startsWith profilePath "~"
    then orEmpty (env "HOME") +:+ Js.slice 1 profilePath
    else profilePath.
Proof.
  intros Hfree. unfold expandHome, replaceLeadingTilde.
  destruct profilePath as [|c rest]; [reflexivity|].
  destruct (Ascii.eqb c "~") eqn:Hc.
  - apply Ascii.eqb_eq in Hc as ->.
    rewrite (substitution_plain _ _ _ _ Hfree).
    rewrite (proj2 (JsFacts.startsWith_spec (String "~" rest) "~"))
      by (now exists rest).
    pose proof (JsFacts.slice_append "~" rest) as Hslice.
    change (Js.slice 1 (String "~" rest) = rest) in Hslice.
    now rewrite Hslice.
  - apply Ascii.eqb_neq in Hc.
    destruct (Js.startsWith (String c rest) "~") eqn:Hs; [|reflexivity].
    apply JsFacts.startsWith_spec in Hs as [rest' Hs].
    change ("~" +:+ rest') with (String "~" rest') in Hs. congruence.
Qed.

End Platform.

Lemma expandHome_spec_witness :
  let env := fun name => if String.eqb name "HOME" then Some "/Users/x" else None in
  expandHome env "~/Library/Chrome/Profile 2" = "/Users/x/Library/Chrome/Profile 2".
Proof.
  apply (expandHome_spec
           (fun name => if String.eqb name "HOME" then Some "/Users/x" else None)
           "~/Library/Chrome/Profile 2").
  vm_compute. intuition discriminate.
Defined.

End ProfileFacts.


(** ** Finding Chrome and preparing its profile *)

Module ChromeFacts.

Import BrowserSpec BrowserUtils.

Lemma append_nonempty_r (a b : string) : b <> "" -> a +:+ b <> "".
Proof.
  intros Hb H. apply (f_equal String.length) in H.
  rewrite JsFacts.length_append in H. destruct b; [congruence|]. cbn in H. lia.
Qed.

Ltac no_copy :=
  repeat first
    [ apply Forall_nil_2
    | apply Forall_cons_2;
      [ cbn [is_copy];
        first [ solve [intros []]
              | intros _; split; [reflexivity | split; assumption] ]
      | ] ].

Section Platform.

Variable platform : string.
Variable env : string -> option string.
Variable F : Type.
Variable existsSync : F -> string -> bool.
Variable mkdirSync : F -> string -> outcome F.
Variable cpSync : F -> string -> string -> outcome F.
Variable join : list string -> string.

Local Abbreviation skipped := (BrowserSpec.skipped existsSync).
Local Abbreviation prepare :=
  (prepareChromeProfile platform env F existsSync mkdirSync cpSync join).
Local Abbreviation sourceOf := (sourceProfileOf platform env F existsSync join).

Lemma firstExisting_spec (fs : F) (paths : list string) :
  match firstExisting F existsSync fs paths with
  | Some p =>
      exists before after,
        paths = before ++ p :: after
        /\ Forall (skipped fs) before
        /\ p <> "" /\ existsSync fs p = true
  | None => Forall (skipped fs) paths
  end.
Proof.
  induction paths as [|p others IH]; cbn [firstExisting]; [constructor|].
  destruct (Js.truthy p) eqn:Hp; cbn [andb].
  - destruct (existsSync fs p) eqn:He.
    + exists [], others. split; [reflexivity|]. split; [constructor|].
      split; [now apply DocumentFacts.truthy_true | exact He].
    + destruct (firstExisting F existsSync fs others) as [q|].
      * destruct IH as [before [after [-> [Hbefore Hq]]]].
        exists (p :: before), after. split; [reflexivity|].
        split; [constructor; [now right | exact Hbefore] | exact Hq].
      * constructor; [now right | exact IH].
  - assert (p = "") as ->.
    { unfold Js.truthy in Hp. apply negb_false_iff, String.eqb_eq in Hp. exact Hp. }
    destruct (firstExisting F existsSync fs others) as [q|].
    + destruct IH as [before [after [-> [Hbefore Hq]]]].
      exists ("" :: before), after. split; [reflexivity|].
      split; [constructor; [now left | exact Hbefore] | exact Hq].
    + constructor; [now left | exact IH].
Qed.

Lemma chromePaths_nonempty : Forall (fun p => p <> "") (chromePaths platform env).
Proof.
  unfold chromePaths.
  destruct (String.eqb platform "darwin"); [|destruct (String.eqb platform "win32")];
    repeat (apply Forall_cons_2;
            [first [discriminate | apply append_nonempty_r; discriminate]|]);
    apply Forall_nil_2.
Qed.

(** X17.  [findLocalChrome] returns the first of the candidate paths of
    the platform that exists, and nothing when none exists.  No
    candidate is the empty text, also when the environment variables it
    is made of are not set, so the test of the path in the loop never
    decides. *)
Theorem findLocalChrome_first (fs : F) :
  Forall (fun p => p <> "") (chromePaths platform env)
  /\ match findLocalChrome platform env F existsSync fs with
     | Some p =>
         exists before after,
           chromePaths platform env = before ++ p :: after
           /\ Forall (fun q => existsSync fs q = false) before
           /\ existsSync fs p = true
     | None => Forall (fun q => existsSync fs q = false) (chromePaths platform env)
     end.
Proof.
  pose proof chromePaths_nonempty as Hne.
  split; [exact Hne|]. unfold findLocalChrome.
  pose proof (firstExisting_spec fs (chromePaths platform env)) as Hspec.
  assert (Hskip : forall qs, Forall (fun p => p <> "") qs -> Forall (skipped fs) qs ->
                             Forall (fun q => existsSync fs q = false) qs).
  { intros qs Hqs Hs. rewrite List.Forall_forall in *. intros q Hq.
    destruct (Hs q Hq) as [-> | He]; [|exact He]. now destruct (Hqs "" Hq). }
  destruct (firstExisting F existsSync fs (chromePaths platform env)) as [p|].
  - destruct Hspec as [before [after [Heq [Hbefore [_ He]]]]].
    exists before, after. split; [exact Heq|]. split; [|exact He].
    apply Hskip; [|exact Hbefore]. rewrite Heq in Hne.
    now apply Forall_app in Hne as [Hne _].
  - now apply Hskip.
Qed.

(** The first part of [prepareChromeProfile] leaves the file system as
    it is, returns, and only logs. *)
Lemma sourceProfileOf_reads (customProfilePath : option string) (fs : F) :
  exists source logs,
    sourceOf customProfilePath fs = (Returned source, fs, logs)
    /\ Forall is_log logs
    /\ (Js.truthy_opt customProfilePath = true ->
        fst source = None
        \/ (fst source = Some (expandHome env (default "" customProfilePath))
            /\ existsSync fs (expandHome env (default "" customProfilePath)) = true
            /\ is_Some (parseProfilePath env (default "" customProfilePath)))).
Proof.
  unfold sourceProfileOf.
  destruct (Js.truthy_opt customProfilePath) eqn:Hc.
  - destruct (parseProfilePath env (default "" customProfilePath)) as [parsed|] eqn:Hp.
    + unfold step_bind, exists_, consoleLog, step_ret.
      destruct (existsSync fs (expandHome env (default "" customProfilePath))) eqn:He.
      * eexists _, _. split; [reflexivity|]. split; [constructor|].
        intros _. right. cbn [fst]. split; [reflexivity|]. split; [reflexivity|].
        now eexists.
      * eexists _, _. split; [reflexivity|]. split; [repeat constructor|].
        intros _. now left.
    + eexists _, _. split; [reflexivity|]. split; [constructor|]. intros _. now left.
  - unfold step_bind, exists_, step_ret. cbv zeta.
    destruct (existsSync fs (join [getChromeUserDataDir platform env; "Default"]));
      eexists _, _; (split; [reflexivity|]); (split; [constructor | discriminate]).
Qed.

(** X18.  When the isolated profile [.chrome-profile/Default] of the
    project exists already, [prepareChromeProfile] creates and copies
    nothing: it returns with the file system as it was, having only
    logged.  A custom profile path is then not used, yet the result
    still says [isCustomProfile] for it. *)
Theorem existing_profile_kept (projectDir : string) (customProfilePath : option string)
  (fs : F) :
  let tempUserDataDir := join [projectDir; ".chrome-profile"] in
  existsSync fs (join [tempUserDataDir; "Default"]) = true ->
  exists logs,
    prepare projectDir customProfilePath fs
    = (Returned {| configUserDataDir := tempUserDataDir;
                   configProfileDirectory := None;
                   isCustomProfile := Js.truthy_opt customProfilePath |},
       fs, logs)
    /\ Forall is_log logs.
Proof.
  intros temp Hdest. unfold prepareChromeProfile.
  destruct (sourceProfileOf_reads customProfilePath fs) as [source [logs [Hs [Hlogs _]]]].
  unfold step_bind at 1. rewrite Hs. cbv zeta. fold temp.
  unfold step_bind, exists_, consoleLog, step_ret. rewrite Hdest. cbn [negb].
  eexists. split; [reflexivity|].
  apply Forall_app; split; [exact Hlogs | repeat constructor].
Qed.

(** X19.  With a custom profile path given, the profile of the system
    is never copied: whatever [prepareChromeProfile] copies is the
    custom profile itself, which then exists and has a path that
    [parseProfilePath] accepts.  When the custom path is rejected or
    does not exist, nothing is copied at all. *)
Theorem custom_profile_no_fallback (projectDir : string)
  (customProfilePath : option string) (fs : F) :
  Js.truthy_opt customProfilePath = true ->
  let custom := expandHome env (default "" customProfilePath) in
  Forall (fun e =>
            is_copy e ->
            e = CpSync custom (join [join [projectDir; ".chrome-profile"]; "Default"])
            /\ existsSync fs custom = true
            /\ is_Some (parseProfilePath env (default "" customProfilePath)))
    (snd (prepare projectDir customProfilePath fs)).
Proof.
  intros Hc custom. unfold prepareChromeProfile.
  destruct (sourceProfileOf_reads customProfilePath fs)
    as [[sourceProfile profileName] [logs [Hs [Hlogs Hsource]]]].
  specialize (Hsource Hc). cbn [fst] in Hsource.
  unfold step_bind at 1. rewrite Hs. cbv zeta. cbn [fst snd].
  assert (Hlogs' : forall ls, Forall is_log ls ->
            Forall (fun e => is_copy e ->
                      e = CpSync custom (join [join [projectDir; ".chrome-profile"]; "Default"])
                      /\ existsSync fs custom = true
                      /\ is_Some (parseProfilePath env (default "" customProfilePath))) ls).
  { intros ls Hls. eapply Forall_impl; [exact Hls|].
    intros e He Hcopy. destruct e; cbn in *; contradiction. }
  unfold step_bind, exists_, consoleLog, step_ret, mkdir, cp.
  destruct (existsSync fs (join [join [projectDir; ".chrome-profile"]; "Default"]));
    cbn [negb].
  { cbn [snd]. apply Forall_app; split; apply Hlogs'; [exact Hlogs | repeat constructor]. }
  destruct (mkdirSync fs (join [projectDir; ".chrome-profile"])) as [fs1|e1].
  2:{ cbn [snd]. apply Forall_app; split; [now apply Hlogs' | no_copy]. }
  destruct Hsource as [-> | [-> [Hexists Hparsed]]].
  - cbn [Js.truthy_opt].
    destruct (mkdirSync fs1 _) as [fs2|e2]; cbn [snd];
      (apply Forall_app; split; [now apply Hlogs' | no_copy]).
  - fold custom. fold custom in Hexists.
    cbn [default from_option id].
    destruct (Js.truthy_opt (Some custom));
      [destruct (cpSync fs1 custom _) as [fs2|e2] | destruct (mkdirSync fs1 _) as [fs2|e2]];
      cbn [snd]; (apply Forall_app; split; [now apply Hlogs' | no_copy]).
Qed.

End Platform.

Lemma existing_profile_kept_witness :
  let fs := ["/proj/.chrome-profile/Default"] in
  exists logs,
    prepareChromeProfile "linux" BrowserExamples.env BrowserExamples.files
      BrowserExamples.existsSync BrowserExamples.mkdirSync BrowserExamples.cpSync
      BrowserExamples.join "/proj" (Some "~/Chrome/Profile 2") fs
    = (Returned {| configUserDataDir := "/proj/.chrome-profile";
                   configProfileDirectory := None;
                   isCustomProfile := true |},
       fs, logs)
    /\ Forall is_log logs.
Proof.
  apply (existing_profile_kept "linux" BrowserExamples.env BrowserExamples.files
           BrowserExamples.existsSync BrowserExamples.mkdirSync BrowserExamples.cpSync
           BrowserExamples.join "/proj" (Some "~/Chrome/Profile 2")
           ["/proj/.chrome-profile/Default"]).
  reflexivity.
Defined.

Lemma custom_profile_no_fallback_witness :
  let fs := ["/Users/x/.config/google-chrome/Default"] in
  Forall (fun e =>
            is_copy e ->
            e = CpSync "/Users/x/Chrome/Profile 2" "/proj/.chrome-profile/Default"
            /\ BrowserExamples.existsSync fs "/Users/x/Chrome/Profile 2" = true
            /\ is_Some (parseProfilePath BrowserExamples.env "~/Chrome/Profile 2"))
    (snd (prepareChromeProfile "linux" BrowserExamples.env BrowserExamples.files
            BrowserExamples.existsSync BrowserExamples.mkdirSync BrowserExamples.cpSync
            BrowserExamples.join "/proj" (Some "~/Chrome/Profile 2") fs)).
Proof.
  apply (custom_profile_no_fallback "linux" BrowserExamples.env BrowserExamples.files
           BrowserExamples.existsSync BrowserExamples.mkdirSync BrowserExamples.cpSync
           BrowserExamples.join "/proj" (Some "~/Chrome/Profile 2")
           ["/Users/x/.config/google-chrome/Default"]).
  reflexivity.
Defined.

End ChromeFacts.

(** ** Navigation with context injection *)

Module NavigateFacts.

Import Cli Examples.

(** X20.  A page context in the result of [navigate] means that context
    injection is not switched off (only the setting [false] switches it
    off), that the browser reached a final URL, and that the resolver,
    asked for that final URL and not for the URL given, returned this
    context; and the context is never the empty text.  The state of the
    resolver and its accesses to the store are those of that one call. *)
Theorem navigate_page_context (S : Type) (resolve : string -> M S (option string))
  (visit : string -> outcome (string * string)) (setting : option string)
  (url : string) (st st' : S) (message : notice) (screenshot context : string)
  (l : list fs_op) :
  navigate S resolve visit (contextInjectionEnabled setting) url st
  = (Success message screenshot (Some context), st', l) ->
  setting <> Some "false"
  /\ context <> ""
  /\ exists finalUrl,
       visit url = Returned (finalUrl, screenshot)
       /\ resolve finalUrl st = (Returned (Some context), st', l)
       /\ message = (if String.eqb finalUrl url then NavigatedTo url
                     else RedirectedTo url finalUrl).
Proof.
  unfold navigate. intros H.
  destruct (visit url) as [[finalUrl shot]|e]; [|discriminate].
  cbv zeta in H.
  destruct (contextInjectionEnabled setting) eqn:Henabled; [|discriminate].
  split.
  { intros ->. discriminate. }
  destruct (resolve finalUrl st) as [[[found|e] s1] l1] eqn:Hr; [|discriminate].
  destruct found as [c|]; cbn [Js.truthy_opt] in H; [|discriminate].
  destruct (Js.truthy c) eqn:Hc; [|discriminate].
  injection H as <- <- <- <- <-.
  split; [now apply DocumentFacts.truthy_true|].
  exists finalUrl. split; [reflexivity|]. split; [exact Hr|].
  now destruct (String.eqb finalUrl url).
Qed.

Lemma navigate_page_context_witness :
  let url := "https://semrush.com/seo" in
  let fs := mount (scenarioA "Root." "Seo.") in
  let st := Single.create pluginRoot in
  let context := "Root." +:+ separator +:+ "Seo." in
  None <> Some "false"
  /\ context <> ""
  /\ exists finalUrl,
       BrowserExamples.visit url = Returned (finalUrl, "screenshot.png")
       /\ Single.resolve Lite.URL_parse fs finalUrl st
          = (Returned (Some context),
             state_of (Single.resolve Lite.URL_parse fs url st),
             log_of (Single.resolve Lite.URL_parse fs url st))
       /\ NavigatedTo url = (if String.eqb finalUrl url then NavigatedTo url
                             else RedirectedTo url finalUrl).
Proof.
  apply (navigate_page_context Single.Resolver
           (Single.resolve Lite.URL_parse (mount (scenarioA "Root." "Seo.")))
           BrowserExamples.visit None "https://semrush.com/seo"
           (Single.create pluginRoot)).
  vm_compute. reflexivity.
Defined.

End NavigateFacts.
